(** * organization-automation: invitation and team reconciliation

    A shallow embedding of the two command line programs of the
    repository, [invite_to_org.py] and [manage_groups.py], and the
    properties of their roster loader, of [slugify] and of the two
    reconciliation loops.

    Conventions of the embedding.
    - A Python [str] is a Rocq [string]; a character is a code point
      below 256.  The text primitives ([str.strip], [str.lower],
      [re.sub]) are defined on [list ascii] and lifted to [string].
    - [json.loads] is modelled on a subset of JSON (no fractions, no
      exponents, no [\u] escapes, integers of at most 18 digits,
      nesting of at most 64 levels); outside of it the model answers
      [Unsupported], never a made-up value.
    - The roster file is taken as its text: a file that cannot be
      read is outside the model.
    - The [gh] command line client is the only door to the remote
      organization: it is a parameter of the programs, a function from
      a remote state and a command to a reply and a new remote state.
    - Both programs run in a small state, trace and abort monad: the
      trace records every [gh] call with its reply and every
      classification line the program prints. *)

From Stdlib Require Import List String Ascii NArith ZArith Bool Lia.
Import ListNotations.

Set Warnings "-register-all".

Local Open Scope list_scope.

(** ** Python text primitives *)

Module PyStr.

Definition text := list ascii.

Definition code (c : ascii) : N := N_of_ascii c.

Definition between (lo hi n : N) : bool := ((lo <=? n) && (n <=? hi))%N.

(** [str.isspace] on code points below 256; also the class [\s] of a
    [str] pattern. *)
Definition isspace (c : ascii) : bool :=
  let n := code c in
  between 9 13 n || between 28 32 n || (n =? 133)%N || (n =? 160)%N.

(** [str.lower] on one code point below 256. *)
Definition lower_char (c : ascii) : ascii :=
  let n := code c in
  if between 65 90 n || (between 192 222 n && negb (n =? 215)%N)
  then ascii_of_N (n + 32) else c.

Definition lower (s : text) : text := map lower_char s.

(** [s.lstrip(chars)], [s.rstrip(chars)] and [s.strip(chars)], the set
    of characters given as a class. *)
Fixpoint lstrip_with (cls : ascii -> bool) (s : text) : text :=
  match s with
  | [] => []
  | c :: t => if cls c then lstrip_with cls t else s
  end.

Fixpoint rstrip_with (cls : ascii -> bool) (s : text) : text :=
  match s with
  | [] => []
  | c :: t =>
      match rstrip_with cls t with
      | [] => if cls c then [] else [c]
      | t' => c :: t'
      end
  end.

Definition strip_with (cls : ascii -> bool) (s : text) : text :=
  rstrip_with cls (lstrip_with cls s).

Definition strip_text : text -> text := strip_with isspace.

(** [re.sub(r"[class]+", rep, s)]: every maximal run of characters of
    the class is replaced by [rep].  [inrun] says that the character
    before the current one belonged to a run already replaced. *)
Fixpoint sub_runs (cls : ascii -> bool) (rep : text) (inrun : bool) (s : text)
  : text :=
  match s with
  | [] => []
  | c :: t =>
      if cls c
      then (if inrun then sub_runs cls rep true t
            else rep ++ sub_runs cls rep true t)
      else c :: sub_runs cls rep false t
  end.

Definition is_char (d c : ascii) : bool := Ascii.eqb c d.

Definition starts_with (cls : ascii -> bool) (s : text) : bool :=
  match s with
  | [] => false
  | c :: _ => cls c
  end.

Fixpoint ends_with (cls : ascii -> bool) (s : text) : bool :=
  match s with
  | [] => false
  | [c] => cls c
  | _ :: t => ends_with cls t
  end.

(** Lifting to [string]. *)
Definition lift (f : text -> text) (s : string) : string :=
  string_of_list_ascii (f (list_ascii_of_string s)).

Definition strip (s : string) : string := lift strip_text s.
Definition lstrip (d : ascii) (s : string) : string :=
  lift (lstrip_with (is_char d)) s.

(** Truthiness of a [str]. *)
Definition nonempty (s : string) : bool :=
  match s with
  | EmptyString => false
  | String _ _ => true
  end.

(** [c in s] for a one character [c]. *)
Definition contains_char (d : ascii) (s : string) : bool :=
  existsb (is_char d) (list_ascii_of_string s).

End PyStr.

(** ** [slugify] of manage_groups.py *)

Module Slug.
Import PyStr.

Definition dash : ascii := "-"%char.

(** The class [a-z0-9]. *)
Definition is_az09 (c : ascii) : bool :=
  let n := code c in between 97 122 n || between 48 57 n.

(** The class [^a-z0-9]. *)
Definition not_az09 (c : ascii) : bool := negb (is_az09 c).

Definition is_dash : ascii -> bool := is_char dash.

Definition team_literal : text := list_ascii_of_string "team".

(** The body of [slugify], line by line. *)
Definition slug_text (name : text) : text :=
  let s := lower (strip_text name) in
  let s := sub_runs not_az09 [dash] false s in
  let s := strip_with is_dash (sub_runs is_dash [dash] false s) in
  match s with
  | [] => team_literal
  | _ => s
  end.

Definition slugify (name : string) : string := lift slug_text name.

(** A character a slug may hold. *)
Definition slug_char (c : ascii) : bool := is_az09 c || is_dash c.

Fixpoint no_double (cls : ascii -> bool) (s : text) : bool :=
  match s with
  | [] => true
  | c :: t => negb (cls c && starts_with cls t) && no_double cls t
  end.

(** Well-formed slug: not empty, only [a-z0-9-], no separator at either
    end, no two separators in a row. *)
Definition slug_wf_text (s : text) : bool :=
  match s with [] => false | _ => true end
  && forallb slug_char s
  && negb (starts_with is_dash s)
  && negb (ends_with is_dash s)
  && no_double is_dash s.

Definition slug_wf (s : string) : bool := slug_wf_text (list_ascii_of_string s).

(** *** The slug as the spec words it *)









End Slug.

(** ** [json.loads] on a subset of JSON *)

Module Json.
Import PyStr.

Inductive value : Type :=
| JNull
| JBool (b : bool)
| JInt (n : Z)
| JStr (s : string)
| JArr (items : list value)
| JObj (fields : list (string * value)).

(** What the decoder answers: a value, the exception
    [json.JSONDecodeError], or nothing when the text leaves the subset
    of JSON modelled here. *)
Inductive decoded : Type :=
| Parsed (v : value)
| DecodeError
| Unsupported.

Inductive token : Type :=
| TLBracket | TRBracket | TLBrace | TRBrace | TComma | TColon
| TString (s : string)
| TInt (n : Z)
| TNull | TTrue | TFalse.

(** The scanner reads one character at a time. *)
Inductive lex_state : Type :=
| LStart
| LString (acc : text)                        (* inside "...", reversed *)
| LEscape (acc : text)                        (* after a backslash *)
| LMinus                                      (* after a leading - *)
| LDigits (neg : bool) (n : Z) (count : nat)  (* inside an integer *)
| LWord (rest : text) (tok : token).          (* inside null, true, false *)

Inductive lexed : Type :=
| Tokens (ts : list token)
| LexError
| LexUnsupported.

Definition is_json_space (c : ascii) : bool :=
  let n := code c in (n =? 32)%N || (n =? 9)%N || (n =? 10)%N || (n =? 13)%N.

Definition is_digit (c : ascii) : bool := between 48 57 (code c).

Definition digit_value (c : ascii) : Z := Z.of_N (code c) - 48.

(** Longest integer literal the model reads. *)
Definition max_digits : nat := 18.

Definition text_string (acc : text) : string := string_of_list_ascii (rev acc).

(** The double quote. *)
Definition dquote : ascii := ascii_of_N 34.

(** One step from the start state: the new state and the tokens so
    far, or a verdict. *)
Definition lex_start (c : ascii) (out : list token)
  : (lex_state * list token) + lexed :=
  if is_json_space c then inl (LStart, out)
  else if is_digit c then inl (LDigits false (digit_value c) 1, out)
  else if Ascii.eqb c dquote then inl (LString [], out)
  else match c with
       | "["%char => inl (LStart, TLBracket :: out)
       | "]"%char => inl (LStart, TRBracket :: out)
       | "{"%char => inl (LStart, TLBrace :: out)
       | "}"%char => inl (LStart, TRBrace :: out)
       | ","%char => inl (LStart, TComma :: out)
       | ":"%char => inl (LStart, TColon :: out)
       | "-"%char => inl (LMinus, out)
       | "n"%char => inl (LWord (list_ascii_of_string "ull") TNull, out)
       | "t"%char => inl (LWord (list_ascii_of_string "rue") TTrue, out)
       | "f"%char => inl (LWord (list_ascii_of_string "alse") TFalse, out)
       | "N"%char => inr LexUnsupported            (* NaN *)
       | "I"%char => inr LexUnsupported            (* Infinity *)
       | _ => inr LexError
       end.

Definition unescape (c : ascii) : option ascii :=
  if Ascii.eqb c dquote then Some dquote else
  match c with
  | "\"%char => Some "\"%char
  | "/"%char => Some "/"%char
  | "b"%char => Some (ascii_of_N 8)
  | "f"%char => Some (ascii_of_N 12)
  | "n"%char => Some (ascii_of_N 10)
  | "r"%char => Some (ascii_of_N 13)
  | "t"%char => Some (ascii_of_N 9)
  | _ => None
  end.

Definition signed (neg : bool) (n : Z) : Z := if neg then (- n)%Z else n.

Fixpoint lex (st : lex_state) (out : list token) (s : text) : lexed :=
  match s with
  | [] =>
      match st with
      | LStart => Tokens (rev out)
      | LDigits neg n _ => Tokens (rev (TInt (signed neg n) :: out))
      | _ => LexError
      end
  | c :: t =>
      let continue := fun r : (lex_state * list token) + lexed =>
        match r with
        | inl (st', out') => lex st' out' t
        | inr v => v
        end in
      match st with
      | LStart => continue (lex_start c out)
      | LString acc =>
          if Ascii.eqb c dquote then lex LStart (TString (text_string acc) :: out) t
          else if Ascii.eqb c "\" then lex (LEscape acc) out t
          else if (code c <? 32)%N then LexError
          else lex (LString (c :: acc)) out t
      | LEscape acc =>
          match unescape c with
          | Some c' => lex (LString (c' :: acc)) out t
          | None => if Ascii.eqb c "u" then LexUnsupported else LexError
          end
      | LMinus =>
          if is_digit c then lex (LDigits true (digit_value c) 1) out t
          else if Ascii.eqb c "I" then LexUnsupported
          else LexError
      | LDigits neg n count =>
          if is_digit c then
            if (n =? 0)%Z then LexError
            else if Nat.leb max_digits count then LexUnsupported
            else lex (LDigits neg (10 * n + digit_value c) (S count)) out t
          else if Ascii.eqb c "." || Ascii.eqb c "e" || Ascii.eqb c "E"
          then LexUnsupported
          else continue (lex_start c (TInt (signed neg n) :: out))
      | LWord rest tok =>
          match rest with
          | [] => LexError
          | [e] => if Ascii.eqb c e then lex LStart (tok :: out) t else LexError
          | e :: rest' =>
              if Ascii.eqb c e then lex (LWord rest' tok) out t else LexError
          end
      end
  end.

Inductive parsed (A : Type) : Type :=
| POk (a : A) (rest : list token)
| PError
| PFuel.
Arguments POk {A} a rest.
Arguments PError {A}.
Arguments PFuel {A}.

(** Deepest nesting of lists and objects the model reads. *)
Definition max_depth : nat := 64.

(** Recursive descent on the tokens.  The fuel bounds the number of
    steps and [depth] the nesting; running out of either is answered
    [PFuel], never [PError]. *)
Fixpoint parse_value (fuel depth : nat) (ts : list token) : parsed value :=
  match fuel with
  | O => PFuel
  | S fuel' =>
      match ts with
      | TNull :: r => POk JNull r
      | TTrue :: r => POk (JBool true) r
      | TFalse :: r => POk (JBool false) r
      | TInt n :: r => POk (JInt n) r
      | TString s :: r => POk (JStr s) r
      | TLBracket :: TRBracket :: r => POk (JArr []) r
      | TLBracket :: r =>
          match depth with
          | O => PFuel
          | S depth' =>
              match parse_items fuel' depth' r with
              | POk vs r' => POk (JArr vs) r'
              | PError => PError
              | PFuel => PFuel
              end
          end
      | TLBrace :: TRBrace :: r => POk (JObj []) r
      | TLBrace :: r =>
          match depth with
          | O => PFuel
          | S depth' =>
              match parse_members fuel' depth' r with
              | POk fs r' => POk (JObj fs) r'
              | PError => PError
              | PFuel => PFuel
              end
          end
      | _ => PError
      end
  end
with parse_items (fuel depth : nat) (ts : list token) : parsed (list value) :=
  match fuel with
  | O => PFuel
  | S fuel' =>
      match parse_value fuel' depth ts with
      | POk v (TRBracket :: r) => POk [v] r
      | POk v (TComma :: r) =>
          match parse_items fuel' depth r with
          | POk vs r' => POk (v :: vs) r'
          | PError => PError
          | PFuel => PFuel
          end
      | POk _ _ => PError
      | PError => PError
      | PFuel => PFuel
      end
  end
with parse_members (fuel depth : nat) (ts : list token)
  : parsed (list (string * value)) :=
  match fuel with
  | O => PFuel
  | S fuel' =>
      match ts with
      | TString k :: TColon :: r =>
          match parse_value fuel' depth r with
          | POk v (TRBrace :: r') => POk [(k, v)] r'
          | POk v (TComma :: r') =>
              match parse_members fuel' depth r' with
              | POk fs r'' => POk ((k, v) :: fs) r''
              | PError => PError
              | PFuel => PFuel
              end
          | POk _ _ => PError
          | PError => PError
          | PFuel => PFuel
          end
      | _ => PError
      end
  end.

Definition loads_text (s : text) : decoded :=
  match lex LStart [] s with
  | Tokens ts =>
      match parse_value (2 * List.length ts + 2) max_depth ts with
      | POk v [] => Parsed v
      | POk _ _ => DecodeError
      | PError => DecodeError
      | PFuel => Unsupported
      end
  | LexError => DecodeError
  | LexUnsupported => Unsupported
  end.

Definition loads (s : string) : decoded := loads_text (list_ascii_of_string s).

(** Python's view of a decoded value. *)

Definition truthy (v : value) : bool :=
  match v with
  | JNull => false
  | JBool b => b
  | JInt n => negb (n =? 0)%Z
  | JStr s => nonempty s
  | JArr items => match items with [] => false | _ => true end
  | JObj fields => match fields with [] => false | _ => true end
  end.

(** [d.get(k)] on the dict of a JSON object: of two fields with one
    key the later one stays; an absent key gives [None]. *)
Fixpoint dict_get (k : string) (fields : list (string * value)) : value :=
  match fields with
  | [] => JNull
  | (k', v) :: rest =>
      if existsb (fun f => String.eqb (fst f) k) rest then dict_get k rest
      else if String.eqb k' k then v else JNull
  end.

Definition dict_has (k : string) (fields : list (string * value)) : bool :=
  existsb (fun f => String.eqb (fst f) k) fields.

(** The keys of the dict, each once, in order of first insertion. *)
Fixpoint dict_keys (seen : list string) (fields : list (string * value))
  : list string :=
  match fields with
  | [] => []
  | (k, _) :: rest =>
      if existsb (String.eqb k) seen then dict_keys seen rest
      else k :: dict_keys (k :: seen) rest
  end.

End Json.

(** ** The roster file *)

Module Roster.
Import PyStr Json.

Definition at_sign : ascii := "@"%char.

Definition is_comma : ascii -> bool := is_char ","%char.

Definition is_closer (c : ascii) : bool :=
  is_char "}"%char c || is_char "]"%char c.

(** Does [\s*([}\]])] match at the head of the text? *)
Fixpoint closes (s : text) : bool :=
  match s with
  | [] => false
  | c :: t => if isspace c then closes t else is_closer c
  end.

(** [re.sub(r',\s*([}\]])', r'\1', raw)]: a comma, the white space
    after it and a closing brace or bracket are replaced by the brace
    or bracket alone.  The scan goes left to right; [dropping] says that
    a comma was just deleted and the white space after it is still to
    be deleted. *)
Fixpoint strip_commas (dropping : bool) (s : text) : text :=
  match s with
  | [] => []
  | c :: t =>
      if dropping && isspace c then strip_commas true t
      else if is_comma c && closes t then strip_commas true t
      else c :: strip_commas false t
  end.

Definition cleaned (raw : string) : string := lift (strip_commas false) raw.

(** Exceptions the two programs can let escape. *)
Inductive exn : Type :=
| JSONDecodeError
| TypeError
| AttributeError
| KeyError.

(** [for it in data]: the items of a list, the keys of a dict, the
    characters of a string; [TypeError] on anything else. *)
Definition py_iter (data : value) : exn + list value :=
  match data with
  | JArr items => inr items
  | JObj fields => inr (map JStr (dict_keys [] fields))
  | JStr s => inr (map (fun c => JStr (String c EmptyString))
                       (list_ascii_of_string s))
  | _ => inl TypeError
  end.

(** [(v or '').strip()]: [AttributeError] when a truthy [v] is no
    string. *)
Definition or_empty_strip (v : value) : exn + string :=
  if truthy v then
    match v with
    | JStr s => inr (strip s)
    | _ => inl AttributeError
    end
  else inr (strip EmptyString).

(** [v.strip().lstrip("@")] *)
Definition normalize (s : string) : string := lstrip at_sign (strip s).

Definition username_key : string := "username".
Definition name_key : string := "name".
Definition group_key : string := "group".

(** What a loader hands to [main]: the rows, [sys.exit(1)], an escaped
    exception, or nothing when [json.loads] is out of the model. *)
Inductive loaded (row : Type) : Type :=
| Rows (rows : list row)
| NoStudents
| Raised (e : exn)
| OutOfModel.
Arguments Rows {row} rows.
Arguments NoStudents {row}.
Arguments Raised {row} e.
Arguments OutOfModel {row}.

Section Collect.
Context {row : Type}.
(** The body of the loop: nothing, a row, or an exception. *)
Variable visit : value -> exn + option row.

Fixpoint collect (items : list value) : exn + list row :=
  match items with
  | [] => inr []
  | it :: rest =>
      match visit it with
      | inl e => inl e
      | inr o =>
          match collect rest with
          | inl e => inl e
          | inr rows => inr (match o with Some r => r :: rows | None => rows end)
          end
      end
  end.

(** From the decoded data to the result of the loader. *)
Definition rows_of (data : value) : exn + list row :=
  match py_iter data with
  | inl e => inl e
  | inr items => collect items
  end.

Definition load_from (d : decoded) : loaded row :=
  match d with
  | Parsed data =>
      match rows_of data with
      | inl e => Raised e
      | inr [] => NoStudents
      | inr rows => Rows rows
      end
  | DecodeError => Raised JSONDecodeError
  | Unsupported => OutOfModel
  end.

End Collect.

End Roster.

(** ** The [gh] client and the monad of the two programs *)

Module Gh.
Import PyStr Json Roster.

(** The command lines the two programs build. *)
Inductive cmd : Type :=
| Version                                    (* gh --version *)
| AuthStatus                                 (* gh auth status *)
| GetOrg (org : string)                      (* gh api orgs/ORG --jq .login *)
| GetUserId (username : string)              (* gh api users/U --jq .id *)
| GetOrgMembership (org username : string)   (* gh api -X GET orgs/ORG/memberships/U *)
| ListInvitations (org user : string)        (* gh api orgs/ORG/invitations?per_page=100 --jq ... *)
| PostInvitation (org : string) (invitee_id : Z) (role : string)
| GetTeam (org slug : string)                (* gh api orgs/ORG/teams/SLUG *)
| PostTeam (org name privacy description : string)
| GetTeamMembership (org slug username : string)
| PutTeamMembership (org slug username role : string).

(** The commands that write to the organization: [--method POST] and
    [--method PUT]. *)
Definition mutating (c : cmd) : bool :=
  match c with
  | PostInvitation _ _ _ | PostTeam _ _ _ _ | PutTeamMembership _ _ _ _ => true
  | _ => false
  end.

(** Of a [CompletedProcess] the programs read the return code and the
    standard output (the standard error is only printed). *)
Record reply : Type := { returncode : Z; stdout : string }.

Definition succeeded (r : reply) : bool := (returncode r =? 0)%Z.

(** The remote organization behind [gh]: a state, and for every
    command a reply and the state after it. *)
Definition remote (St : Type) : Type := St -> cmd -> reply * St.

(** The classification lines the programs print. *)
Inductive note : Type :=
(* invite_to_org.py *)
| AlreadyMember (u : string)
| PendingInvite (u : string)
| WouldInvite (u : string)
| CannotResolve (u : string)
| Invited
| InviteFailed
| Summary (ok sk fail : Z)
(* manage_groups.py *)
| NotAuthed
| OrgNotAccessible
| TeamExists (slug : string)
| WouldCreateTeam (slug : string)
| CreatedTeam (created_slug : value)
| CreateTeamFailed (name : string)
| InstructorAlready (u : string)
| WouldPromote (u : string)
| Promoted (u : string) (ok : bool)
| WouldAddInstructor (u : string)
| InstructorAdded (u : string) (ok : bool)
| StudentAlready (u : string) (role : string)
| WouldAddMember (u : string)
| MemberAdded (u : string) (ok : bool)
| AddToTeamFailed (slug u : string)
| AllDone
(* both *)
| NoStudentsFound.

Inductive event : Type :=
| Call (c : cmd) (r : reply)
| Print (n : note).

(** How a run ends early: [sys.exit(code)], an escaped exception, or a
    text [json.loads] is not modelled on. *)
Inductive abort : Type :=
| SysExit (code : Z)
| Uncaught (e : exn)
| Unmodelled.

Inductive result (A : Type) : Type :=
| Done (a : A)
| Stop (why : abort).
Arguments Done {A} a.
Arguments Stop {A} why.

Section Monad.
Context {St : Type}.

(** A computation reads and changes the remote state, and appends to
    the trace. *)
Definition M (A : Type) : Type := St -> result A * St * list event.

Definition ret {A} (a : A) : M A := fun st => (Done a, st, []).

Definition bind {A B} (m : M A) (f : A -> M B) : M B :=
  fun st =>
    match m st with
    | (Done a, st', tr) =>
        match f a st' with
        | (r, st'', tr') => (r, st'', tr ++ tr')
        end
    | (Stop why, st', tr) => (Stop why, st', tr)
    end.

Definition stop {A} (why : abort) : M A := fun st => (Stop why, st, []).

Definition print (n : note) : M unit := fun st => (Done tt, st, [Print n]).

(** [subprocess.run(cmd, text=True, capture_output=True)] *)
Definition call (gh : remote St) (c : cmd) : M reply :=
  fun st => match gh st c with (r, st') => (Done r, st', [Call c r]) end.

(** [for x in xs: body(x)] *)
Fixpoint for_each {A} (xs : list A) (body : A -> M unit) : M unit :=
  match xs with
  | [] => ret tt
  | x :: rest => bind (body x) (fun _ => for_each rest body)
  end.

(** A loop that carries local variables from one turn to the next. *)
Fixpoint for_fold {A B} (xs : list A) (body : B -> A -> M B) (b : B) : M B :=
  match xs with
  | [] => ret b
  | x :: rest => bind (body b x) (for_fold rest body)
  end.

End Monad.

Notation "x <- m ;; k" := (bind m (fun x => k))
  (at level 61, m at next level, right associativity).
Notation "m ;;; k" := (bind m (fun _ => k))
  (at level 61, right associativity).

(** The status the process ends with, as Python has it: 0 when [main]
    returns, the argument of [sys.exit], 1 for an exception nobody
    caught.  The shell sees this number modulo 256. *)
Definition exit_code {A} (r : result A) : option Z :=
  match r with
  | Done _ => Some 0%Z
  | Stop (SysExit code) => Some code
  | Stop (Uncaught _) => Some 1%Z
  | Stop Unmodelled => None
  end.

(** The calls of a trace. *)
Fixpoint calls (tr : list event) : list cmd :=
  match tr with
  | [] => []
  | Call c _ :: rest => c :: calls rest
  | Print _ :: rest => calls rest
  end.

Fixpoint notes (tr : list event) : list note :=
  match tr with
  | [] => []
  | Call _ _ :: rest => notes rest
  | Print n :: rest => n :: notes rest
  end.

(** Lifting the result of a loader: [sys.exit(1)] after its message. *)
Definition of_loaded {St row} (l : loaded row) : @M St (list row) :=
  match l with
  | Rows rows => ret rows
  | NoStudents => print NoStudentsFound ;;; stop (SysExit 1)
  | Raised e => stop (Uncaught e)
  | OutOfModel => stop Unmodelled
  end.

(** *** Vocabulary for the properties of runs *)

Section Observe.
Context {St : Type}.

Definition trace_of {A} (m : @M St A) (st : St) : list event := snd (m st).
Definition state_of {A} (m : @M St A) (st : St) : St := snd (fst (m st)).
Definition result_of {A} (m : @M St A) (st : St) : result A := fst (fst (m st)).

(** A property of every trace of a computation, whatever the state it
    starts from. *)
Definition always (P : list event -> Prop) {A} (m : @M St A) : Prop :=
  forall st, P (trace_of m st).

(** A computation that cannot stop early. *)
Definition completes {A} (m : @M St A) : Prop :=
  forall st, exists a, result_of m st = Done a.

End Observe.

(** Event-wise properties. *)
Definition each (Q : event -> Prop) (tr : list event) : Prop := Forall Q tr.

End Gh.

(** ** invite_to_org.py *)

Module InviteToOrg.
Import PyStr Json Roster Gh.

Record student : Type := { name : string; username : string }.

(** The body of the loop of [load_students]. *)
Definition visit (it : value) : exn + option student :=
  match it with
  | JObj fields =>
      if truthy (dict_get username_key fields) then
        match or_empty_strip (dict_get name_key fields) with
        | inl e => inl e
        | inr n =>
            match dict_get username_key fields with
            | JStr u => inr (Some {| name := n; username := normalize u |})
            | _ => inl AttributeError
            end
        end
      else inr None
  | _ => inr None
  end.

Definition load_students (raw : string) : loaded student :=
  load_from visit (loads (cleaned raw)).

(** [int(s)] of a stripped [s]: an optional sign, then digits, single
    underscores allowed between two digits; [None] stands for the
    [ValueError], also raised beyond 4300 digits. *)
Fixpoint int_digits (acc : Z) (count : nat) (after_underscore : bool) (s : text)
  : option Z :=
  match s with
  | [] => if after_underscore then None
          else if Nat.leb count 4300 then Some acc else None
  | c :: t =>
      if is_digit c then int_digits (10 * acc + digit_value c) (S count) false t
      else if is_char "_"%char c && negb after_underscore
           then int_digits acc count true t
           else None
  end.

Definition int_unsigned (s : text) : option Z :=
  match s with
  | c :: t => if is_digit c then int_digits (digit_value c) 1 false t else None
  | [] => None
  end.

Definition py_int (s : string) : option Z :=
  match list_ascii_of_string s with
  | c :: t =>
      if is_char "-"%char c then option_map Z.opp (int_unsigned t)
      else if is_char "+"%char c then int_unsigned t
      else int_unsigned (c :: t)
  | [] => None
  end.

(** The choices of [--role]. *)
Inductive org_role : Type := direct_member | admin.

Definition role_name (r : org_role) : string :=
  match r with
  | direct_member => "direct_member"
  | admin => "admin"
  end.

(** The parsed command line; [file] is the text of the roster file. *)
Record args : Type :=
  { org : string; file : string; role : org_role; dry_run : bool }.

(** The counters [ok], [sk], [fail] of [main]. *)
Record tally : Type := { ok : Z; sk : Z; fail : Z }.

Definition tally0 : tally := {| ok := 0; sk := 0; fail := 0 |}.
Definition count_ok (t : tally) : tally :=
  {| ok := ok t + 1; sk := sk t; fail := fail t |}.
Definition count_sk (t : tally) : tally :=
  {| ok := ok t; sk := sk t + 1; fail := fail t |}.
Definition count_fail (t : tally) : tally :=
  {| ok := ok t; sk := sk t; fail := fail t + 1 |}.

(** [seen=set(); students=[s for s in students if not (s["username"]
    in seen or seen.add(s["username"]))]] *)
Fixpoint dedupe (seen : list string) (students : list student) : list student :=
  match students with
  | [] => []
  | s :: rest =>
      if existsb (String.eqb (username s)) seen then dedupe seen rest
      else s :: dedupe (username s :: seen) rest
  end.

Section Program.
Context {St : Type}.
Variable gh : remote St.

(** [run(cmd, desc=...)] with [check=True] *)
Definition run (c : cmd) : M reply :=
  cp <- call gh c ;;
  if succeeded cp then ret cp else stop (SysExit (returncode cp)).

Definition gh_prechecks (org : string) : M unit :=
  run Version ;;; run AuthStatus ;;; run (GetOrg org) ;;; ret tt.

Definition resolve_uid (username : string) : M (option Z) :=
  cp <- call gh (GetUserId username) ;;
  ret (if succeeded cp then py_int (strip (stdout cp)) else None).

Definition is_member (org username : string) : M bool :=
  cp <- call gh (GetOrgMembership org username) ;;
  ret (succeeded cp).

Definition has_pending (org user : string) : M bool :=
  cp <- call gh (ListInvitations org user) ;;
  ret (nonempty (strip (stdout cp))).

Definition invite (org : string) (uid : Z) (role : org_role) : M bool :=
  cp <- call gh (PostInvitation org uid (role_name role)) ;;
  if succeeded cp then print Invited ;;; ret true
  else print InviteFailed ;;; ret false.

(** One turn of the loop of [main]. *)
Definition turn (a : args) (t : tally) (s : student) : M tally :=
  let u := username s in
  member <- (if negb (contains_char at_sign u) then is_member (org a) u
             else ret false) ;;
  if member then print (AlreadyMember u) ;;; ret (count_sk t)
  else
    pending <- has_pending (org a) u ;;
    if pending then print (PendingInvite u) ;;; ret (count_sk t)
    else if dry_run a then print (WouldInvite u) ;;; ret (count_ok t)
    else
      uid <- resolve_uid u ;;
      match uid with
      | None => print (CannotResolve u) ;;; ret (count_fail t)
      | Some id =>
          invited <- invite (org a) id (role a) ;;
          if invited then ret (count_ok t) else ret (count_fail t)
      end.

(** The loop of [main] over the students left after the duplicates
    are gone. *)
Definition reconcile (a : args) (students : list student) : M tally :=
  t <- for_fold students (turn a) tally0 ;;
  print (Summary (ok t) (sk t) (fail t)) ;;; ret t.

Definition main (a : args) : M tally :=
  gh_prechecks (org a) ;;;
  students <- of_loaded (load_students (file a)) ;;
  reconcile a (dedupe [] students).

End Program.

End InviteToOrg.

(** ** manage_groups.py *)

Module ManageGroups.
Import PyStr Json Roster Gh Slug.

Record student : Type :=
  { name : string; username : string; group : string }.

(** The body of the loop of [load_students]. *)
Definition visit (it : value) : exn + option student :=
  match it with
  | JObj fields =>
      match or_empty_strip (dict_get username_key fields) with
      | inl e => inl e
      | inr u0 =>
          let u := lstrip at_sign u0 in
          match or_empty_strip (dict_get group_key fields) with
          | inl e => inl e
          | inr g =>
              match or_empty_strip (dict_get name_key fields) with
              | inl e => inl e
              | inr n =>
                  if nonempty u && nonempty g
                  then inr (Some {| name := n; username := u; group := g |})
                  else inr None
              end
          end
      end
  | _ => inr None
  end.

Definition load_students (raw : string) : loaded student :=
  load_from visit (loads (cleaned raw)).

(** The choices of [--team-privacy]. *)
Inductive team_privacy : Type := closed | secret.

Definition privacy_name (p : team_privacy) : string :=
  match p with
  | closed => "closed"
  | secret => "secret"
  end.

Definition member_role : string := "member".
Definition maintainer_role : string := "maintainer".

Record args : Type :=
  { org : string; file : string; instructors : string;
    privacy : team_privacy; dry_run : bool }.

(** [groups.setdefault(g, []).append(u)] on a dict kept in insertion
    order. *)
Fixpoint setdefault_append (g u : string) (groups : list (string * list string))
  : list (string * list string) :=
  match groups with
  | [] => [(g, [u])]
  | (g', us) :: rest =>
      if String.eqb g' g then (g', us ++ [u]) :: rest
      else (g', us) :: setdefault_append g u rest
  end.

Definition build_groups (students : list student) : list (string * list string) :=
  fold_left (fun groups s => setdefault_append (group s) (username s) groups)
            students [].

(** [sorted(groups.items())]: the keys are all different, so the order
    is the order of the group names. *)
Fixpoint insert_item (x : string * list string) (l : list (string * list string))
  : list (string * list string) :=
  match l with
  | [] => [x]
  | y :: rest =>
      if String.leb (fst x) (fst y) then x :: l else y :: insert_item x rest
  end.

Definition sorted_items (l : list (string * list string))
  : list (string * list string) :=
  fold_right insert_item [] l.

(** [s.split(",")] *)
Fixpoint split_on (d : ascii) (s : text) : list text :=
  match s with
  | [] => [[]]
  | c :: t =>
      if is_char d c then [] :: split_on d t
      else match split_on d t with
           | w :: ws => (c :: w) :: ws
           | [] => [[c]]
           end
  end.

Definition split (d : ascii) (s : string) : list string :=
  map string_of_list_ascii (split_on d (list_ascii_of_string s)).

(** [[u.strip().lstrip("@") for u in s.split(",") if u.strip()]] *)
Definition parse_instructors (s : string) : list string :=
  map normalize (filter (fun u => nonempty (strip u)) (split ","%char s)).

Definition slug_key : string := "slug".

Section Program.
Context {St : Type}.
Variable gh : remote St.

Definition gh_ok (org : string) : M unit :=
  cp <- call gh AuthStatus ;;
  if negb (succeeded cp) then print NotAuthed ;;; stop (SysExit 1)
  else
    cp <- call gh (GetOrg org) ;;
    if negb (succeeded cp) then print OrgNotAccessible ;;; stop (SysExit 1)
    else ret tt.

Definition team_exists (org slug : string) : M bool :=
  cp <- call gh (GetTeam org slug) ;;
  ret (succeeded cp).

(** [data["slug"]] of whatever the reply decodes to. *)
Definition subscript_slug (d : decoded) : @M St value :=
  match d with
  | Parsed (JObj fields) =>
      if dict_has slug_key fields then ret (dict_get slug_key fields)
      else stop (Uncaught KeyError)
  | Parsed _ => stop (Uncaught TypeError)
  | DecodeError => stop (Uncaught JSONDecodeError)
  | Unsupported => stop Unmodelled
  end.

Definition create_team (org name : string) (privacy : team_privacy)
  (description : string) : M value :=
  cp <- call gh (PostTeam org name (privacy_name privacy) description) ;;
  if negb (succeeded cp) then print (CreateTeamFailed name) ;;; stop (SysExit 1)
  else
    subscript_slug (if nonempty (strip (stdout cp)) then loads (stdout cp)
                    else Parsed (JObj [])).

Definition team_membership (org slug username : string) : M (option string) :=
  cp <- call gh (GetTeamMembership org slug username) ;;
  let out := strip (stdout cp) in
  ret (if succeeded cp
          && (String.eqb out member_role || String.eqb out maintainer_role)
       then Some out else None).

Definition add_to_team (org slug username role : string) : M bool :=
  cp <- call gh (PutTeamMembership org slug username role) ;;
  if succeeded cp then ret true
  else print (AddToTeamFailed slug username) ;;; ret false.

Definition is_role (r : string) (now : option string) : bool :=
  match now with
  | Some r' => String.eqb r' r
  | None => false
  end.

(** The body of [for u in instr]. *)
Definition ensure_instructor (a : args) (team_slug u : string) : M unit :=
  role_now <- team_membership (org a) team_slug u ;;
  if is_role maintainer_role role_now then print (InstructorAlready u)
  else if is_role member_role role_now then
    if dry_run a then print (WouldPromote u)
    else
      ok <- add_to_team (org a) team_slug u maintainer_role ;;
      print (Promoted u ok)
  else
    if dry_run a then print (WouldAddInstructor u)
    else
      ok <- add_to_team (org a) team_slug u maintainer_role ;;
      print (InstructorAdded u ok).

(** The body of [for u in members]. *)
Definition ensure_student (a : args) (team_slug u : string) : M unit :=
  role_now <- team_membership (org a) team_slug u ;;
  match role_now with
  | Some r =>
      if String.eqb r member_role || String.eqb r maintainer_role
      then print (StudentAlready u r)
      else
        if dry_run a then print (WouldAddMember u)
        else
          ok <- add_to_team (org a) team_slug u member_role ;;
          print (MemberAdded u ok)
  | None =>
      if dry_run a then print (WouldAddMember u)
      else
        ok <- add_to_team (org a) team_slug u member_role ;;
        print (MemberAdded u ok)
  end.

Definition ensure_team (a : args) (team_name team_slug : string) : M unit :=
  e <- team_exists (org a) team_slug ;;
  if e then print (TeamExists team_slug)
  else if dry_run a then print (WouldCreateTeam team_slug)
  else
    created_slug <- create_team (org a) team_name (privacy a) EmptyString ;;
    print (CreatedTeam created_slug).

(** One turn of the loop of [main] over the sorted groups. *)
Definition turn (a : args) (instr : list string)
  (item : string * list string) : M unit :=
  let team_name := fst item in
  let team_slug := slugify (fst item) in
  ensure_team a team_name team_slug ;;;
  for_each instr (ensure_instructor a team_slug) ;;;
  for_each (snd item) (ensure_student a team_slug).

Definition reconcile (a : args) (students : list student) : M unit :=
  let groups := build_groups students in
  let instr := parse_instructors (instructors a) in
  for_each (sorted_items groups) (turn a instr) ;;;
  print AllDone.

Definition main (a : args) : M unit :=
  gh_ok (org a) ;;;
  students <- of_loaded (load_students (file a)) ;;
  reconcile a students.

End Program.

End ManageGroups.

(** ** Vocabulary of the properties *)

Module Props.
Import PyStr Json Roster Gh.

Definition is_at : ascii -> bool := is_char at_sign.

Definition starts_with_at (s : string) : bool :=
  starts_with is_at (list_ascii_of_string s).



(** The commands of [gh_prechecks] and [gh_ok]. *)
Definition is_precheck (c : cmd) : bool :=
  match c with
  | Version | AuthStatus | GetOrg _ => true
  | _ => false
  end.

(** The members [main] of manage_groups.py finds for a group. *)
Definition members_of (g : string) (groups : list (string * list string))
  : list string :=
  match find (fun item => String.eqb (fst item) g) groups with
  | Some item => snd item
  | None => []
  end.

(** An event that is no write to the organization. *)
Definition harmless (e : event) : Prop :=
  match e with
  | Call c _ => mutating c = false
  | Print _ => True
  end.

(** An event that belongs to the checks before the roster is read. *)
Definition preliminary (e : event) : Prop :=
  match e with
  | Call c _ => is_precheck c = true
  | Print _ => True
  end.

(** The team slug a command puts in its path, if any. *)
Definition path_slug (c : cmd) : option string :=
  match c with
  | GetTeam _ slug | GetTeamMembership _ slug _ | PutTeamMembership _ slug _ _ =>
      Some slug
  | _ => None
  end.

Definition slug_in_path_wf (e : event) : Prop :=
  match e with
  | Call c _ =>
      match path_slug c with
      | Some slug => Slug.slug_wf slug = true
      | None => True
      end
  | Print _ => True
  end.

(** *** Traces that follow the remote *)

(** The replies of the trace are the replies of the remote, asked in
    this order from [st], and [st'] is the state left. *)
Fixpoint genuine {St} (gh : remote St) (st : St) (tr : list event) (st' : St)
  : Prop :=
  match tr with
  | [] => st' = st
  | Print _ :: rest => genuine gh st rest st'
  | Call c r :: rest =>
      fst (gh st c) = r /\ genuine gh (snd (gh st c)) rest st'
  end.

Definition faithful {St A} (gh : remote St) (m : @M St A) : Prop :=
  forall st, genuine gh st (trace_of m st) (state_of m st).

(** *** The team workflow *)

(** The reply to a membership query says: in the team, as maintainer. *)
Definition says_maintainer (q : reply) : bool :=
  succeeded q && String.eqb (strip (stdout q)) ManageGroups.maintainer_role.

(** Every membership write comes right after the query of the same
    membership, and that query did not answer maintainer. *)
Definition writes_guarded (tr : list event) : Prop :=
  forall pre org slug u role r post,
    tr = pre ++ Call (PutTeamMembership org slug u role) r :: post ->
    exists pre' q,
      pre = pre' ++ [Call (GetTeamMembership org slug u) q]
      /\ says_maintainer q = false.

(** The same, read from left to right; [prev] is the event before. *)
Fixpoint guarded (prev : option event) (tr : list event) : Prop :=
  match tr with
  | [] => True
  | e :: rest =>
      match e with
      | Call (PutTeamMembership org slug u _) _ =>
          match prev with
          | Some (Call (GetTeamMembership org' slug' u') q) =>
              org' = org /\ slug' = slug /\ u' = u /\ says_maintainer q = false
          | _ => False
          end
      | _ => True
      end
      /\ guarded (Some e) rest
  end.

End Props.

(** ** The invitation workflow as the spec words it *)

Module InviteSpec.
Import PyStr Json Roster Gh InviteToOrg.

Inductive outcome : Type := Skipped | CountedDry | InvitedNow | Failed.

Definition bump (t : tally) (o : outcome) : tally :=
  match o with
  | Skipped => count_sk t
  | CountedDry | InvitedNow => count_ok t
  | Failed => count_fail t
  end.

Definition says_pending (r : reply) : bool := nonempty (strip (stdout r)).

Definition resolved (r : reply) : option Z :=
  if succeeded r then py_int (strip (stdout r)) else None.

(** Step 1 did not skip: the identifier holds an [@] and nothing was
    asked, or the membership query said no. *)
Inductive not_a_member (a : args) (u : string) : list event -> Prop :=
| NM_email :
    contains_char at_sign u = true -> not_a_member a u []
| NM_asked r :
    contains_char at_sign u = false -> succeeded r = false ->
    not_a_member a u [Call (GetOrgMembership (org a) u) r].

(** The six ways through one person, in the order of the spec. *)
Inductive decided (a : args) (u : string) : list event -> outcome -> Prop :=
| D_member r :
    contains_char at_sign u = false -> succeeded r = true ->
    decided a u [Call (GetOrgMembership (org a) u) r; Print (AlreadyMember u)]
            Skipped
| D_pending pre r :
    not_a_member a u pre -> says_pending r = true ->
    decided a u
      (pre ++ [Call (ListInvitations (org a) u) r; Print (PendingInvite u)])
      Skipped
| D_dry pre r :
    not_a_member a u pre -> says_pending r = false -> dry_run a = true ->
    decided a u
      (pre ++ [Call (ListInvitations (org a) u) r; Print (WouldInvite u)])
      CountedDry
| D_unresolved pre r r' :
    not_a_member a u pre -> says_pending r = false -> dry_run a = false ->
    resolved r' = None ->
    decided a u
      (pre ++ [Call (ListInvitations (org a) u) r; Call (GetUserId u) r';
               Print (CannotResolve u)])
      Failed
| D_invited pre r r' id r'' :
    not_a_member a u pre -> says_pending r = false -> dry_run a = false ->
    resolved r' = Some id -> succeeded r'' = true ->
    decided a u
      (pre ++ [Call (ListInvitations (org a) u) r; Call (GetUserId u) r';
               Call (PostInvitation (org a) id (role_name (role a))) r'';
               Print Invited])
      InvitedNow
| D_refused pre r r' id r'' :
    not_a_member a u pre -> says_pending r = false -> dry_run a = false ->
    resolved r' = Some id -> succeeded r'' = false ->
    decided a u
      (pre ++ [Call (ListInvitations (org a) u) r; Call (GetUserId u) r';
               Call (PostInvitation (org a) id (role_name (role a))) r'';
               Print InviteFailed])
      Failed.

(** The lines [DRY would invite] of a trace. *)
Definition is_would_invite (e : event) : bool :=
  match e with
  | Print (WouldInvite _) => true
  | _ => false
  end.

Definition would_invite_count (tr : list event) : Z :=
  Z.of_nat (List.length (filter is_would_invite tr)).

(** One decision after the other, in the order of the list. *)
Inductive decided_all (a : args)
  : list student -> list event -> list outcome -> Prop :=
| DA_nil : decided_all a [] [] []
| DA_cons s rest tr1 tr2 o os :
    decided a (username s) tr1 o -> decided_all a rest tr2 os ->
    decided_all a (s :: rest) (tr1 ++ tr2) (o :: os).

End InviteSpec.

(** ** Rosters and organizations to try the programs on *)

Module Scenario.
Import PyStr Json Roster Gh.

(** A JSON text written with single quotes for the double ones. *)
Definition quoted (s : string) : string :=
  lift (map (fun c => if Ascii.eqb c "'"%char then dquote else c)) s.

Definition roster_two_alices : string :=
  quoted "[{'username':'alice','group':'A'},{'username':'bob','group':'A'},{'username':'alice','group':'A'},]".

Definition roster_empty : string := "[]".

Definition roster_sigils : string :=
  quoted "[{'username':'@'},{'username':' @@bob '}]".

Definition roster_comma_in_string : string :=
  quoted "[{'username':'a, ]b','group':'g,}'}]".

End Scenario.

(** ** What the two loops rely on from the remote *)

Module Contract.
Import PyStr Json Roster Gh Props InviteSpec.

Section Remote.
Context {St : Type}.
Variable gh : remote St.
Variable org : string.

(** What the queries of the two programs answer in a state. *)
Definition member_now (st : St) (u : string) : bool :=
  succeeded (fst (gh st (GetOrgMembership org u))).

Definition pending_now (st : St) (u : string) : bool :=
  says_pending (fst (gh st (ListInvitations org u))).

Definition uid_now (st : St) (u : string) : option Z :=
  resolved (fst (gh st (GetUserId u))).

Definition exists_now (st : St) (slug : string) : bool :=
  succeeded (fst (gh st (GetTeam org slug))).

Definition role_now (st : St) (slug u : string) : option string :=
  let cp := fst (gh st (GetTeamMembership org slug u)) in
  let out := strip (stdout cp) in
  if succeeded cp
     && (String.eqb out ManageGroups.member_role
         || String.eqb out ManageGroups.maintainer_role)
  then Some out else None.

(** The invitation loop skips this person. *)
Definition settled (st : St) (u : string) : bool :=
  (negb (contains_char at_sign u) && member_now st u) || pending_now st u.

(** The team loop leaves this membership alone: the student pass when
    the person is in the team, the instructor pass when the person is a
    maintainer of it. *)
Definition in_team (now : option string) : bool :=
  match now with
  | Some r => String.eqb r ManageGroups.member_role
              || String.eqb r ManageGroups.maintainer_role
  | None => false
  end.

Definition met (st : St) (slug u : string) (as_maintainer : bool) : bool :=
  if as_maintainer
  then ManageGroups.is_role ManageGroups.maintainer_role (role_now st slug u)
  else in_team (role_now st slug u).

(** Queries change nothing. *)
Definition reads_keep_state : Prop :=
  forall st c, mutating c = false -> snd (gh st c) = st.

(** The invitations of a remote that keeps what it is told: an
    invitation that succeeded is pending afterwards for the identifier
    that resolved to the invited id, and no invitation unsettles
    anybody. *)
Record invitations_kept : Prop :=
  { ik_reads : reads_keep_state;
    ik_pending :
      forall st u id role,
        uid_now st u = Some id ->
        succeeded (fst (gh st (PostInvitation org id role))) = true ->
        pending_now (snd (gh st (PostInvitation org id role))) u = true;
    ik_stable :
      forall st id role v,
        settled st v = true ->
        settled (snd (gh st (PostInvitation org id role))) v = true }.

(** The teams of a remote that keeps what it is told: a team created
    under a name is found under the slug of the name, a team found
    stays found, a membership written is the membership read, and a
    write leaves the other memberships as they are. *)
Record teams_kept : Prop :=
  { tk_reads : reads_keep_state;
    tk_created :
      forall st name privacy description,
        succeeded (fst (gh st (PostTeam org name privacy description))) = true ->
        exists_now (snd (gh st (PostTeam org name privacy description)))
                   (Slug.slugify name) = true;
    tk_found :
      forall st c slug,
        exists_now st slug = true -> exists_now (snd (gh st c)) slug = true;
    tk_written :
      forall st slug u role,
        role = ManageGroups.member_role \/ role = ManageGroups.maintainer_role ->
        succeeded (fst (gh st (PutTeamMembership org slug u role))) = true ->
        role_now (snd (gh st (PutTeamMembership org slug u role))) slug u
        = Some role;
    tk_others :
      forall st slug u role slug' u' r,
        (slug', u') <> (slug, u) ->
        role_now st slug' u' = Some r ->
        role_now (snd (gh st (PutTeamMembership org slug u role))) slug' u'
        = Some r;
    tk_new_team :
      forall st name privacy description slug u r,
        role_now st slug u = Some r ->
        role_now (snd (gh st (PostTeam org name privacy description))) slug u
        = Some r }.

(** From [st] to [st'] nothing the team loop relies on is lost. *)
Definition keeps (st st' : St) : Prop :=
  (forall slug u m, met st slug u m = true -> met st' slug u m = true)
  /\ (forall slug, exists_now st slug = true -> exists_now st' slug = true).

(** The team of a group is there, with its instructors as maintainers
    and its students in it. *)
Definition team_in_place (instr : list string) (st : St)
  (item : string * list string) : Prop :=
  exists_now st (Slug.slugify (fst item)) = true
  /\ (forall u, In u instr -> met st (Slug.slugify (fst item)) u true = true)
  /\ (forall u, In u (snd item) ->
                 met st (Slug.slugify (fst item)) u false = true).

End Remote.

(** The lines of a run that found everything in place. *)
Definition skip_note (e : event) : Prop :=
  match e with
  | Print (AlreadyMember _) | Print (PendingInvite _) | Print (Summary _ _ _) =>
      True
  | Print _ => False
  | Call _ _ => True
  end.

Definition in_place_note (e : event) : Prop :=
  match e with
  | Print (TeamExists _) | Print (InstructorAlready _)
  | Print (StudentAlready _ _) | Print AllDone => True
  | Print _ => False
  | Call _ _ => True
  end.

(** No membership write of the trace failed. *)
Definition write_accepted (e : event) : Prop :=
  match e with
  | Call (PutTeamMembership _ _ _ _) r => succeeded r = true
  | _ => True
  end.

End Contract.

(** ** An organization in memory *)

Module FakeOrg.
Import PyStr Json Roster Gh.
Local Open Scope string_scope.

Record state : Type :=
  { users : list (string * string);          (* login, id as [gh] prints it *)
    members : list string;                   (* logins of the members *)
    invited : list string;                   (* logins with a pending invitation *)
    teams : list string;                     (* slugs of the teams *)
    roles : list (string * string * string); (* slug, login, role; first wins *)
    writable : bool }.                       (* the token may write *)

Definition accepted (out : string) : reply := {| returncode := 0; stdout := out |}.
Definition refused : reply := {| returncode := 1; stdout := EmptyString |}.

Definition has (x : string) (l : list string) : bool := existsb (String.eqb x) l.

Definition id_text (st : state) (login : string) : option string :=
  option_map snd (find (fun e => String.eqb (fst e) login) (users st)).

Definition logins_of (st : state) (id : Z) : list string :=
  map fst
    (filter (fun e => match InviteToOrg.py_int (strip (snd e)) with
                      | Some n => (n =? id)%Z
                      | None => false
                      end) (users st)).

Definition role_of (st : state) (slug login : string) : option string :=
  option_map snd
    (find (fun e => String.eqb (fst (fst e)) slug && String.eqb (snd (fst e)) login)
          (roles st)).

Definition slug_json (slug : string) : string :=
  Scenario.quoted "{'slug':'" ++ slug ++ Scenario.quoted "'}".

Definition gh : remote state :=
  fun st c =>
    match c with
    | Version | AuthStatus | GetOrg _ => (accepted EmptyString, st)
    | GetUserId u =>
        match id_text st u with
        | Some txt => (accepted txt, st)
        | None => (refused, st)
        end
    | GetOrgMembership _ u =>
        (if has u (members st) then accepted EmptyString else refused, st)
    | ListInvitations _ u =>
        (accepted (if has u (invited st) then "1" else EmptyString), st)
    | PostInvitation _ id _ =>
        match writable st, logins_of st id with
        | true, (_ :: _) as logins =>
            (accepted EmptyString,
             {| users := users st; members := members st;
                invited := (logins ++ invited st)%list; teams := teams st;
                roles := roles st; writable := writable st |})
        | _, _ => (refused, st)
        end
    | GetTeam _ slug =>
        (if has slug (teams st) then accepted EmptyString else refused, st)
    | PostTeam _ name _ _ =>
        if writable st then
          (accepted (slug_json (Slug.slugify name)),
           {| users := users st; members := members st;
              invited := invited st; teams := Slug.slugify name :: teams st;
              roles := roles st; writable := writable st |})
        else (refused, st)
    | GetTeamMembership _ slug u =>
        match role_of st slug u with
        | Some r => (accepted r, st)
        | None => (refused, st)
        end
    | PutTeamMembership _ slug u role =>
        if writable st then
          (accepted EmptyString,
           {| users := users st; members := members st;
              invited := invited st; teams := teams st;
              roles := (slug, u, role) :: roles st; writable := writable st |})
        else (refused, st)
    end.

(** A course organization before the first run: two students known
    to the platform, nobody invited, no team. *)
Definition course : state :=
  {| users := [("alice", "101"); ("bob", "102"); ("prof", "7")];
     members := ["prof"]; invited := []; teams := []; roles := [];
     writable := true |}.

(** The same organization seen through a token that may not write. *)
Definition read_only : state :=
  {| users := users course; members := members course;
     invited := []; teams := []; roles := []; writable := false |}.

(** An organization where the team of group A exists and its
    instructor is a maintainer. *)
Definition staffed : state :=
  {| users := users course; members := members course; invited := [];
     teams := ["a"]; roles := [("a", "prof", "maintainer")];
     writable := true |}.

Definition invite_args (file : string) (dry : bool) : InviteToOrg.args :=
  {| InviteToOrg.org := "DS-223"; InviteToOrg.file := file;
     InviteToOrg.role := InviteToOrg.direct_member;
     InviteToOrg.dry_run := dry |}.

Definition manage_args (file : string) (dry : bool) : ManageGroups.args :=
  {| ManageGroups.org := "DS-223"; ManageGroups.file := file;
     ManageGroups.instructors := "prof";
     ManageGroups.privacy := ManageGroups.closed;
     ManageGroups.dry_run := dry |}.

Definition alice_and_bob : list InviteToOrg.student :=
  [ {| InviteToOrg.name := "Alice"; InviteToOrg.username := "alice" |};
    {| InviteToOrg.name := EmptyString; InviteToOrg.username := "bob" |} ].

Definition group_a : list ManageGroups.student :=
  [ {| ManageGroups.name := "Alice"; ManageGroups.username := "alice";
       ManageGroups.group := "A" |};
    {| ManageGroups.name := EmptyString; ManageGroups.username := "bob";
       ManageGroups.group := "A" |} ].

End FakeOrg.

From Stdlib Require Import Sorted Permutation.

(** ** Further vocabulary: counts, orders and scopes of calls *)

Module More.
Import PyStr Json Roster Gh Props.

(** The number of calls of a trace that write. *)
Definition writes (tr : list event) : Z :=
  Z.of_nat (List.length (filter mutating (calls tr))).

(** The number of calls of a trace that write and were accepted. *)
Definition accepted_write (e : event) : bool :=
  match e with
  | Call c r => mutating c && succeeded r
  | Print _ => false
  end.

Definition accepted_writes (tr : list event) : Z :=
  Z.of_nat (List.length (filter accepted_write tr)).

(** The identifiers whose membership of the organization, whose
    pending invitations, and whose user ids, a trace asks for, in the
    order of the trace. *)
Fixpoint membership_queries (tr : list event) : list string :=
  match tr with
  | [] => []
  | Call (GetOrgMembership _ u) _ :: rest => u :: membership_queries rest
  | _ :: rest => membership_queries rest
  end.

Fixpoint pending_queries (tr : list event) : list string :=
  match tr with
  | [] => []
  | Call (ListInvitations _ u) _ :: rest => u :: pending_queries rest
  | _ :: rest => pending_queries rest
  end.

Fixpoint uid_queries (tr : list event) : list string :=
  match tr with
  | [] => []
  | Call (GetUserId u) _ :: rest => u :: uid_queries rest
  | _ :: rest => uid_queries rest
  end.

(** The commands [invite_to_org.py] has in its text, with the
    arguments it takes from the command line. *)
Definition invite_may_call (a : InviteToOrg.args) (c : cmd) : Prop :=
  match c with
  | Version | AuthStatus => True
  | GetOrg o => o = InviteToOrg.org a
  | GetUserId _ => True
  | GetOrgMembership o _ | ListInvitations o _ => o = InviteToOrg.org a
  | PostInvitation o _ r =>
      o = InviteToOrg.org a
      /\ r = InviteToOrg.role_name (InviteToOrg.role a)
      /\ InviteToOrg.dry_run a = false
  | _ => False
  end.

(** The commands [manage_groups.py] has in its text. *)
Definition manage_may_call (a : ManageGroups.args) (c : cmd) : Prop :=
  match c with
  | AuthStatus => True
  | GetOrg o => o = ManageGroups.org a
  | GetTeam o _ | GetTeamMembership o _ _ => o = ManageGroups.org a
  | PostTeam o _ p d =>
      o = ManageGroups.org a
      /\ p = ManageGroups.privacy_name (ManageGroups.privacy a)
      /\ d = EmptyString
      /\ ManageGroups.dry_run a = false
  | PutTeamMembership o _ _ r =>
      o = ManageGroups.org a
      /\ (r = ManageGroups.member_role \/ r = ManageGroups.maintainer_role)
      /\ ManageGroups.dry_run a = false
  | _ => False
  end.

Definition only_calls (may : cmd -> Prop) (e : event) : Prop :=
  match e with
  | Call c _ => may c
  | Print _ => True
  end.

(** The organization a command names, if it names one. *)
Definition org_of (c : cmd) : option string :=
  match c with
  | Version | AuthStatus | GetUserId _ => None
  | GetOrg o | GetOrgMembership o _ | ListInvitations o _
  | PostInvitation o _ _ | GetTeam o _ | PostTeam o _ _ _
  | GetTeamMembership o _ _ | PutTeamMembership o _ _ _ => Some o
  end.

Definition on_org (o : string) (e : event) : Prop :=
  match e with
  | Call c _ =>
      match org_of c with
      | Some o' => o' = o
      | None => True
      end
  | Print _ => True
  end.

(** The commands about teams and the commands about invitations. *)
Definition about_teams (c : cmd) : bool :=
  match c with
  | GetTeam _ _ | PostTeam _ _ _ _ | GetTeamMembership _ _ _
  | PutTeamMembership _ _ _ _ => true
  | _ => false
  end.

Definition about_invitations (c : cmd) : bool :=
  match c with
  | GetUserId _ | GetOrgMembership _ _ | ListInvitations _ _
  | PostInvitation _ _ _ => true
  | _ => false
  end.

Definition no_team_call (e : event) : Prop :=
  match e with
  | Call c _ => about_teams c = false
  | Print _ => True
  end.

Definition no_invitation_call (e : event) : Prop :=
  match e with
  | Call c _ => about_invitations c = false
  | Print _ => True
  end.

(** What [team_membership] reads in a reply. *)
Definition role_in (q : reply) : option string :=
  let out := strip (stdout q) in
  if succeeded q
     && (String.eqb out ManageGroups.member_role
         || String.eqb out ManageGroups.maintainer_role)
  then Some out else None.

(** A membership write that the query before it calls for: the role
    maintainer for somebody the query did not find a maintainer, the
    role member for somebody the query did not find in the team. *)
Definition called_for (role : string) (q : reply) : Prop :=
  (role = ManageGroups.maintainer_role
   /\ role_in q <> Some ManageGroups.maintainer_role)
  \/ (role = ManageGroups.member_role /\ role_in q = None).

(** Every membership write comes right after the query of the same
    membership, and that query calls for it. *)
Definition writes_called_for (tr : list event) : Prop :=
  forall pre org slug u role r post,
    tr = pre ++ Call (PutTeamMembership org slug u role) r :: post ->
    exists pre' q,
      pre = pre' ++ [Call (GetTeamMembership org slug u) q]
      /\ called_for role q.

(** The same, read from left to right; [prev] is the event before. *)
Fixpoint careful (prev : option event) (tr : list event) : Prop :=
  match tr with
  | [] => True
  | e :: rest =>
      match e with
      | Call (PutTeamMembership org slug u role) _ =>
          match prev with
          | Some (Call (GetTeamMembership org' slug' u') q) =>
              org' = org /\ slug' = slug /\ u' = u /\ called_for role q
          | _ => False
          end
      | _ => True
      end
      /\ careful (Some e) rest
  end.

(** An event that is no query and no write of a team membership. *)
Definition outside_passes (e : event) : Prop :=
  match e with
  | Call (GetTeamMembership _ _ _) _ | Call (PutTeamMembership _ _ _ _) _ => False
  | _ => True
  end.

(** A run that stopped did so in the creation of a team: the last
    call of the trace posts a team, and a refused post is [sys.exit(1)],
    an accepted one an exception met in its reply. *)
Definition stopped_in_create_team (a : ManageGroups.args) (why : abort)
  (tr : list event) : Prop :=
  exists pre name r tail,
    tr = pre ++ Call (PostTeam (ManageGroups.org a) name
                        (ManageGroups.privacy_name (ManageGroups.privacy a))
                        EmptyString) r :: tail
    /\ calls tail = []
    /\ (succeeded r = false -> why = SysExit 1)
    /\ (succeeded r = true -> why = Unmodelled \/ exists e, why = Uncaught e).

(** A creation of a team that was accepted. *)
Definition creation_accepted (e : event) : Prop :=
  match e with
  | Call (PostTeam _ _ _ _) r => succeeded r = true
  | _ => True
  end.

(** A computation that stops nowhere but in the creation of a team,
    and that completes only when every creation was accepted. *)
Definition stops_only_creating {St A} (a : ManageGroups.args) (m : @M St A)
  : Prop :=
  forall st,
    match result_of m st with
    | Done _ => each creation_accepted (trace_of m st)
    | Stop why => stopped_in_create_team a why (trace_of m st)
    end.

(** A run of [main] in manage_groups.py that stopped before the loop
    over the groups: after a failed check or in the loader. *)
Definition stopped_before_teams (a : ManageGroups.args) (why : abort)
  (tr : list event) : Prop :=
  each preliminary tr
  /\ match why with
     | SysExit code => code = 1%Z
     | Uncaught e =>
         ManageGroups.load_students (ManageGroups.file a) = Raised e
     | Unmodelled =>
         ManageGroups.load_students (ManageGroups.file a) = OutOfModel
     end.

(** The queries of a trace: its calls that do not write. *)
Definition queries_of (tr : list event) : list cmd :=
  filter (fun c => negb (mutating c)) (calls tr).

(** The queries of one turn of the loop over the groups: the team,
    then its membership for every instructor, then for every member. *)
Definition team_queries (a : ManageGroups.args) (instr : list string)
  (item : string * list string) : list cmd :=
  let slug := Slug.slugify (fst item) in
  GetTeam (ManageGroups.org a) slug
    :: map (GetTeamMembership (ManageGroups.org a) slug) (instr ++ snd item).

(** The queries of the whole loop, group after group in the order of
    the names. *)
Definition roster_queries (a : ManageGroups.args)
  (students : list ManageGroups.student) : list cmd :=
  flat_map
    (team_queries a (ManageGroups.parse_instructors (ManageGroups.instructors a)))
    (ManageGroups.sorted_items (ManageGroups.build_groups students)).


(** The characters the comma pass never touches. *)
Definition significant (c : ascii) : bool :=
  negb (is_comma c || isspace c).

(** A group name comes before another. *)
Definition name_before (x y : string * list string) : Prop :=
  String.ltb (fst x) (fst y) = true.

(** A JSON object. *)
Definition is_object (v : value) : bool :=
  match v with
  | JObj _ => true
  | _ => false
  end.

(** A value that is true for Python and no string. *)
Definition truthy_non_string (v : value) : bool :=
  truthy v && match v with JStr _ => false | _ => true end.

(** An entry of [--instructors] that [u.strip()] leaves empty. *)
Definition blank (s : string) : bool := negb (nonempty (strip s)).

Definition has_comma (s : string) : bool := contains_char ","%char s.

End More.

(** ** The loaders as the spec words them *)

Module LoaderSpec.
Import PyStr Json Roster More.

(** [(v or '')] of a field that is a string or false for Python: the
    string itself, and the empty string for a field that is missing,
    null, false, zero or empty. *)
Definition field_text (v : value) : string :=
  match v with
  | JStr s => s
  | _ => EmptyString
  end.

(** An item that is no record, or a record whose fields [keys] are
    each a string or false for Python. *)
Definition plain (keys : list string) (it : value) : bool :=
  match it with
  | JObj fields =>
      forallb (fun k => negb (truthy_non_string (dict_get k fields))) keys
  | _ => true
  end.

(** The record of the spec for the invitation loader: the username
    trimmed and without its leading sigils; dropped when that is
    empty, and when the item is no record. *)
Definition spec_invite_row (it : value) : option InviteToOrg.student :=
  match it with
  | JObj fields =>
      let u := normalize (field_text (dict_get username_key fields)) in
      if nonempty u
      then Some {| InviteToOrg.name :=
                     strip (field_text (dict_get name_key fields));
                   InviteToOrg.username := u |}
      else None
  | _ => None
  end.

(** The record of the spec for the group-aware loader: dropped also
    when the trimmed group is empty. *)
Definition spec_group_row (it : value) : option ManageGroups.student :=
  match it with
  | JObj fields =>
      let u := normalize (field_text (dict_get username_key fields)) in
      let g := strip (field_text (dict_get group_key fields)) in
      if nonempty u && nonempty g
      then Some {| ManageGroups.name :=
                     strip (field_text (dict_get name_key fields));
                   ManageGroups.username := u;
                   ManageGroups.group := g |}
      else None
  | _ => None
  end.

(** The invitation loader on a plain item: the same row, but the
    username is tested as it is written, before it is normalized. *)
Definition tested_as_written (it : value) : option InviteToOrg.student :=
  match it with
  | JObj fields =>
      let w := field_text (dict_get username_key fields) in
      if nonempty w
      then Some {| InviteToOrg.name :=
                     strip (field_text (dict_get name_key fields));
                   InviteToOrg.username := normalize w |}
      else None
  | _ => None
  end.

(** The rows kept of a list of items, in the order of the file. *)
Definition kept {row} (f : value -> option row) (items : list value)
  : list row :=
  flat_map (fun it => match f it with Some r => [r] | None => [] end) items.

(** The end of a loader: its rows, or the exit when there is none. *)
Definition rows_or_exit {row} (rows : list row) : loaded row :=
  match rows with
  | [] => NoStudents
  | _ => Rows rows
  end.

(** A record whose username is not empty as written and empty once
    normalized: white space and at-signs only. *)
Definition bare_sigil (it : value) : bool :=
  match it with
  | JObj fields =>
      let w := field_text (dict_get username_key fields) in
      nonempty w && negb (nonempty (normalize w))
  | _ => false
  end.

Definition has_username (r : InviteToOrg.student) : bool :=
  nonempty (InviteToOrg.username r).

(** A roster without a valid record: an at-sign and two blanks for
    usernames. *)
Definition roster_blank_usernames : string :=
  Scenario.quoted "[{'username':'@','group':'A'},{'username':'  ','group':'A'}]".

Definition invite_keys : list string := [username_key; name_key].
Definition group_keys : list string := [username_key; group_key; name_key].

End LoaderSpec.

(** ** Dry runs as the spec words them: every intent is logged *)

Module DrySpec.
Import PyStr Json Roster Gh Slug Props More.

(** The same command line without [--dry-run]. *)
Definition live_invite (a : InviteToOrg.args) : InviteToOrg.args :=
  {| InviteToOrg.org := InviteToOrg.org a;
     InviteToOrg.file := InviteToOrg.file a;
     InviteToOrg.role := InviteToOrg.role a;
     InviteToOrg.dry_run := false |}.

Definition live_teams (a : ManageGroups.args) : ManageGroups.args :=
  {| ManageGroups.org := ManageGroups.org a;
     ManageGroups.file := ManageGroups.file a;
     ManageGroups.instructors := ManageGroups.instructors a;
     ManageGroups.privacy := ManageGroups.privacy a;
     ManageGroups.dry_run := false |}.

(** The line a dry run prints after the query of a team: the team is
    there, or it would be created. *)
Definition team_line (slug : string) (r : reply) : note :=
  if succeeded r then TeamExists slug else WouldCreateTeam slug.

(** After the query of an instructor's membership: a maintainer is
    left alone, a member would be promoted, anybody else would be
    added. *)
Definition instructor_line (u : string) (q : reply) : note :=
  match role_in q with
  | Some role =>
      if String.eqb role ManageGroups.maintainer_role then InstructorAlready u
      else WouldPromote u
  | None => WouldAddInstructor u
  end.

(** After the query of a student's membership: somebody in the team
    is left alone, anybody else would be added. *)
Definition student_line (u : string) (q : reply) : note :=
  match role_in q with
  | Some role => StudentAlready u role
  | None => WouldAddMember u
  end.

(** The writes a line of a dry run announces, for the team [name]
    with the slug [slug]. *)
Definition intended (a : ManageGroups.args) (name slug : string) (n : note)
  : list cmd :=
  match n with
  | WouldCreateTeam _ =>
      [PostTeam (ManageGroups.org a) name
         (ManageGroups.privacy_name (ManageGroups.privacy a)) EmptyString]
  | WouldPromote u | WouldAddInstructor u =>
      [PutTeamMembership (ManageGroups.org a) slug u
         ManageGroups.maintainer_role]
  | WouldAddMember u =>
      [PutTeamMembership (ManageGroups.org a) slug u ManageGroups.member_role]
  | _ => []
  end.

(** The calls of a trace that write. *)
Definition written (tr : list event) : list cmd := filter mutating (calls tr).

(** One query and the line about its reply, and nothing else. *)
Definition asked_and_logged (c : cmd) (line : reply -> note) (tr : list event)
  : Prop :=
  exists r, tr = [Call c r; Print (line r)].

(** One piece of trace for every element of a list, in its order. *)
Inductive chain {A} (P : A -> list event -> Prop)
  : list A -> list event -> Prop :=
| chain_nil : chain P [] []
| chain_cons x xs t1 t2 :
    P x t1 -> chain P xs t2 -> chain P (x :: xs) (t1 ++ t2).

(** The dry run of one group: the team, the instructors, the members. *)
Definition dry_team (a : ManageGroups.args) (instr : list string)
  (item : string * list string) (tr : list event) : Prop :=
  let slug := slugify (fst item) in
  exists t0 t1 t2,
    tr = t0 ++ t1 ++ t2
    /\ asked_and_logged (GetTeam (ManageGroups.org a) slug) (team_line slug) t0
    /\ chain (fun u =>
                asked_and_logged
                  (GetTeamMembership (ManageGroups.org a) slug u)
                  (instructor_line u)) instr t1
    /\ chain (fun u =>
                asked_and_logged
                  (GetTeamMembership (ManageGroups.org a) slug u)
                  (student_line u)) (snd item) t2.

(** The dry run of the loop over the groups. *)
Definition dry_teams (a : ManageGroups.args)
  (students : list ManageGroups.student) (tr : list event) : Prop :=
  exists t,
    tr = t ++ [Print AllDone]
    /\ chain (dry_team a (ManageGroups.parse_instructors
                            (ManageGroups.instructors a)))
             (ManageGroups.sorted_items (ManageGroups.build_groups students)) t.

End DrySpec.

Module PyStrFacts.
Import PyStr.

Section Strip.
Variable cls : ascii -> bool.


Lemma lstrip_with_start s : starts_with cls (lstrip_with cls s) = false.
Proof.
  induction s as [|c t IH]; simpl; [reflexivity|].
  destruct (cls c) eqn:E; [exact IH|]. simpl. exact E.
Qed.

Lemma rstrip_with_cons c t :
  rstrip_with cls (c :: t) =
  match rstrip_with cls t with
  | [] => if cls c then [] else [c]
  | t' => c :: t'
  end.
Proof. reflexivity. Qed.


Lemma rstrip_with_end s : ends_with cls (rstrip_with cls s) = false.
Proof.
  induction s as [|c t IH]; [reflexivity|].
  rewrite rstrip_with_cons.
  destruct (rstrip_with cls t) as [|c' t'] eqn:E.
  - destruct (cls c) eqn:Ec; simpl; [reflexivity|exact Ec].
  - exact IH.
Qed.

(** What [rstrip] returns is empty or keeps the first character. *)
Lemma rstrip_with_head p s :
  starts_with p (rstrip_with cls s) = true -> starts_with p s = true.
Proof.
  destruct s as [|c t]; [discriminate|].
  rewrite rstrip_with_cons.
  destruct (rstrip_with cls t); [destruct (cls c)|]; simpl; congruence.
Qed.

Lemma lstrip_with_forallb p s :
  forallb p s = true -> forallb p (lstrip_with cls s) = true.
Proof.
  induction s as [|c t IH]; simpl; [reflexivity|].
  intros H. apply andb_true_iff in H as [Hc Ht].
  destruct (cls c); [auto|]. simpl. now rewrite Hc, Ht.
Qed.

Lemma rstrip_with_forallb p s :
  forallb p s = true -> forallb p (rstrip_with cls s) = true.
Proof.
  induction s as [|c t IH]; [reflexivity|].
  intros H. simpl in H. apply andb_true_iff in H as [Hc Ht].
  rewrite rstrip_with_cons. specialize (IH Ht).
  destruct (rstrip_with cls t) as [|c' t'].
  - destruct (cls c); simpl; [reflexivity|now rewrite Hc].
  - change (forallb p (c :: c' :: t')) with (p c && forallb p (c' :: t')).
    now rewrite Hc, IH.
Qed.

End Strip.


Lemma starts_with_weaken (p q : ascii -> bool) s :
  (forall c, p c = true -> q c = true) ->
  starts_with q s = false -> starts_with p s = false.
Proof.
  intros Hpq. destruct s as [|c t]; simpl; [reflexivity|].
  intros Hq. destruct (p c) eqn:E; [|reflexivity].
  apply Hpq in E. congruence.
Qed.



Lemma lift_lift f g s : lift f (lift g s) = lift (fun t => f (g t)) s.
Proof. unfold lift. now rewrite list_ascii_of_string_of_list_ascii. Qed.


End PyStrFacts.

Module SlugFacts.
Import PyStr PyStrFacts Slug.

Ltac each_char c :=
  destruct c as [[] [] [] [] [] [] [] []]; vm_compute; try reflexivity;
  try discriminate; try (intros; discriminate); try (intros; reflexivity).






Lemma dash_not_az09 c : is_dash c = true -> not_az09 c = true.
Proof. each_char c. Qed.



(** *** Runs replaced by one separator *)

Section Runs.
Variable cls : ascii -> bool.
Variable d : ascii.
Hypothesis cls_d : cls d = true.

Lemma sub_runs_true_start s :
  starts_with cls (sub_runs cls [d] true s) = false.
Proof.
  induction s as [|c t IH]; simpl; [reflexivity|].
  destruct (cls c) eqn:E; [exact IH|]. simpl. exact E.
Qed.

Lemma sub_runs_no_double b s :
  no_double cls (sub_runs cls [d] b s) = true.
Proof.
  revert b. induction s as [|c t IH]; intros b; simpl; [reflexivity|].
  destruct (cls c) eqn:E.
  - destruct b; [apply IH|]. simpl.
    rewrite sub_runs_true_start, andb_false_r. simpl. apply IH.
  - simpl. rewrite E. simpl. apply IH.
Qed.

Lemma sub_runs_flag s :
  starts_with cls s = false ->
  sub_runs cls [d] true s = sub_runs cls [d] false s.
Proof. destruct s as [|c t]; simpl; [reflexivity|]. now intros ->. Qed.

Lemma sub_runs_id s :
  forallb (fun c => implb (cls c) (Ascii.eqb c d)) s = true ->
  no_double cls s = true ->
  sub_runs cls [d] false s = s.
Proof.
  induction s as [|c t IH]; simpl; [reflexivity|].
  intros H1 H2.
  apply andb_true_iff in H1 as [Hc Ht].
  apply andb_true_iff in H2 as [Hn Hd].
  destruct (cls c) eqn:E; simpl in *.
  - apply Ascii.eqb_eq in Hc. subst c.
    apply negb_true_iff in Hn.
    rewrite (sub_runs_flag t Hn), IH by assumption. reflexivity.
  - now rewrite IH.
Qed.

End Runs.

Lemma no_double_weaken (p q : ascii -> bool) s :
  (forall c, p c = true -> q c = true) ->
  no_double q s = true -> no_double p s = true.
Proof.
  intros Hpq. induction s as [|c t IH]; simpl; [reflexivity|].
  intros H. apply andb_true_iff in H as [Hn Ht].
  rewrite (IH Ht), andb_true_r.
  apply negb_true_iff. apply negb_true_iff in Hn.
  apply andb_false_iff in Hn as [Hn|Hn].
  - destruct (p c) eqn:E; [|reflexivity]. apply Hpq in E. congruence.
  - rewrite (starts_with_weaken p q t Hpq Hn). apply andb_false_r.
Qed.

Lemma no_double_lstrip cls p s :
  no_double p s = true -> no_double p (lstrip_with cls s) = true.
Proof.
  induction s as [|c t IH]; simpl; [reflexivity|].
  intros H. destruct (cls c).
  - apply IH. now apply andb_true_iff in H as [_ H].
  - exact H.
Qed.

Lemma no_double_rstrip cls p s :
  no_double p s = true -> no_double p (rstrip_with cls s) = true.
Proof.
  induction s as [|c t IH]; [reflexivity|].
  intros H. simpl in H. apply andb_true_iff in H as [Hn Ht].
  rewrite rstrip_with_cons. specialize (IH Ht).
  destruct (rstrip_with cls t) as [|c' t'] eqn:E.
  - destruct (cls c); [reflexivity|]. simpl. now rewrite andb_false_r.
  - change (no_double p (c :: c' :: t'))
      with (negb (p c && starts_with p (c' :: t')) && no_double p (c' :: t')).
    rewrite IH, andb_true_r.
    apply negb_true_iff. apply negb_true_iff in Hn.
    apply andb_false_iff in Hn as [Hn|Hn]; [now rewrite Hn|].
    destruct (starts_with p (c' :: t')) eqn:Es; [|apply andb_false_r].
    rewrite <- E in Es. apply rstrip_with_head in Es. congruence.
Qed.

Lemma sub_runs_slug_char b s :
  forallb slug_char (sub_runs not_az09 [dash] b s) = true.
Proof.
  revert b. induction s as [|c t IH]; intros b; simpl; [reflexivity|].
  unfold not_az09 at 1. destruct (is_az09 c) eqn:E; simpl.
  - unfold slug_char at 1. rewrite E. simpl. apply IH.
  - destruct b; simpl; apply IH.
Qed.

Lemma not_az09_dash : not_az09 dash = true.
Proof. reflexivity. Qed.


(** The second pass of [slugify], [re.sub(r"-+", "-", s)], changes
    nothing: the first pass leaves no two separators in a row. *)
Lemma second_pass_id b s :
  let t := sub_runs not_az09 [dash] b s in
  sub_runs is_dash [dash] false t = t.
Proof.
  intros t. apply sub_runs_id.
  - apply forallb_forall. intros c _. unfold is_dash, is_char.
    now destruct (Ascii.eqb c dash).
  - apply (no_double_weaken is_dash not_az09); [exact dash_not_az09|].
    now apply sub_runs_no_double.
Qed.

(** *** Words and separators *)












(** *** Well-formed output *)

Lemma slug_text_wf x : slug_wf_text (slug_text x) = true.
Proof.
  unfold slug_text.
  set (s := lower (strip_text x)).
  rewrite (second_pass_id false s).
  set (r := strip_with is_dash (sub_runs not_az09 [dash] false s)).
  assert (Hall : forallb slug_char r = true).
  { apply rstrip_with_forallb, lstrip_with_forallb, sub_runs_slug_char. }
  assert (Hend : ends_with is_dash r = false) by apply rstrip_with_end.
  assert (Hst : starts_with is_dash r = false).
  { destruct (starts_with is_dash r) eqn:E; [|reflexivity].
    apply rstrip_with_head in E. now rewrite lstrip_with_start in E. }
  assert (Hnd : no_double is_dash r = true).
  { apply no_double_rstrip, no_double_lstrip.
    apply (no_double_weaken is_dash not_az09); [exact dash_not_az09|].
    now apply sub_runs_no_double. }
  destruct r as [|c t] eqn:Er; [reflexivity|].
  unfold slug_wf_text. now rewrite Hall, Hst, Hend, Hnd.
Qed.

(** *** A well-formed slug is a fixed point *)



(** *** Case and punctuation *)








End SlugFacts.

(** ** Reasoning about runs *)

Module GhFacts.
Import Gh.

Section Runs.
Context {St : Type}.

Lemma bind_done {A B} (m : @M St A) (f : A -> @M St B) st a st1 tr1 r st2 tr2 :
  m st = (Done a, st1, tr1) -> f a st1 = (r, st2, tr2) ->
  bind m f st = (r, st2, tr1 ++ tr2).
Proof. unfold bind. now intros -> ->. Qed.

Lemma bind_done_as {A B} (m : @M St A) (f : A -> M B) st a st1 tr1 r st2 tr2 tr :
  m st = (Done a, st1, tr1) -> f a st1 = (r, st2, tr2) -> tr = tr1 ++ tr2 ->
  bind m f st = (r, st2, tr).
Proof. intros H1 H2 ->. now apply (bind_done _ _ st a st1). Qed.

Lemma bind_stop {A B} (m : @M St A) (f : A -> @M St B) st why st1 tr1 :
  m st = (Stop why, st1, tr1) -> bind m f st = (Stop why, st1, tr1).
Proof. unfold bind. now intros ->. Qed.

Lemma bind_inv {A B} (m : @M St A) (f : A -> @M St B) st r st2 tr :
  bind m f st = (r, st2, tr) ->
  (exists a st1 tr1 tr2,
      m st = (Done a, st1, tr1) /\ f a st1 = (r, st2, tr2) /\ tr = tr1 ++ tr2)
  \/ (exists why, m st = (Stop why, st2, tr) /\ r = Stop why).
Proof.
  unfold bind. destruct (m st) as [[[a|why] st1] tr1].
  - destruct (f a st1) as [[r' st2'] tr2] eqn:E. intros H.
    injection H as <- <- <-. left. now exists a, st1, tr1, tr2.
  - intros H. injection H as <- <- <-. right. now exists why.
Qed.

Lemma bind_done_inv {A B} (m : @M St A) (f : A -> @M St B) st b st2 tr :
  bind m f st = (Done b, st2, tr) ->
  exists a st1 tr1 tr2,
    m st = (Done a, st1, tr1) /\ f a st1 = (Done b, st2, tr2) /\ tr = tr1 ++ tr2.
Proof.
  intros H. apply bind_inv in H as [H|[why [_ H]]]; [exact H|discriminate].
Qed.

(** *** Properties of every trace of a computation *)

Lemma run_eta {A} (m : @M St A) st :
  m st = (result_of m st, state_of m st, trace_of m st).
Proof. unfold result_of, state_of, trace_of. now destruct (m st) as [[? ?] ?]. Qed.

Section Always.
Variable P : list event -> Prop.
Hypothesis P_nil : P [].
Hypothesis P_app : forall t1 t2, P t1 -> P t2 -> P (t1 ++ t2).

Lemma always_ret {A} (a : A) : always P (@ret St A a).
Proof. intros st. exact P_nil. Qed.

Lemma always_stop {A} why : always P (@stop St A why).
Proof. intros st. exact P_nil. Qed.

Lemma always_bind {A B} (m : @M St A) (f : A -> @M St B) :
  always P m -> (forall a, always P (f a)) -> always P (bind m f).
Proof.
  intros Hm Hf st. unfold trace_of, bind.
  specialize (Hm st). unfold trace_of in Hm.
  destruct (m st) as [[[a|why] st1] tr1]; simpl in *; [|exact Hm].
  specialize (Hf a st1). unfold trace_of in Hf.
  destruct (f a st1) as [[r st2] tr2]. simpl in *. now apply P_app.
Qed.

Lemma always_print n : P [Print n] -> always P (@print St n).
Proof. intros H st. exact H. Qed.

Lemma always_call gh c : (forall r, P [Call c r]) -> always P (@call St gh c).
Proof.
  intros H st. unfold trace_of, call. destruct (gh st c) as [r st']. apply H.
Qed.

Lemma always_for_each {A} (xs : list A) (body : A -> @M St unit) :
  (forall x, In x xs -> always P (body x)) -> always P (for_each xs body).
Proof.
  induction xs as [|x rest IH]; intros H; simpl.
  - apply always_ret.
  - apply always_bind; [apply H; now left|].
    intros _. apply IH. intros y Hy. apply H. now right.
Qed.

Lemma always_for_fold {A B} (xs : list A) (body : B -> A -> @M St B) b :
  (forall b x, In x xs -> always P (body b x)) -> always P (for_fold xs body b).
Proof.
  revert b. induction xs as [|x rest IH]; intros b H; simpl.
  - apply always_ret.
  - apply always_bind; [apply H; now left|].
    intros b'. apply IH. intros b'' y Hy. apply H. now right.
Qed.

Lemma always_if {A} (c : bool) (m1 m2 : @M St A) :
  always P m1 -> always P m2 -> always P (if c then m1 else m2).
Proof. now destruct c. Qed.

End Always.

Lemma each_nil Q : each Q [].
Proof. constructor. Qed.

Lemma each_app Q t1 t2 : each Q t1 -> each Q t2 -> each Q (t1 ++ t2).
Proof. intros H1 H2. apply Forall_app. now split. Qed.

Lemma each_one Q e : Q e -> each Q [e].
Proof. intros H. now repeat constructor. Qed.

Section Each.
Variable Q : event -> Prop.

Lemma all_ret {A} (a : A) : always (each Q) (@ret St A a).
Proof. apply always_ret, each_nil. Qed.

Lemma all_stop {A} why : always (each Q) (@stop St A why).
Proof. apply always_stop, each_nil. Qed.

Lemma all_print n : Q (Print n) -> always (each Q) (@print St n).
Proof. intros H. apply always_print. now apply each_one. Qed.

Lemma all_call gh c :
  (forall r, Q (Call c r)) -> always (each Q) (@call St gh c).
Proof. intros H. apply always_call. intros r. now apply each_one. Qed.

Lemma all_bind {A B} (m : @M St A) (f : A -> @M St B) :
  always (each Q) m -> (forall a, always (each Q) (f a)) ->
  always (each Q) (bind m f).
Proof. apply always_bind, each_app. Qed.

Lemma all_if {A} (c : bool) (m1 m2 : @M St A) :
  always (each Q) m1 -> always (each Q) m2 ->
  always (each Q) (if c then m1 else m2).
Proof. apply always_if. Qed.

Lemma all_for_each {A} (xs : list A) (body : A -> @M St unit) :
  (forall x, In x xs -> always (each Q) (body x)) ->
  always (each Q) (for_each xs body).
Proof. apply always_for_each; [apply each_nil|apply each_app]. Qed.

Lemma all_for_fold {A B} (xs : list A) (body : B -> A -> @M St B) b :
  (forall b x, In x xs -> always (each Q) (body b x)) ->
  always (each Q) (for_fold xs body b).
Proof. apply always_for_fold; [apply each_nil|apply each_app]. Qed.

End Each.

(** *** Computations that cannot stop early *)

Lemma completes_ret {A} (a : A) : completes (@ret St A a).
Proof. intros st. now exists a. Qed.

Lemma completes_print n : completes (@print St n).
Proof. intros st. now exists tt. Qed.

Lemma completes_call gh c : completes (@call St gh c).
Proof.
  intros st. unfold result_of, call. destruct (gh st c) as [r st']. now exists r.
Qed.

Lemma completes_bind {A B} (m : @M St A) (f : A -> @M St B) :
  completes m -> (forall a, completes (f a)) -> completes (bind m f).
Proof.
  intros Hm Hf st. unfold result_of, bind.
  destruct (Hm st) as [a Ha]. unfold result_of in Ha.
  destruct (m st) as [[r st1] tr1]. simpl in Ha. subst r.
  destruct (Hf a st1) as [b Hb]. unfold result_of in Hb.
  destruct (f a st1) as [[r st2] tr2]. simpl in *. now exists b.
Qed.

Lemma completes_for_each {A} (xs : list A) (body : A -> @M St unit) :
  (forall x, completes (body x)) -> completes (for_each xs body).
Proof.
  intros H. induction xs as [|x rest IH]; simpl.
  - apply completes_ret.
  - apply completes_bind; [apply H|]. intros _. exact IH.
Qed.

Lemma completes_for_fold {A B} (xs : list A) (body : B -> A -> @M St B) b :
  (forall b x, completes (body b x)) -> completes (for_fold xs body b).
Proof.
  intros H. revert b. induction xs as [|x rest IH]; intros b; simpl.
  - apply completes_ret.
  - apply completes_bind; [apply H|]. exact IH.
Qed.

Lemma completes_if {A} (c : bool) (m1 m2 : @M St A) :
  completes m1 -> completes m2 -> completes (if c then m1 else m2).
Proof. now destruct c. Qed.

End Runs.

End GhFacts.

(** ** The loaders *)

Module RosterFacts.
Import PyStr PyStrFacts Json Roster Gh Props.

(** *** The comma pass is the substitution of the pattern *)

Lemma closes_spaces ws rest :
  forallb isspace ws = true -> closes (ws ++ rest) = closes rest.
Proof.
  induction ws as [|c ws IH]; simpl; [reflexivity|].
  intros H. apply andb_true_iff in H as [-> H]. now apply IH.
Qed.

Lemma strip_commas_dropping ws b rest :
  forallb isspace ws = true -> is_closer b = true ->
  strip_commas true (ws ++ b :: rest) = strip_commas false (b :: rest)
  /\ strip_commas false (b :: rest) = b :: strip_commas false rest.
Proof.
  intros Hws Hb.
  assert (Hc : is_comma b = false).
  { unfold is_closer, is_comma, is_char in *.
    destruct (Ascii.eqb_spec b "}"%char) as [->|]; [reflexivity|].
    destruct (Ascii.eqb_spec b "]"%char) as [->|]; [reflexivity|discriminate]. }
  assert (Hs : isspace b = false).
  { unfold is_closer, is_char in Hb.
    destruct (Ascii.eqb_spec b "}"%char) as [->|]; [reflexivity|].
    destruct (Ascii.eqb_spec b "]"%char) as [->|]; [reflexivity|discriminate]. }
  split.
  - induction ws as [|c ws IH]; simpl.
    + now rewrite Hs, Hc.
    + simpl in Hws. apply andb_true_iff in Hws as [-> Hws]. now apply IH.
  - simpl. now rewrite Hc.
Qed.

(** Where the pattern matches, the match is replaced by its group. *)
Lemma strip_commas_match ws b rest :
  forallb isspace ws = true -> is_closer b = true ->
  strip_commas false (","%char :: ws ++ b :: rest)
  = b :: strip_commas false rest.
Proof.
  intros Hws Hb.
  destruct (strip_commas_dropping ws b rest Hws Hb) as [E1 E2].
  cbn [strip_commas andb]. change (is_comma ","%char) with true. cbn [andb].
  rewrite (closes_spaces ws (b :: rest) Hws). cbn [closes].
  assert (Hs : isspace b = false).
  { unfold is_closer, is_char in Hb.
    destruct (Ascii.eqb_spec b "}"%char) as [->|]; [reflexivity|].
    destruct (Ascii.eqb_spec b "]"%char) as [->|]; [reflexivity|discriminate]. }
  now rewrite Hs, Hb, E1, E2.
Qed.

(** Where it does not, the character stays and the scan moves on. *)
Lemma strip_commas_skip c t :
  is_comma c && closes t = false ->
  strip_commas false (c :: t) = c :: strip_commas false t.
Proof. intros H. cbn [strip_commas andb]. now rewrite H. Qed.

Lemma nonempty_true s : nonempty s = true <-> s <> EmptyString.
Proof. destruct s; simpl; split; congruence. Qed.

Lemma starts_with_at_lstrip s : starts_with_at (lstrip at_sign s) = false.
Proof.
  unfold starts_with_at, lstrip, lift.
  rewrite list_ascii_of_string_of_list_ascii. apply lstrip_with_start.
Qed.

Lemma starts_with_at_normalize s : starts_with_at (normalize s) = false.
Proof. apply starts_with_at_lstrip. Qed.

Lemma normalize_lift s :
  normalize s = lift (fun t => lstrip_with is_at (strip_text t)) s.
Proof. unfold normalize, lstrip, strip. apply lift_lift. Qed.

Section Collect.
Context {row : Type}.
Variable visit : value -> exn + option row.
Variable Q : row -> Prop.
Hypothesis visit_Q : forall it r, visit it = inr (Some r) -> Q r.

Lemma collect_each items rows :
  collect visit items = inr rows -> Forall Q rows.
Proof.
  revert rows. induction items as [|it rest IH]; simpl; intros rows H.
  - injection H as <-. constructor.
  - destruct (visit it) as [e|o] eqn:E; [discriminate|].
    destruct (collect visit rest) as [e|rows'] eqn:E'; [discriminate|].
    injection H as <-. specialize (IH rows' eq_refl).
    destruct o as [r|]; [|exact IH]. constructor; [|exact IH].
    now apply (visit_Q it).
Qed.

Lemma load_from_each d rows :
  load_from visit d = Rows rows -> Forall Q rows.
Proof.
  unfold load_from, rows_of. destruct d as [data| |]; try discriminate.
  destruct (py_iter data) as [e|items]; [discriminate|].
  destruct (collect visit items) as [e|rows'] eqn:E; [discriminate|].
  destruct rows' as [|r rows']; [discriminate|].
  intros H. injection H as <-. now apply (collect_each items).
Qed.

End Collect.

Lemma load_from_empty {row} (visit : value -> exn + option row) d data :
  d = Parsed data -> rows_of visit data = inr [] ->
  load_from visit d = NoStudents.
Proof. intros -> H. unfold load_from. now rewrite H. Qed.

(** What a record of the group-aware loader becomes. *)
Lemma manage_visit_row it r :
  ManageGroups.visit it = inr (Some r) ->
  nonempty (ManageGroups.username r) = true
  /\ nonempty (ManageGroups.group r) = true
  /\ starts_with_at (ManageGroups.username r) = false.
Proof.
  unfold ManageGroups.visit. destruct it; try discriminate.
  destruct (or_empty_strip (dict_get username_key fields)) as [e|u0];
    [discriminate|].
  destruct (or_empty_strip (dict_get group_key fields)) as [e|g];
    [discriminate|].
  destruct (or_empty_strip (dict_get name_key fields)) as [e|n];
    [discriminate|].
  destruct (nonempty (lstrip at_sign u0) && nonempty g) eqn:E; [|discriminate].
  intros H. injection H as <-. simpl.
  apply andb_true_iff in E as [Eu Eg].
  repeat split; [exact Eu|exact Eg|apply starts_with_at_lstrip].
Qed.

(** A record of the group-aware loader whose fields are strings: it
    becomes the row of its normalized fields, or nothing when the
    username or the group is empty after that. *)
Lemma manage_visit_strings fields u g n :
  dict_get username_key fields = JStr u ->
  dict_get group_key fields = JStr g ->
  dict_get name_key fields = JStr n ->
  ManageGroups.visit (JObj fields)
  = inr (if nonempty (normalize u) && nonempty (strip g)
         then Some {| ManageGroups.name := strip n;
                      ManageGroups.username := normalize u;
                      ManageGroups.group := strip g |}
         else None).
Proof.
  intros Hu Hg Hn. unfold ManageGroups.visit, or_empty_strip, normalize.
  rewrite Hu, Hg, Hn. cbn [truthy].
  assert (E : forall s, (if nonempty s then inr (strip s)
                         else inr (strip EmptyString))
                        = (inr (strip s) : exn + string))
    by (now intros []).
  rewrite !E. now destruct (_ && _).
Qed.

(** What a record of the invitation loader becomes. *)
Lemma invite_visit_row it r :
  InviteToOrg.visit it = inr (Some r) ->
  exists fields u,
    it = JObj fields /\ dict_get username_key fields = JStr u
    /\ nonempty u = true /\ InviteToOrg.username r = normalize u.
Proof.
  unfold InviteToOrg.visit. destruct it; try discriminate.
  destruct (truthy (dict_get username_key fields)) eqn:T; [|discriminate].
  destruct (or_empty_strip (dict_get name_key fields)) as [e|n];
    [discriminate|].
  destruct (dict_get username_key fields) as [| | |u| |] eqn:G;
    try discriminate.
  intros H. injection H as <-. exists fields, u. now repeat split.
Qed.

End RosterFacts.

(** ** The duplicates *)

Module DedupeFacts.
Import InviteToOrg.

Lemma mem_In u l : existsb (String.eqb u) l = true <-> In u l.
Proof.
  rewrite existsb_exists. split.
  - intros [x [Hx E]]. apply String.eqb_eq in E. now subst.
  - intros H. exists u. split; [exact H|apply String.eqb_refl].
Qed.

Lemma mem_false u l : existsb (String.eqb u) l = false <-> ~ In u l.
Proof.
  rewrite <- mem_In. destruct (existsb (String.eqb u) l); split; congruence.
Qed.

Lemma dedupe_incl seen l s : In s (dedupe seen l) -> In s l.
Proof.
  revert seen. induction l as [|x rest IH]; simpl; intros seen H; [exact H|].
  destruct (existsb (String.eqb (username x)) seen).
  - right. now apply (IH seen).
  - destruct H as [H|H]; [now left|right; now apply (IH _ H)].
Qed.

Lemma dedupe_fresh seen l u :
  In u (map username (dedupe seen l)) -> ~ In u seen.
Proof.
  revert seen. induction l as [|x rest IH]; simpl; intros seen H; [easy|].
  destruct (existsb (String.eqb (username x)) seen) eqn:E.
  - now apply IH.
  - apply mem_false in E. destruct H as [H|H]; [now subst|].
    apply IH in H. intros Hs. apply H. now right.
Qed.

Lemma dedupe_NoDup seen l : NoDup (map username (dedupe seen l)).
Proof.
  revert seen. induction l as [|x rest IH]; simpl; intros seen; [constructor|].
  destruct (existsb (String.eqb (username x)) seen); [apply IH|].
  simpl. constructor; [|apply IH].
  intros H. apply dedupe_fresh in H. apply H. now left.
Qed.

Lemma dedupe_covers seen l s :
  In s l -> In (username s) seen \/ In (username s) (map username (dedupe seen l)).
Proof.
  revert seen. induction l as [|x rest IH]; simpl; intros seen H; [easy|].
  destruct (existsb (String.eqb (username x)) seen) eqn:E.
  - destruct H as [->|H]; [left; now apply mem_In|now apply IH].
  - destruct H as [->|H]; [right; now left|].
    destruct (IH (username x :: seen) H) as [[Hx|Hs]|Hd].
    + right. left. exact Hx.
    + now left.
    + right. now right.
Qed.

(** A record joins the result when its username was not met before,
    and changes nothing otherwise. *)
Lemma dedupe_snoc seen pre s :
  dedupe seen (pre ++ [s]) =
  dedupe seen pre ++
    (if existsb (String.eqb (username s)) (seen ++ map username pre)
     then [] else [s]).
Proof.
  revert seen. induction pre as [|x pre IH]; intros seen; simpl.
  - rewrite app_nil_r. now destruct (existsb _ seen).
  - destruct (existsb (String.eqb (username x)) seen) eqn:E.
    + rewrite IH. f_equal. rewrite !existsb_app. simpl.
      destruct (String.eqb_spec (username s) (username x)) as [e|ne];
        [|reflexivity].
      rewrite e, E. reflexivity.
    + simpl. rewrite IH. f_equal. simpl. rewrite !existsb_app. simpl.
      now rewrite orb_assoc, (orb_comm _ (existsb _ seen)), <- orb_assoc.
Qed.

End DedupeFacts.

(** ** The groups *)

Module GroupFacts.
Import ManageGroups Props.

Lemma members_of_setdefault g g' u acc :
  members_of g (setdefault_append g' u acc) =
  if String.eqb g' g then members_of g acc ++ [u] else members_of g acc.
Proof.
  unfold members_of.
  induction acc as [|[k us] rest IH]; simpl.
  - now destruct (String.eqb g' g).
  - destruct (String.eqb_spec k g') as [e|ne]; simpl.
    + subst k. now destruct (String.eqb g' g).
    + destruct (String.eqb_spec k g) as [e|ne'].
      * subst k. destruct (String.eqb_spec g' g); [congruence|reflexivity].
      * exact IH.
Qed.

Lemma members_of_fold g l acc :
  members_of g
    (fold_left (fun groups s => setdefault_append (group s) (username s) groups)
               l acc)
  = members_of g acc
    ++ map username (filter (fun s => String.eqb (group s) g) l).
Proof.
  revert acc. induction l as [|s rest IH]; intros acc; simpl.
  - now rewrite app_nil_r.
  - rewrite IH, members_of_setdefault.
    destruct (String.eqb (group s) g); simpl; [|reflexivity].
    now rewrite <- app_assoc.
Qed.

(** No record is set aside: the members of a group are the usernames
    of its records, in the order of the file, as often as they occur. *)
Lemma members_of_build_groups g students :
  members_of g (build_groups students)
  = map username (filter (fun s => String.eqb (group s) g) students).
Proof. unfold build_groups. now rewrite members_of_fold. Qed.

End GroupFacts.

(** ** Traces follow the remote *)

Module FaithfulFacts.
Import Gh Props GhFacts.

Section Faithful.
Context {St : Type}.
Variable gh : remote St.

Lemma genuine_app st tr1 st1 tr2 st2 :
  genuine gh st tr1 st1 -> genuine gh st1 tr2 st2 ->
  genuine gh st (tr1 ++ tr2) st2.
Proof.
  revert st. induction tr1 as [|[c r|n] rest IH]; simpl; intros st H1 H2.
  - now subst.
  - destruct H1 as [Hr H1]. split; [exact Hr|]. now apply IH.
  - now apply IH.
Qed.

Lemma faithful_ret {A} (a : A) : faithful gh (@ret St A a).
Proof. intros st. reflexivity. Qed.

Lemma faithful_stop {A} why : faithful gh (@stop St A why).
Proof. intros st. reflexivity. Qed.

Lemma faithful_print n : faithful gh (@print St n).
Proof. intros st. reflexivity. Qed.

Lemma faithful_call c : faithful gh (call gh c).
Proof.
  intros st. unfold trace_of, state_of, call.
  destruct (gh st c) as [r st'] eqn:E. simpl. now rewrite E.
Qed.

Lemma faithful_bind {A B} (m : @M St A) (f : A -> @M St B) :
  faithful gh m -> (forall a, faithful gh (f a)) -> faithful gh (bind m f).
Proof.
  intros Hm Hf st. specialize (Hm st).
  unfold trace_of, state_of, bind in *.
  destruct (m st) as [[[a|why] st1] tr1]; simpl in *; [|exact Hm].
  specialize (Hf a st1). unfold trace_of, state_of in Hf.
  destruct (f a st1) as [[r st2] tr2]. simpl in *.
  now apply (genuine_app st tr1 st1).
Qed.

Lemma faithful_if {A} (c : bool) (m1 m2 : @M St A) :
  faithful gh m1 -> faithful gh m2 -> faithful gh (if c then m1 else m2).
Proof. now destruct c. Qed.

Lemma faithful_for_each {A} (xs : list A) (body : A -> @M St unit) :
  (forall x, faithful gh (body x)) -> faithful gh (for_each xs body).
Proof.
  intros H. induction xs as [|x rest IH]; simpl.
  - apply faithful_ret.
  - apply faithful_bind; [apply H|]. intros _. exact IH.
Qed.

Lemma faithful_for_fold {A B} (xs : list A) (body : B -> A -> @M St B) b :
  (forall b x, faithful gh (body b x)) -> faithful gh (for_fold xs body b).
Proof.
  intros H. revert b. induction xs as [|x rest IH]; intros b; simpl.
  - apply faithful_ret.
  - apply faithful_bind; [apply H|]. exact IH.
Qed.

Lemma faithful_of_loaded {row} (l : Roster.loaded row) :
  faithful gh (@of_loaded St row l).
Proof.
  destruct l; simpl;
    auto using faithful_ret, faithful_stop, faithful_bind, faithful_print.
Qed.

End Faithful.

End FaithfulFacts.

Create HintDb faithful.
Create HintDb completes.

#[export] Hint Resolve
  FaithfulFacts.faithful_ret FaithfulFacts.faithful_stop
  FaithfulFacts.faithful_print FaithfulFacts.faithful_call
  FaithfulFacts.faithful_bind FaithfulFacts.faithful_if
  FaithfulFacts.faithful_for_each FaithfulFacts.faithful_for_fold
  FaithfulFacts.faithful_of_loaded : faithful.

#[export] Hint Resolve
  GhFacts.completes_ret GhFacts.completes_print GhFacts.completes_call
  GhFacts.completes_bind GhFacts.completes_if GhFacts.completes_for_each
  GhFacts.completes_for_fold : completes.

(** ** The invitation workflow *)

Module InviteFacts.
Import PyStr Json Roster Gh Props GhFacts FaithfulFacts InviteToOrg InviteSpec.

Section Program.
Context {St : Type}.
Variable gh : remote St.

Lemma faithful_turn a t s : faithful gh (turn gh a t s).
Proof.
  unfold turn, is_member, has_pending, resolve_uid, invite.
  apply faithful_bind; [auto with faithful|]. intros member.
  apply faithful_if; [auto with faithful|].
  apply faithful_bind; [auto with faithful|]. intros pending.
  apply faithful_if; [auto with faithful|].
  apply faithful_if; [auto with faithful|].
  apply faithful_bind; [auto with faithful|]. intros [id|];
    auto 8 with faithful.
Qed.

Lemma faithful_reconcile a students : faithful gh (reconcile gh a students).
Proof.
  unfold reconcile. apply faithful_bind.
  - apply faithful_for_fold. intros. apply faithful_turn.
  - intros t. auto with faithful.
Qed.

Lemma faithful_main a : faithful gh (main gh a).
Proof.
  unfold main, gh_prechecks, run.
  apply faithful_bind; [auto 10 with faithful|]. intros _.
  apply faithful_bind; [auto with faithful|]. intros rows.
  apply faithful_reconcile.
Qed.

(** One person: the turn completes, and its trace is one of the six
    ways of the spec. *)
Lemma turn_decided a t s st :
  exists o,
    result_of (turn gh a t s) st = Done (bump t o)
    /\ decided a (username s) (trace_of (turn gh a t s) st) o.
Proof.
  unfold result_of, trace_of, turn, is_member, has_pending, resolve_uid, invite.
  set (u := username s).
  destruct (contains_char at_sign u) eqn:Eat; cbn [negb].
  - (* an e-mail address: the membership is not asked *)
    unfold bind at 1. cbn [ret].
    unfold bind, call, ret, print.
    destruct (gh st (ListInvitations (org a) u)) as [r st1] eqn:E1.
    destruct (nonempty (strip (stdout r))) eqn:Ep.
    + exists Skipped. split; [reflexivity|].
      apply (D_pending a u [] r); [now constructor|exact Ep].
    + destruct (dry_run a) eqn:Ed.
      * exists CountedDry. split; [reflexivity|].
        apply (D_dry a u [] r); [now constructor|exact Ep|exact Ed].
      * destruct (gh st1 (GetUserId u)) as [r' st2] eqn:E2.
        destruct (if succeeded r' then py_int (strip (stdout r')) else None)
          as [id|] eqn:Er.
        -- destruct (gh st2 (PostInvitation (org a) id (role_name (role a))))
             as [r'' st3] eqn:E3.
           destruct (succeeded r'') eqn:Es.
           ++ exists InvitedNow. split; [reflexivity|].
              now apply (D_invited a u [] r r' id r''); [constructor| | | |].
           ++ exists Failed. split; [reflexivity|].
              now apply (D_refused a u [] r r' id r''); [constructor| | | |].
        -- exists Failed. split; [reflexivity|].
           now apply (D_unresolved a u [] r r'); [constructor| | |].
  - unfold bind, call, ret, print.
    destruct (gh st (GetOrgMembership (org a) u)) as [r0 st0] eqn:E0.
    destruct (succeeded r0) eqn:Em.
    + exists Skipped. split; [reflexivity|]. now apply D_member.
    + destruct (gh st0 (ListInvitations (org a) u)) as [r st1] eqn:E1.
      destruct (nonempty (strip (stdout r))) eqn:Ep.
      * exists Skipped. split; [reflexivity|].
        apply (D_pending a u [_] r); [now constructor|exact Ep].
      * destruct (dry_run a) eqn:Ed.
        -- exists CountedDry. split; [reflexivity|].
           apply (D_dry a u [_] r); [now constructor|exact Ep|exact Ed].
        -- destruct (gh st1 (GetUserId u)) as [r' st2] eqn:E2.
           destruct (if succeeded r' then py_int (strip (stdout r')) else None)
             as [id|] eqn:Er.
           ++ destruct (gh st2 (PostInvitation (org a) id (role_name (role a))))
                as [r'' st3] eqn:E3.
              destruct (succeeded r'') eqn:Es.
              ** exists InvitedNow. split; [reflexivity|].
                 now apply (D_invited a u [_] r r' id r'');
                   [constructor| | | |].
              ** exists Failed. split; [reflexivity|].
                 now apply (D_refused a u [_] r r' id r'');
                   [constructor| | | |].
           ++ exists Failed. split; [reflexivity|].
              now apply (D_unresolved a u [_] r r'); [constructor| | |].
Qed.

(** The loop: one decision per person, in the order of the list. *)
Lemma loop_decided a students t st :
  exists os,
    result_of (for_fold students (turn gh a) t) st = Done (fold_left bump os t)
    /\ decided_all a students (trace_of (for_fold students (turn gh a) t) st) os.
Proof.
  revert t st. induction students as [|s rest IH]; intros t st.
  - exists []. split; [reflexivity|constructor].
  - destruct (turn_decided a t s st) as [o [Hr Hd]].
    cbn [for_fold]. unfold result_of, trace_of, bind in *.
    destruct (turn gh a t s st) as [[r1 st1] tr1]. cbn [fst snd] in *. subst r1.
    destruct (IH (bump t o) st1) as [os [Hr' Hd']].
    destruct (for_fold rest (turn gh a) (bump t o) st1) as [[r2 st2] tr2].
    cbn [fst snd] in *. subst r2.
    exists (o :: os). split; [reflexivity|]. now constructor.
Qed.

(** The checks before the roster is read: they pass, or the program
    exits with the return code of [gh], which is not zero. *)
Lemma gh_prechecks_spec org st :
  each preliminary (trace_of (gh_prechecks gh org) st)
  /\ (result_of (gh_prechecks gh org) st = Done tt
      \/ exists code,
           result_of (gh_prechecks gh org) st = Stop (SysExit code)
           /\ code <> 0%Z).
Proof.
  unfold gh_prechecks, run, result_of, trace_of, bind, call, ret, stop, succeeded.
  destruct (gh st Version) as [r1 st1].
  destruct (Z.eqb_spec (returncode r1) 0) as [e1|n1]; cbn [fst snd app].
  2:{ split; [now repeat constructor|]. right. now exists (returncode r1). }
  destruct (gh st1 AuthStatus) as [r2 st2].
  destruct (Z.eqb_spec (returncode r2) 0) as [e2|n2]; cbn [fst snd app].
  2:{ split; [now repeat constructor|]. right. now exists (returncode r2). }
  destruct (gh st2 (GetOrg org)) as [r3 st3].
  destruct (Z.eqb_spec (returncode r3) 0) as [e3|n3]; cbn [fst snd app].
  2:{ split; [now repeat constructor|]. right. now exists (returncode r3). }
  split; [now repeat constructor|]. now left.
Qed.

(** A roster without a valid record: [main] stops with a code that is
    not zero, after the checks and before any other call. *)
Lemma invite_main_no_students a st :
  load_students (file a) = NoStudents ->
  (exists code,
      result_of (main gh a) st = Stop (SysExit code) /\ code <> 0%Z)
  /\ each preliminary (trace_of (main gh a) st).
Proof.
  intros Hl. unfold main. rewrite Hl.
  destruct (gh_prechecks_spec (org a) st) as [Ht Hr].
  unfold result_of, trace_of, bind in *.
  destruct (gh_prechecks gh (org a) st) as [[r st1] tr1]. cbn [fst snd] in *.
  destruct Hr as [->|[code [-> Hc]]].
  - unfold of_loaded, bind, print, stop. cbn [fst snd app]. split.
    + exists 1%Z. now split.
    + apply each_app; [exact Ht|now repeat constructor].
  - split; [now exists code|exact Ht].
Qed.

(** *** Dry runs *)

Lemma harmless_prechecks org : always (each harmless) (gh_prechecks gh org).
Proof.
  intros st. destruct (gh_prechecks_spec org st) as [H _].
  unfold each in *. eapply Forall_impl; [|exact H].
  intros [c r|n]; simpl; [|easy]. now destruct c.
Qed.

Lemma harmless_of_loaded {row} (l : loaded row) :
  always (each harmless) (@of_loaded St row l).
Proof. intros st. destruct l; cbn; now repeat constructor. Qed.

Lemma harmless_turn a t s :
  dry_run a = true -> always (each harmless) (turn gh a t s).
Proof.
  intros Hd st. destruct (turn_decided a t s st) as [o [_ H]].
  inversion H as [r ? ?|pre r Hp ?|pre r Hp ? ?|pre r r' Hp ? D
                  |pre r r' id r'' Hp ? D|pre r r' id r'' Hp ? D];
    try congruence; try (now repeat constructor);
    apply each_app; try (now repeat constructor);
    inversion Hp; now repeat constructor.
Qed.

Lemma invite_harmless_main a :
  dry_run a = true -> always (each harmless) (main gh a).
Proof.
  intros Hd. unfold main, reconcile.
  apply all_bind; [apply harmless_prechecks|]. intros _.
  apply all_bind; [apply harmless_of_loaded|]. intros rows.
  apply all_bind.
  - apply all_for_fold. intros. now apply harmless_turn.
  - intros t. apply all_bind; [now apply all_print|].
    intros _. apply all_ret.
Qed.

Lemma invite_completes_reconcile a students : completes (reconcile gh a students).
Proof.
  intros st. unfold reconcile, result_of, bind.
  destruct (loop_decided a students tally0 st) as [os [Hr _]].
  unfold result_of in Hr.
  destruct (for_fold students (turn gh a) tally0 st) as [[r st1] tr1].
  cbn [fst snd] in *. subst r. cbn. eauto.
Qed.

End Program.

End InviteFacts.

(** ** The team workflow *)

Module ManageFacts.
Import PyStr PyStrFacts Json Roster Gh Props GhFacts FaithfulFacts Slug SlugFacts.
Import ManageGroups.

Lemma slugify_wf name : slug_wf (slugify name) = true.
Proof.
  unfold slug_wf, slugify, lift.
  rewrite list_ascii_of_string_of_list_ascii. apply slug_text_wf.
Qed.

(** *** Guarded writes *)

Lemma guarded_any prev tr : guarded None tr -> guarded prev tr.
Proof.
  destruct tr as [|e rest]; [easy|]. simpl.
  intros [H1 H2]. split; [|exact H2].
  destruct e as [c r|n]; [|exact I]. now destruct c.
Qed.

Lemma guarded_app prev t1 t2 :
  guarded prev t1 -> guarded None t2 -> guarded prev (t1 ++ t2).
Proof.
  revert prev. induction t1 as [|e rest IH]; intros prev H1 H2.
  - now apply guarded_any.
  - destruct H1 as [He Hr]. split; [exact He|]. now apply IH.
Qed.

Lemma guarded_split prev tr pre org slug u role r post :
  guarded prev tr ->
  tr = pre ++ Call (PutTeamMembership org slug u role) r :: post ->
  (pre = [] /\ exists q,
      prev = Some (Call (GetTeamMembership org slug u) q)
      /\ says_maintainer q = false)
  \/ (exists pre' q,
        pre = pre' ++ [Call (GetTeamMembership org slug u) q]
        /\ says_maintainer q = false).
Proof.
  revert prev tr. induction pre as [|e pre IH]; intros prev tr Hg ->.
  - left. split; [reflexivity|]. destruct Hg as [Hg _].
    destruct prev as [[c q|n]|]; try easy.
    destruct c; try easy. destruct Hg as [-> [-> [-> Hq]]]. now exists q.
  - right. destruct Hg as [_ Hg].
    destruct (IH (Some e) _ Hg eq_refl) as [[-> [q [He Hq]]]|[pre' [q [-> Hq]]]].
    + injection He as ->. now exists [], q.
    + now exists (e :: pre'), q.
Qed.

Lemma guarded_writes tr : guarded None tr -> writes_guarded tr.
Proof.
  intros Hg pre org slug u role r post E.
  destruct (guarded_split None tr pre org slug u role r post Hg E)
    as [[_ [q [H _]]]|H]; [discriminate|exact H].
Qed.

Section Program.
Context {St : Type}.
Variable gh : remote St.

(** *** The checks and the empty roster *)

Lemma gh_ok_spec org st :
  each preliminary (trace_of (gh_ok gh org) st)
  /\ (result_of (gh_ok gh org) st = Done tt
      \/ result_of (gh_ok gh org) st = Stop (SysExit 1)).
Proof.
  unfold gh_ok, result_of, trace_of, bind, call, ret, stop, print.
  destruct (gh st AuthStatus) as [r1 st1].
  destruct (succeeded r1); cbn [negb fst snd app].
  2:{ split; [now repeat constructor|now right]. }
  destruct (gh st1 (GetOrg org)) as [r2 st2].
  destruct (succeeded r2); cbn [negb fst snd app].
  2:{ split; [now repeat constructor|now right]. }
  split; [now repeat constructor|now left].
Qed.

Lemma teams_main_no_students a st :
  load_students (file a) = NoStudents ->
  (exists code,
      result_of (main gh a) st = Stop (SysExit code) /\ code <> 0%Z)
  /\ each preliminary (trace_of (main gh a) st).
Proof.
  intros Hl. unfold main. rewrite Hl.
  destruct (gh_ok_spec (org a) st) as [Ht Hr].
  unfold result_of, trace_of, bind in *.
  destruct (gh_ok gh (org a) st) as [[r st1] tr1]. cbn [fst snd] in *.
  destruct Hr as [->| ->].
  - unfold of_loaded, bind, print, stop. cbn [fst snd app]. split.
    + exists 1%Z. now split.
    + apply each_app; [exact Ht|now repeat constructor].
  - split; [|exact Ht]. exists 1%Z. now split.
Qed.

(** *** Dry runs *)

Lemma harmless_gh_ok org : always (each harmless) (gh_ok gh org).
Proof.
  intros st. destruct (gh_ok_spec org st) as [H _].
  unfold each in *. eapply Forall_impl; [|exact H].
  intros [c r|n]; simpl; [|easy]. now destruct c.
Qed.

Lemma harmless_team_membership org slug u :
  always (each harmless) (team_membership gh org slug u).
Proof.
  unfold team_membership. apply all_bind; [now apply all_call|].
  intros cp. apply all_ret.
Qed.

Lemma harmless_ensure_instructor a slug u :
  dry_run a = true -> always (each harmless) (ensure_instructor gh a slug u).
Proof.
  intros Hd. unfold ensure_instructor. rewrite Hd.
  apply all_bind; [apply harmless_team_membership|]. intros role_now.
  repeat apply all_if; now apply all_print.
Qed.

Lemma harmless_ensure_student a slug u :
  dry_run a = true -> always (each harmless) (ensure_student gh a slug u).
Proof.
  intros Hd. unfold ensure_student. rewrite Hd.
  apply all_bind; [apply harmless_team_membership|]. intros [r|].
  - apply all_if; now apply all_print.
  - now apply all_print.
Qed.

Lemma harmless_ensure_team a name slug :
  dry_run a = true -> always (each harmless) (ensure_team gh a name slug).
Proof.
  intros Hd. unfold ensure_team, team_exists. rewrite Hd.
  apply all_bind.
  - apply all_bind; [now apply all_call|]. intros cp. apply all_ret.
  - intros e. apply all_if; now apply all_print.
Qed.

Lemma harmless_reconcile a students :
  dry_run a = true -> always (each harmless) (reconcile gh a students).
Proof.
  intros Hd. unfold reconcile.
  apply all_bind; [|intros _; now apply all_print].
  apply all_for_each. intros item _. unfold turn.
  apply all_bind; [now apply harmless_ensure_team|]. intros _.
  apply all_bind; [|intros _].
  - apply all_for_each. intros u _. now apply harmless_ensure_instructor.
  - apply all_for_each. intros u _. now apply harmless_ensure_student.
Qed.

Lemma teams_harmless_main a :
  dry_run a = true -> always (each harmless) (main gh a).
Proof.
  intros Hd. unfold main.
  apply all_bind; [apply harmless_gh_ok|]. intros _.
  apply all_bind; [apply InviteFacts.harmless_of_loaded|]. intros rows.
  now apply harmless_reconcile.
Qed.

Lemma completes_team_membership org slug u :
  completes (team_membership gh org slug u).
Proof. unfold team_membership. auto with completes. Qed.

Lemma teams_completes_reconcile a students :
  dry_run a = true -> completes (reconcile gh a students).
Proof.
  intros Hd. unfold reconcile.
  apply completes_bind; [|auto with completes].
  apply completes_for_each. intros item. unfold turn.
  apply completes_bind; [|intros _; apply completes_bind; [|intros _]].
  - unfold ensure_team, team_exists. rewrite Hd. auto 6 with completes.
  - apply completes_for_each. intros u. unfold ensure_instructor. rewrite Hd.
    apply completes_bind; [apply completes_team_membership|].
    intros r. auto with completes.
  - apply completes_for_each. intros u. unfold ensure_student. rewrite Hd.
    apply completes_bind; [apply completes_team_membership|].
    intros [r|]; auto with completes.
Qed.

(** *** The team slug in the paths *)

Lemma paths_team_membership org slug u :
  slug_wf slug = true ->
  always (each slug_in_path_wf) (team_membership gh org slug u).
Proof.
  intros Hw. unfold team_membership. apply all_bind; [now apply all_call|].
  intros cp. apply all_ret.
Qed.

Lemma paths_add_to_team org slug u role :
  slug_wf slug = true ->
  always (each slug_in_path_wf) (add_to_team gh org slug u role).
Proof.
  intros Hw. unfold add_to_team. apply all_bind; [now apply all_call|].
  intros cp. apply all_if; [apply all_ret|].
  apply all_bind; [now apply all_print|]. intros _. apply all_ret.
Qed.

Lemma paths_write_then_print org slug u role (k : bool -> note) :
  slug_wf slug = true ->
  always (each slug_in_path_wf)
    (ok <- add_to_team gh org slug u role ;; print (k ok)).
Proof.
  intros Hw. apply all_bind; [now apply paths_add_to_team|].
  intros ok. now apply all_print.
Qed.

Lemma paths_ensure_instructor a slug u :
  slug_wf slug = true ->
  always (each slug_in_path_wf) (ensure_instructor gh a slug u).
Proof.
  intros Hw. unfold ensure_instructor.
  apply all_bind; [now apply paths_team_membership|]. intros role_now.
  repeat apply all_if; try (now apply all_print);
    now apply paths_write_then_print.
Qed.

Lemma paths_ensure_student a slug u :
  slug_wf slug = true ->
  always (each slug_in_path_wf) (ensure_student gh a slug u).
Proof.
  intros Hw. unfold ensure_student.
  apply all_bind; [now apply paths_team_membership|]. intros [r|];
    repeat apply all_if; try (now apply all_print);
    now apply paths_write_then_print.
Qed.

Lemma paths_create_team org name privacy description :
  always (each slug_in_path_wf) (create_team gh org name privacy description).
Proof.
  unfold create_team. apply all_bind; [now apply all_call|]. intros cp.
  apply all_if.
  - apply all_bind; [now apply all_print|]. intros _. apply all_stop.
  - unfold subscript_slug.
    destruct (if nonempty (strip (stdout cp)) then loads (stdout cp)
              else Parsed (JObj [])) as [[| | | | |fields]| |];
      try apply all_stop.
    apply all_if; [apply all_ret|apply all_stop].
Qed.

Lemma paths_ensure_team a name slug :
  slug_wf slug = true ->
  always (each slug_in_path_wf) (ensure_team gh a name slug).
Proof.
  intros Hw. unfold ensure_team, team_exists.
  apply all_bind.
  - apply all_bind; [now apply all_call|]. intros cp. apply all_ret.
  - intros e. repeat apply all_if; try (now apply all_print).
    apply all_bind; [apply paths_create_team|]. intros v. now apply all_print.
Qed.

Lemma paths_reconcile a students :
  always (each slug_in_path_wf) (reconcile gh a students).
Proof.
  unfold reconcile.
  apply all_bind; [|intros _; now apply all_print].
  apply all_for_each. intros item _. unfold turn.
  assert (Hw := slugify_wf (fst item)).
  apply all_bind; [now apply paths_ensure_team|]. intros _.
  apply all_bind; [|intros _].
  - apply all_for_each. intros u _. now apply paths_ensure_instructor.
  - apply all_for_each. intros u _. now apply paths_ensure_student.
Qed.

Lemma paths_main a : always (each slug_in_path_wf) (main gh a).
Proof.
  unfold main.
  apply all_bind.
  - intros st. destruct (gh_ok_spec (org a) st) as [H _].
    unfold each in *. eapply Forall_impl; [|exact H].
    intros [c r|n]; simpl; [|easy]. now destruct c.
  - intros _. apply all_bind; [|intros rows; apply paths_reconcile].
    intros st. destruct (load_students (file a)); cbn; now repeat constructor.
Qed.

(** *** Every write is guarded by its query *)

Lemma is_maintainer_reply q :
  is_role maintainer_role
    (if succeeded q
        && (String.eqb (strip (stdout q)) member_role
            || String.eqb (strip (stdout q)) maintainer_role)
     then Some (strip (stdout q)) else None)
  = says_maintainer q.
Proof.
  unfold says_maintainer.
  destruct (succeeded q); cbn [andb]; [|reflexivity].
  destruct (String.eqb (strip (stdout q)) maintainer_role) eqn:E.
  - rewrite orb_true_r. cbn. exact E.
  - rewrite orb_false_r.
    destruct (String.eqb (strip (stdout q)) member_role); cbn; [exact E|easy].
Qed.

Lemma guarded_ensure_instructor a slug u :
  always (guarded None) (ensure_instructor gh a slug u).
Proof.
  intros st.
  unfold trace_of, ensure_instructor, team_membership, add_to_team.
  unfold bind at 1. unfold bind at 1. unfold call at 1.
  destruct (gh st (GetTeamMembership (org a) slug u)) as [q st1].
  cbn [ret]. rewrite is_maintainer_reply.
  destruct (says_maintainer q) eqn:Eq; [cbn; tauto|].
  match goal with
  | |- context [is_role member_role ?x] => destruct (is_role member_role x)
  end;
    (destruct (dry_run a); [cbn; tauto|]);
    unfold bind, call, ret, print;
    destruct (gh st1 (PutTeamMembership (org a) slug u maintainer_role))
      as [r st2];
    destruct (succeeded r); cbn; tauto.
Qed.

Lemma guarded_ensure_student a slug u :
  always (guarded None) (ensure_student gh a slug u).
Proof.
  intros st.
  unfold trace_of, ensure_student, team_membership, add_to_team.
  unfold bind at 1. unfold bind at 1. unfold call at 1.
  destruct (gh st (GetTeamMembership (org a) slug u)) as [q st1].
  cbn [ret].
  assert (Hq : forall r,
             (if succeeded q
                 && (String.eqb (strip (stdout q)) member_role
                     || String.eqb (strip (stdout q)) maintainer_role)
              then Some (strip (stdout q)) else None) = Some r ->
             String.eqb r member_role || String.eqb r maintainer_role = true).
  { intros r. destruct (succeeded q); [|discriminate]. cbn [andb].
    destruct (_ || _) eqn:E; [|discriminate]. intros H. now injection H as <-. }
  assert (Hn : (if succeeded q
                   && (String.eqb (strip (stdout q)) member_role
                       || String.eqb (strip (stdout q)) maintainer_role)
                then Some (strip (stdout q)) else None) = None ->
               says_maintainer q = false).
  { unfold says_maintainer. destruct (succeeded q); [|easy]. cbn [andb].
    destruct (String.eqb (strip (stdout q)) maintainer_role);
      [now rewrite orb_true_r|easy]. }
  destruct (if succeeded q && _ then Some (strip (stdout q)) else None)
    as [r|] eqn:E.
  - rewrite (Hq r eq_refl). cbn. tauto.
  - specialize (Hn eq_refl).
    destruct (dry_run a); [cbn; tauto|].
    unfold bind, call, ret, print.
    destruct (gh st1 (PutTeamMembership (org a) slug u member_role))
      as [r st2].
    destruct (succeeded r); cbn; tauto.
Qed.

Lemma guarded_nil : guarded None [].
Proof. exact I. Qed.

Lemma guarded_None_app t1 t2 :
  guarded None t1 -> guarded None t2 -> guarded None (t1 ++ t2).
Proof. apply guarded_app. Qed.

Lemma guarded_ensure_team a name slug :
  always (guarded None) (ensure_team gh a name slug).
Proof.
  intros st.
  unfold trace_of, ensure_team, team_exists, create_team, subscript_slug.
  unfold bind, call, ret, print, stop.
  destruct (gh st (GetTeam (org a) slug)) as [r st1].
  destruct (succeeded r); [cbn; tauto|].
  destruct (dry_run a); [cbn; tauto|].
  destruct (gh st1 (PostTeam (org a) name (privacy_name (privacy a)) EmptyString))
    as [r' st2].
  destruct (succeeded r'); cbn [negb]; [|cbn; tauto].
  destruct (if nonempty (strip (stdout r')) then loads (stdout r')
            else Parsed (JObj [])) as [[| | | | |fields]| |];
    try (cbn; tauto).
  destruct (dict_has slug_key fields); cbn; tauto.
Qed.

Lemma guarded_reconcile a students :
  always (guarded None) (reconcile gh a students).
Proof.
  unfold reconcile.
  apply always_bind; [apply guarded_None_app| |].
  - apply always_for_each; [apply guarded_nil|apply guarded_None_app|].
    intros item _. unfold turn.
    apply always_bind; [apply guarded_None_app|apply guarded_ensure_team|].
    intros _.
    apply always_bind; [apply guarded_None_app| |intros _].
    + apply always_for_each; [apply guarded_nil|apply guarded_None_app|].
      intros u _. apply guarded_ensure_instructor.
    + apply always_for_each; [apply guarded_nil|apply guarded_None_app|].
      intros u _. apply guarded_ensure_student.
  - intros _. apply always_print. cbn. tauto.
Qed.

Lemma guarded_main a : always (guarded None) (main gh a).
Proof.
  unfold main.
  apply always_bind; [apply guarded_None_app| |intros _].
  - intros st.
    unfold trace_of, gh_ok, bind, call, ret, print, stop.
    destruct (gh st AuthStatus) as [r1 st1].
    destruct (succeeded r1); cbn [negb]; [|cbn; tauto].
    destruct (gh st1 (GetOrg (org a))) as [r2 st2].
    destruct (succeeded r2); cbn; tauto.
  - apply always_bind; [apply guarded_None_app| |intros rows].
    + intros st. destruct (load_students (file a)); cbn; tauto.
    + apply guarded_reconcile.
Qed.

(** A query that answers maintainer is all the two passes do. *)
Lemma instructor_left_alone a slug u st :
  says_maintainer (fst (gh st (GetTeamMembership (org a) slug u))) = true ->
  calls (trace_of (ensure_instructor gh a slug u) st)
  = [GetTeamMembership (org a) slug u].
Proof.
  unfold trace_of, ensure_instructor, team_membership.
  unfold bind at 1. unfold bind at 1. unfold call at 1.
  destruct (gh st (GetTeamMembership (org a) slug u)) as [q st1].
  cbn [ret fst]. rewrite is_maintainer_reply. now intros ->.
Qed.

Lemma student_left_alone a slug u st :
  says_maintainer (fst (gh st (GetTeamMembership (org a) slug u))) = true ->
  calls (trace_of (ensure_student gh a slug u) st)
  = [GetTeamMembership (org a) slug u].
Proof.
  unfold trace_of, ensure_student, team_membership.
  unfold bind at 1. unfold bind at 1. unfold call at 1.
  destruct (gh st (GetTeamMembership (org a) slug u)) as [q st1].
  cbn [ret fst]. unfold says_maintainer. intros H.
  apply andb_true_iff in H as [-> H]. rewrite H, orb_true_r. cbn [andb].
  now rewrite H, orb_true_r.
Qed.

End Program.

End ManageFacts.

(** ** Running twice *)

Module TwiceFacts.
Import PyStr Json Roster Gh Props GhFacts FaithfulFacts Contract.

Section Reads.
Context {St : Type}.
Variable gh : remote St.
Hypothesis reads : reads_keep_state gh.

Lemma genuine_read st c r rest st' :
  mutating c = false ->
  genuine gh st (Call c r :: rest) st' ->
  fst (gh st c) = r /\ genuine gh st rest st'.
Proof.
  intros Hc [Hr Hg]. split; [exact Hr|]. now rewrite (reads st c Hc) in Hg.
Qed.

Lemma call_read st c :
  mutating c = false -> call gh c st = (Done (fst (gh st c)), st, [Call c (fst (gh st c))]).
Proof.
  intros Hc. unfold call. specialize (reads st c Hc).
  destruct (gh st c) as [r st1]. simpl in *. now subst.
Qed.

End Reads.

(** Loops whose turns leave the state alone. *)
Section Still.
Context {St : Type}.
Variable P : list event -> Prop.
Hypothesis P_nil : P [].
Hypothesis P_app : forall t1 t2, P t1 -> P t2 -> P (t1 ++ t2).

Lemma for_each_still {A} (xs : list A) (body : A -> @M St unit) st :
  (forall x, In x xs -> exists tr, body x st = (Done tt, st, tr) /\ P tr) ->
  exists tr, for_each xs body st = (Done tt, st, tr) /\ P tr.
Proof.
  induction xs as [|x rest IH]; intros H; cbn [for_each].
  - exists []. now split.
  - destruct (H x (or_introl eq_refl)) as [tr1 [E1 P1]].
    destruct IH as [tr2 [E2 P2]]; [intros y Hy; apply H; now right|].
    exists (tr1 ++ tr2). split; [|now apply P_app].
    now apply (bind_done _ _ st tt st tr1).
Qed.

End Still.

End TwiceFacts.

(** *** The invitation loop, twice *)

Module InviteTwice.
Import PyStr Json Roster Gh Props GhFacts FaithfulFacts Contract TwiceFacts.
Import InviteToOrg InviteSpec InviteFacts.

Section Program.
Context {St : Type}.
Variable gh : remote St.
Variable a : args.

Lemma invite_turn_in_place t s st :
  reads_keep_state gh ->
  settled gh (org a) st (username s) = true ->
  exists tr,
    turn gh a t s st = (Done (count_sk t), st, tr)
    /\ each harmless tr /\ each skip_note tr.
Proof.
  intros reads. unfold settled, member_now, pending_now, says_pending.
  unfold turn, is_member, has_pending.
  set (u := username s).
  assert (EL := call_read gh reads st (ListInvitations (org a) u) eq_refl).
  assert (EM := call_read gh reads st (GetOrgMembership (org a) u) eq_refl).
  destruct (contains_char at_sign u); cbn [negb andb orb]; intros H.
  - eexists. split.
    + eapply bind_done; [reflexivity|]. cbn beta iota.
      eapply bind_done.
      { eapply bind_done; [exact EL|reflexivity]. }
      rewrite H. eapply bind_done; reflexivity.
    + split; now repeat constructor.
  - destruct (succeeded (fst (gh st (GetOrgMembership (org a) u)))) eqn:Em.
    + eexists. split.
      * eapply bind_done.
        { eapply bind_done; [exact EM|reflexivity]. }
        rewrite Em. eapply bind_done; reflexivity.
      * split; now repeat constructor.
    + cbn [orb] in H. eexists. split.
      * eapply bind_done.
        { eapply bind_done; [exact EM|reflexivity]. }
        rewrite Em. eapply bind_done.
        { eapply bind_done; [exact EL|reflexivity]. }
        rewrite H. eapply bind_done; reflexivity.
      * split; now repeat constructor.
Qed.

Lemma loop_in_place students t st :
  reads_keep_state gh ->
  (forall s, In s students -> settled gh (org a) st (username s) = true) ->
  exists tr,
    for_fold students (turn gh a) t st
    = (Done {| ok := ok t;
               sk := sk t + Z.of_nat (List.length students);
               fail := fail t |}, st, tr)
    /\ each harmless tr /\ each skip_note tr.
Proof.
  intros reads. revert t. induction students as [|s rest IH]; intros t H.
  - exists []. cbn [for_fold List.length Z.of_nat]. rewrite Z.add_0_r.
    destruct t. repeat split; constructor.
  - destruct (invite_turn_in_place t s st reads (H s (or_introl eq_refl)))
      as [tr1 [E1 [H1 S1]]].
    destruct (IH (count_sk t)) as [tr2 [E2 [H2 S2]]];
      [intros y Hy; apply H; now right|].
    exists (tr1 ++ tr2). split; [|split; now apply each_app].
    cbn [for_fold]. erewrite bind_done; [|exact E1|exact E2].
    cbn [count_sk ok sk fail List.length]. rewrite Nat2Z.inj_succ.
    do 4 f_equal. lia.
Qed.

Lemma fail_bump t o : (fail t <= fail (bump t o))%Z.
Proof. destruct o; cbn; lia. Qed.

(** A turn of a run that is no dry run: it adds a failure, or it
    leaves the person settled and unsettles nobody. *)
Lemma invite_turn_settles t s st t' st' tr :
  invitations_kept gh (org a) -> dry_run a = false ->
  turn gh a t s st = (Done t', st', tr) ->
  (fail t <= fail t')%Z
  /\ (fail t' = fail t ->
      settled gh (org a) st' (username s) = true
      /\ forall v, settled gh (org a) st v = true ->
                   settled gh (org a) st' v = true).
Proof.
  intros [reads Hpending Hstable] Hdry E.
  destruct (turn_decided gh a t s st) as [o [Hr Hd]].
  assert (Hg := faithful_turn gh a t s st).
  unfold result_of, trace_of, state_of in *. rewrite E in *. cbn [fst snd] in *.
  injection Hr as ->. split; [apply fail_bump|].
  set (u := username s) in *.
  assert (Hpre : forall pre rest,
             not_a_member a u pre ->
             genuine gh st (pre ++ rest) st' -> genuine gh st rest st').
  { intros pre rest Hp G. destruct Hp as [_|r0 _ _]; [exact G|].
    now apply (genuine_read gh reads) in G as [_ G]. }
  inversion Hd as [r Hat Hs|pre r Hp Hs|pre r Hp Hs Hd'|pre r r' Hp Hs Hd' Hu
                   |pre r r' id r'' Hp Hs Hd' Hu Hi
                   |pre r r' id r'' Hp Hs Hd' Hu Hi]; subst; cbn; intros Hf;
    try lia; try congruence.
  - (* already a member *)
    apply (genuine_read gh reads) in Hg as [Hq Hg]; [|reflexivity].
    cbn in Hg. subst st'. split; [|easy].
    unfold settled, member_now. now rewrite Hat, Hq, Hs.
  - (* a pending invitation *)
    apply Hpre in Hg; [|exact Hp].
    apply (genuine_read gh reads) in Hg as [Hq Hg]; [|reflexivity].
    cbn in Hg. subst st'. split; [|easy].
    unfold settled, pending_now. rewrite Hq, Hs. apply orb_true_r.
  - (* invited *)
    apply Hpre in Hg; [|exact Hp].
    apply (genuine_read gh reads) in Hg as [Hq Hg]; [|reflexivity].
    apply (genuine_read gh reads) in Hg as [Hq' Hg]; [|reflexivity].
    cbn in Hg. destruct Hg as [Hq'' ->].
    split.
    + unfold settled. rewrite Hpending; [apply orb_true_r| |].
      * unfold uid_now. now rewrite Hq'.
      * now rewrite Hq''.
    + intros v Hv. now apply Hstable.
Qed.

Lemma loop_fail students t st t1 st1 tr1 :
  for_fold students (turn gh a) t st = (Done t1, st1, tr1) ->
  (fail t <= fail t1)%Z.
Proof.
  intros E. destruct (loop_decided gh a students t st) as [os [Hr _]].
  unfold result_of in Hr. rewrite E in Hr. cbn in Hr. injection Hr as ->.
  clear E. revert t. induction os as [|o os IH]; intros t; cbn; [lia|].
  specialize (IH (bump t o)). pose proof (fail_bump t o). lia.
Qed.

Lemma loop_settles students t st t1 st1 tr1 :
  invitations_kept gh (org a) -> dry_run a = false ->
  for_fold students (turn gh a) t st = (Done t1, st1, tr1) ->
  fail t1 = fail t ->
  (forall v, settled gh (org a) st v = true -> settled gh (org a) st1 v = true)
  /\ (forall s, In s students -> settled gh (org a) st1 (username s) = true).
Proof.
  intros K Hdry. revert t st tr1.
  induction students as [|s rest IH]; intros t st tr1 E Hf.
  - cbn in E. injection E as <- <- <-. now split.
  - cbn [for_fold] in E. apply bind_done_inv in E
      as [t' [st' [trA [trB [EA [EB ->]]]]]].
    destruct (invite_turn_settles t s st t' st' trA K Hdry EA) as [Hle Hs].
    pose proof (loop_fail rest t' st' t1 st1 trB EB) as Hle'.
    assert (Hf' : fail t' = fail t) by lia.
    destruct (Hs Hf') as [Hown Hkeep].
    destruct (IH t' st' trB EB) as [Hkeep' Hrest]; [lia|].
    split.
    + intros v Hv. now apply Hkeep', Hkeep.
    + intros s' [<-|Hin]; [now apply Hkeep'|now apply Hrest].
Qed.

(** The loop of invite_to_org.py, run again after a run without a
    failure, skips everybody. *)
Lemma invite_reconcile_twice students st t1 st1 tr1 :
  invitations_kept gh (org a) -> dry_run a = false ->
  reconcile gh a students st = (Done t1, st1, tr1) ->
  fail t1 = 0%Z ->
  exists tr2,
    reconcile gh a students st1
    = (Done {| ok := 0; sk := Z.of_nat (List.length students); fail := 0 |},
       st1, tr2)
    /\ each harmless tr2 /\ each skip_note tr2.
Proof.
  intros K Hdry E Hf. unfold reconcile in E.
  apply bind_done_inv in E as [t [st' [trA [trB [EA [EB ->]]]]]].
  cbn in EB. injection EB as -> -> <-.
  destruct (loop_settles students tally0 st t1 st1 trA K Hdry EA Hf)
    as [_ Hall].
  destruct (loop_in_place students tally0 st1 (ik_reads _ _ K) Hall)
    as [tr2 [E2 [H2 S2]]].
  eexists. split.
  - unfold reconcile. eapply bind_done; [exact E2|]. reflexivity.
  - split; (apply each_app; [assumption|now repeat constructor]).
Qed.

End Program.

End InviteTwice.

(** *** The team loop, twice *)

Module ManageTwice.
Import PyStr Json Roster Gh Props GhFacts FaithfulFacts Contract TwiceFacts.
Import ManageGroups ManageFacts.

Section Program.
Context {St : Type}.
Variable gh : remote St.
Variable a : args.
Hypothesis K : teams_kept gh (org a).

Lemma reads : reads_keep_state gh.
Proof. exact (tk_reads _ _ K). Qed.

Lemma team_membership_read slug u st :
  team_membership gh (org a) slug u st
  = (Done (role_now gh (org a) st slug u), st,
     [Call (GetTeamMembership (org a) slug u)
           (fst (gh st (GetTeamMembership (org a) slug u)))]).
Proof.
  unfold team_membership.
  eapply bind_done_as;
    [exact (call_read gh reads st (GetTeamMembership (org a) slug u) eq_refl)
    |reflexivity|reflexivity].
Qed.

Lemma role_now_some st slug u r :
  role_now gh (org a) st slug u = Some r ->
  String.eqb r member_role || String.eqb r maintainer_role = true.
Proof.
  unfold role_now. destruct (succeeded _); [|discriminate]. cbn [andb].
  destruct (_ || _) eqn:E; [|discriminate]. intros H. now injection H as <-.
Qed.

Lemma met_some st slug u m :
  met gh (org a) st slug u m = true ->
  exists r, role_now gh (org a) st slug u = Some r.
Proof.
  unfold met. destruct (role_now gh (org a) st slug u) as [r|]; [now exists r|].
  now destruct m.
Qed.

Lemma keeps_refl st : keeps gh (org a) st st.
Proof. now split. Qed.

Lemma keeps_trans st1 st2 st3 :
  keeps gh (org a) st1 st2 -> keeps gh (org a) st2 st3 ->
  keeps gh (org a) st1 st3.
Proof. intros [A1 B1] [A2 B2]. split; auto. Qed.

(** **** The second run *)

Lemma instructor_in_place slug u st :
  met gh (org a) st slug u true = true ->
  exists tr,
    ensure_instructor gh a slug u st = (Done tt, st, tr)
    /\ each harmless tr /\ each in_place_note tr.
Proof.
  unfold met. intros H. eexists. split.
  - unfold ensure_instructor. eapply bind_done; [apply team_membership_read|].
    rewrite H. reflexivity.
  - split; now repeat constructor.
Qed.

Lemma student_in_place slug u st :
  met gh (org a) st slug u false = true ->
  exists tr,
    ensure_student gh a slug u st = (Done tt, st, tr)
    /\ each harmless tr /\ each in_place_note tr.
Proof.
  unfold met, in_team. intros H.
  destruct (role_now gh (org a) st slug u) as [r|] eqn:E; [|discriminate].
  eexists. split.
  - unfold ensure_student. eapply bind_done; [apply team_membership_read|].
    rewrite E, H. reflexivity.
  - split; now repeat constructor.
Qed.

Lemma team_found name slug st :
  exists_now gh (org a) st slug = true ->
  exists tr,
    ensure_team gh a name slug st = (Done tt, st, tr)
    /\ each harmless tr /\ each in_place_note tr.
Proof.
  unfold exists_now. intros H. eexists. split.
  - unfold ensure_team, team_exists. eapply bind_done.
    + eapply bind_done;
        [exact (call_read gh reads st (GetTeam (org a) slug) eq_refl)|].
      reflexivity.
    + rewrite H. reflexivity.
  - split; now repeat constructor.
Qed.

Lemma both_app (t1 t2 : list event) :
  each harmless t1 /\ each in_place_note t1 ->
  each harmless t2 /\ each in_place_note t2 ->
  each harmless (t1 ++ t2) /\ each in_place_note (t1 ++ t2).
Proof. intros [A1 B1] [A2 B2]. split; now apply each_app. Qed.

Lemma both_nil : each harmless [] /\ each in_place_note [].
Proof. split; constructor. Qed.

Lemma teams_turn_in_place instr item st :
  team_in_place gh (org a) instr st item ->
  exists tr,
    turn gh a instr item st = (Done tt, st, tr)
    /\ each harmless tr /\ each in_place_note tr.
Proof.
  intros [He [Hi Hs]].
  destruct (team_found (fst item) (Slug.slugify (fst item)) st He)
    as [tr1 [E1 P1]].
  destruct (for_each_still _ both_nil both_app instr
              (ensure_instructor gh a (Slug.slugify (fst item))) st)
    as [tr2 [E2 P2]].
  { intros u Hu. now apply instructor_in_place, Hi. }
  destruct (for_each_still _ both_nil both_app (snd item)
              (ensure_student gh a (Slug.slugify (fst item))) st)
    as [tr3 [E3 P3]].
  { intros u Hu. now apply student_in_place, Hs. }
  exists (tr1 ++ tr2 ++ tr3). split.
  - unfold turn. eapply bind_done; [exact E1|].
    eapply bind_done; [exact E2|exact E3].
  - apply both_app; [exact P1|now apply both_app].
Qed.

(** **** The first run *)

Hypothesis wet : dry_run a = false.

Lemma put_keeps slug u role st :
  role = member_role \/ role = maintainer_role ->
  (role = member_role -> role_now gh (org a) st slug u = None) ->
  succeeded (fst (gh st (PutTeamMembership (org a) slug u role))) = true ->
  keeps gh (org a) st (snd (gh st (PutTeamMembership (org a) slug u role)))
  /\ role_now gh (org a) (snd (gh st (PutTeamMembership (org a) slug u role)))
              slug u = Some role.
Proof.
  intros Hrole Hnone Hok.
  pose proof (tk_written _ _ K st slug u role Hrole Hok) as Hw.
  split; [split|exact Hw].
  - intros slug' u' m Hm.
    destruct (String.eqb_spec slug' slug) as [->|Hs];
      [destruct (String.eqb_spec u' u) as [->|Hu]|].
    + unfold met in *. rewrite Hw. destruct Hrole as [->| ->].
      * rewrite (Hnone eq_refl) in Hm. now destruct m.
      * now destruct m.
    + destruct (met_some st slug u' m Hm) as [r Hr].
      unfold met in *. rewrite Hr in Hm.
      rewrite (tk_others _ _ K st slug u role slug u' r); [exact Hm| |exact Hr].
      intros H. now injection H.
    + destruct (met_some st slug' u' m Hm) as [r Hr].
      unfold met in *. rewrite Hr in Hm.
      rewrite (tk_others _ _ K st slug u role slug' u' r); [exact Hm| |exact Hr].
      intros H. now injection H.
  - intros slug' H. now apply (tk_found _ _ K).
Qed.

Lemma write_then_print_inv slug u role (k : bool -> note) st st' tr :
  (ok <- add_to_team gh (org a) slug u role ;; print (k ok)) st
  = (Done tt, st', tr) ->
  each write_accepted tr ->
  succeeded (fst (gh st (PutTeamMembership (org a) slug u role))) = true
  /\ st' = snd (gh st (PutTeamMembership (org a) slug u role)).
Proof.
  unfold add_to_team, bind, call, ret, print.
  destruct (gh st (PutTeamMembership (org a) slug u role)) as [r st2].
  cbn [fst snd].
  destruct (succeeded r) eqn:E; intros H; injection H as <- <-; intros Hw.
  - now split.
  - inversion Hw as [|e l He _]; subst. cbn in He. congruence.
Qed.

Lemma print_inv n (st st' : St) tr :
  print n st = (Done tt, st', tr) -> st' = st.
Proof. unfold print. intros H. now injection H. Qed.

Lemma instructor_settles slug u st st' tr :
  ensure_instructor gh a slug u st = (Done tt, st', tr) ->
  each write_accepted tr ->
  keeps gh (org a) st st' /\ met gh (org a) st' slug u true = true.
Proof.
  unfold ensure_instructor. intros E Hw.
  apply bind_done_inv in E as [now [st0 [tr0 [tr1 [E0 [E1 ->]]]]]].
  rewrite team_membership_read in E0. injection E0 as <- <- <-.
  apply Forall_app in Hw as [_ Hw].
  destruct (is_role maintainer_role (role_now gh (org a) st slug u)) eqn:Em.
  - apply print_inv in E1. subst st'. split; [apply keeps_refl|exact Em].
  - rewrite wet in E1.
    assert (E : (ok <- add_to_team gh (org a) slug u maintainer_role ;;
                 print ((if is_role member_role (role_now gh (org a) st slug u)
                         then Promoted else InstructorAdded) u ok)) st
                = (Done tt, st', tr1))
      by now destruct (is_role member_role _).
    apply write_then_print_inv in E as [Hok ->]; [|exact Hw].
    destruct (put_keeps slug u maintainer_role st) as [Hk Hr];
      [now right|discriminate|exact Hok|].
    split; [exact Hk|]. unfold met. now rewrite Hr.
Qed.

Lemma student_settles slug u st st' tr :
  ensure_student gh a slug u st = (Done tt, st', tr) ->
  each write_accepted tr ->
  keeps gh (org a) st st' /\ met gh (org a) st' slug u false = true.
Proof.
  unfold ensure_student. intros E Hw.
  apply bind_done_inv in E as [now [st0 [tr0 [tr1 [E0 [E1 ->]]]]]].
  rewrite team_membership_read in E0. injection E0 as <- <- <-.
  apply Forall_app in Hw as [_ Hw].
  destruct (role_now gh (org a) st slug u) as [r|] eqn:Er.
  - rewrite (role_now_some st slug u r Er) in E1.
    apply print_inv in E1. subst st'. split; [apply keeps_refl|].
    unfold met, in_team. rewrite Er. now apply (role_now_some st slug u).
  - rewrite wet in E1.
    apply write_then_print_inv in E1 as [Hok ->]; [|exact Hw].
    destruct (put_keeps slug u member_role st) as [Hk Hr];
      [now left|easy|exact Hok|].
    split; [exact Hk|]. unfold met. now rewrite Hr.
Qed.

Lemma create_team_done name p d st v st1 tr :
  create_team gh (org a) name p d st = (Done v, st1, tr) ->
  succeeded (fst (gh st (PostTeam (org a) name (privacy_name p) d))) = true
  /\ st1 = snd (gh st (PostTeam (org a) name (privacy_name p) d)).
Proof.
  unfold create_team, subscript_slug, bind, call, ret, print, stop.
  destruct (gh st (PostTeam (org a) name (privacy_name p) d)) as [r st2].
  cbn [fst snd]. destruct (succeeded r); cbn [negb]; [|discriminate].
  destruct (if nonempty (strip (stdout r)) then loads (stdout r)
            else Parsed (JObj [])) as [[| | | | |fields]| |];
    try discriminate.
  destruct (dict_has slug_key fields); [|discriminate].
  intros H. injection H as _ <- _. now split.
Qed.

Lemma team_settles name st st' tr :
  ensure_team gh a name (Slug.slugify name) st = (Done tt, st', tr) ->
  keeps gh (org a) st st'
  /\ exists_now gh (org a) st' (Slug.slugify name) = true.
Proof.
  unfold ensure_team, team_exists. intros E.
  apply bind_done_inv in E as [e [st0 [tr0 [tr1 [E0 [E1 ->]]]]]].
  apply bind_done_inv in E0 as [cp [st00 [tr00 [tr01 [E00 [E01 ->]]]]]].
  rewrite (call_read gh reads st (GetTeam (org a) (Slug.slugify name)) eq_refl)
    in E00.
  injection E00 as <- <- <-. cbn in E01. injection E01 as <- <- <-.
  destruct (succeeded (fst (gh st (GetTeam (org a) (Slug.slugify name)))))
    eqn:Ee.
  - apply print_inv in E1. subst st'. split; [apply keeps_refl|exact Ee].
  - rewrite wet in E1.
    apply bind_done_inv in E1 as [v [st1 [trc [trp [Ec [Ep ->]]]]]].
    apply print_inv in Ep. subst st'.
    apply create_team_done in Ec as [Hok ->].
    split; [split|].
    + intros slug u m Hm. destruct (met_some st slug u m Hm) as [r Hr].
      unfold met in *. rewrite Hr in Hm.
      now rewrite (tk_new_team _ _ K st name _ _ slug u r Hr).
    + intros slug H. now apply (tk_found _ _ K).
    + now apply (tk_created _ _ K).
Qed.

Lemma for_each_settles {A} (goal : A -> St -> Prop) (xs : list A)
  (body : A -> @M St unit) :
  (forall x st st' tr,
      In x xs -> body x st = (Done tt, st', tr) -> each write_accepted tr ->
      keeps gh (org a) st st' /\ goal x st') ->
  (forall x st st', keeps gh (org a) st st' -> goal x st -> goal x st') ->
  forall st st' tr,
    for_each xs body st = (Done tt, st', tr) -> each write_accepted tr ->
    keeps gh (org a) st st' /\ forall x, In x xs -> goal x st'.
Proof.
  intros Hbody Hmono. induction xs as [|x rest IH]; intros st st' tr E Hw.
  - cbn in E. injection E as <- <-. split; [apply keeps_refl|easy].
  - cbn [for_each] in E.
    apply bind_done_inv in E as [[] [st1 [tr1 [tr2 [E1 [E2 ->]]]]]].
    apply Forall_app in Hw as [Hw1 Hw2].
    destruct (Hbody x st st1 tr1 (or_introl eq_refl) E1 Hw1) as [K1 G1].
    destruct IH with (st := st1) (st' := st') (tr := tr2) as [K2 G2];
      [intros; eapply Hbody; eauto; now right|exact E2|exact Hw2|].
    split; [now apply (keeps_trans st st1 st')|].
    intros y [<-|Hy]; [now apply (Hmono x st1 st')|now apply G2].
Qed.

Lemma teams_turn_settles instr item st st' tr :
  turn gh a instr item st = (Done tt, st', tr) ->
  each write_accepted tr ->
  keeps gh (org a) st st' /\ team_in_place gh (org a) instr st' item.
Proof.
  unfold turn. intros E Hw.
  apply bind_done_inv in E as [[] [st1 [tr1 [tr' [E1 [E' ->]]]]]].
  apply bind_done_inv in E' as [[] [st2 [tr2 [tr3 [E2 [E3 ->]]]]]].
  apply Forall_app in Hw as [_ Hw]. apply Forall_app in Hw as [Hw2 Hw3].
  apply team_settles in E1 as [K1 G1].
  set (slug := Slug.slugify (fst item)) in *.
  destruct (for_each_settles (fun u st => met gh (org a) st slug u true = true)
              instr (ensure_instructor gh a slug)) with (st := st1) (st' := st2)
              (tr := tr2) as [K2 G2];
    [intros x s0 s0' t0 _ Eb Hb; now apply (instructor_settles slug x s0 s0' t0)
    |intros x s1 s2 [Hk _]; apply Hk|exact E2|exact Hw2|].
  destruct (for_each_settles (fun u st => met gh (org a) st slug u false = true)
              (snd item) (ensure_student gh a slug)) with (st := st2) (st' := st')
              (tr := tr3) as [K3 G3];
    [intros x s0 s0' t0 _ Eb Hb; now apply (student_settles slug x s0 s0' t0)
    |intros x s1 s2 [Hk _]; apply Hk|exact E3|exact Hw3|].
  split; [now apply (keeps_trans st st1 st'), (keeps_trans st1 st2 st')|].
  split; [|split].
  - now apply K3, K2.
  - intros u Hu. now apply K3, G2.
  - exact G3.
Qed.

Lemma team_in_place_kept instr item st st' :
  keeps gh (org a) st st' ->
  team_in_place gh (org a) instr st item ->
  team_in_place gh (org a) instr st' item.
Proof.
  intros [Km Ke] [He [Hi Hs]]. split; [|split].
  - now apply Ke.
  - intros u Hu. now apply Km, Hi.
  - intros u Hu. now apply Km, Hs.
Qed.

(** The loop of manage_groups.py, run again after a run whose writes
    were all accepted, finds everything in place. *)
Lemma teams_reconcile_twice students st st1 tr1 :
  reconcile gh a students st = (Done tt, st1, tr1) ->
  each write_accepted tr1 ->
  exists tr2,
    reconcile gh a students st1 = (Done tt, st1, tr2)
    /\ each harmless tr2 /\ each in_place_note tr2.
Proof.
  unfold reconcile. intros E Hw.
  set (instr := parse_instructors (instructors a)) in *.
  set (items := sorted_items (build_groups students)) in *.
  apply bind_done_inv in E as [[] [st' [trA [trB [EA [EB ->]]]]]].
  apply print_inv in EB. subst st'.
  apply Forall_app in Hw as [Hw _].
  destruct (for_each_settles (fun item st => team_in_place gh (org a) instr st item)
              items (turn gh a instr)) with (st := st) (st' := st1) (tr := trA)
    as [_ G];
    [intros x s0 s0' t0 _ Eb Hb; now apply (teams_turn_settles instr x s0 s0' t0)
    |intros x s0 s0' Hk Hg; now apply (team_in_place_kept instr x s0 s0')
    |exact EA|exact Hw|].
  destruct (for_each_still _ both_nil both_app items (turn gh a instr) st1)
    as [tr2 [E2 P2]].
  { intros item Hi. now apply teams_turn_in_place, G. }
  exists (tr2 ++ [Print AllDone]). split.
  - eapply bind_done; [exact E2|reflexivity].
  - apply both_app; [exact P2|]. split; now repeat constructor.
Qed.

End Program.

End ManageTwice.

(** ** The organization in memory keeps what it is told *)

Module FakeOrgFacts.
Import PyStr Json Roster Gh Props Contract InviteSpec FakeOrg.

Lemma reads_keep_state_gh : reads_keep_state gh.
Proof.
  intros st c Hc. destruct c; try discriminate; cbn;
    repeat match goal with
           | |- context [match ?x with _ => _ end] => destruct x
           end; reflexivity.
Qed.

Lemma has_app x l1 l2 : has x (l1 ++ l2) = has x l1 || has x l2.
Proof. apply existsb_app. Qed.

Lemma has_In x l : has x l = true <-> In x l.
Proof. apply DedupeFacts.mem_In. Qed.

Lemma logins_of_id_text st u txt id :
  id_text st u = Some txt -> InviteToOrg.py_int (strip txt) = Some id ->
  In u (logins_of st id).
Proof.
  unfold id_text, logins_of. intros Hf Hp.
  destruct (find (fun e => String.eqb (fst e) u) (users st)) as [e|] eqn:E;
    [|discriminate].
  cbn in Hf. injection Hf as <-.
  apply find_some in E as [Hin He]. apply String.eqb_eq in He. subst u.
  apply in_map, filter_In. split; [exact Hin|].
  rewrite Hp. apply Z.eqb_refl.
Qed.

Lemma invitations_kept_gh org : invitations_kept gh org.
Proof.
  split.
  - exact reads_keep_state_gh.
  - intros st u id role. unfold uid_now, resolved, pending_now. cbn.
    destruct (id_text st u) as [txt|] eqn:Et; [|discriminate]. cbn.
    intros Hp.
    pose proof (logins_of_id_text st u txt id Et Hp) as Hin.
    destruct (writable st); [|discriminate].
    destruct (logins_of st id) as [|l ls] eqn:El; [discriminate|].
    intros _. cbn. apply has_In in Hin.
    unfold has in Hin. cbn in Hin.
    now rewrite existsb_app, orb_assoc, Hin.
  - intros st id role v. unfold settled, member_now, pending_now. cbn.
    destruct (writable st); [|easy].
    destruct (logins_of st id) as [|l ls] eqn:El; [easy|]. cbn.
    rewrite existsb_app. intros H.
    apply orb_true_iff in H as [H|H]; apply orb_true_iff; [now left|right].
    unfold has in H.
    destruct (existsb (String.eqb v) (invited st)); [|discriminate].
    now rewrite !orb_true_r.
Qed.

Lemma role_of_cons st slug u role slug' u' :
  find (fun e => String.eqb (fst (fst e)) slug' && String.eqb (snd (fst e)) u')
       ((slug, u, role) :: roles st)
  = if String.eqb slug slug' && String.eqb u u' then Some (slug, u, role)
    else find (fun e => String.eqb (fst (fst e)) slug'
                        && String.eqb (snd (fst e)) u') (roles st).
Proof. reflexivity. Qed.

Lemma exists_now_has org st slug :
  exists_now gh org st slug = has slug (teams st).
Proof. unfold exists_now, gh. cbn [fst]. now destruct (has slug (teams st)). Qed.

Lemma teams_grow st c slug :
  has slug (teams st) = true -> has slug (teams (snd (gh st c))) = true.
Proof.
  destruct c; cbn; try easy.
  - now destruct (id_text st username).
  - destruct (writable st); [|easy]. now destruct (logins_of st invitee_id).
  - destruct (writable st); [|easy]. unfold has. cbn. intros ->.
    apply orb_true_r.
  - now destruct (role_of st slug0 username).
  - now destruct (writable st).
Qed.

Lemma role_now_of org st slug u :
  role_now gh org st slug u
  = match role_of st slug u with
    | Some r =>
        if String.eqb (strip r) ManageGroups.member_role
           || String.eqb (strip r) ManageGroups.maintainer_role
        then Some (strip r) else None
    | None => None
    end.
Proof.
  unfold role_now, gh. cbn [fst]. now destruct (role_of st slug u).
Qed.

Lemma role_of_others st org slug u role slug' u' :
  (slug', u') <> (slug, u) ->
  role_of (snd (gh st (PutTeamMembership org slug u role))) slug' u'
  = role_of st slug' u'.
Proof.
  intros Hne. unfold gh. destruct (writable st); [|reflexivity].
  unfold role_of. cbn [snd roles]. rewrite role_of_cons.
  destruct (String.eqb_spec slug slug') as [->|Hs];
    [destruct (String.eqb_spec u u') as [->|Hu]|]; cbn [andb];
    [now elim Hne|reflexivity|reflexivity].
Qed.

Lemma teams_kept_gh org : teams_kept gh org.
Proof.
  split.
  - exact reads_keep_state_gh.
  - intros st name privacy description. unfold exists_now. cbn.
    destruct (writable st); [|discriminate]. intros _. cbn.
    now rewrite String.eqb_refl.
  - intros st c slug. rewrite !exists_now_has. apply teams_grow.
  - intros st slug u role Hrole. unfold role_now. cbn.
    destruct (writable st); [|discriminate]. intros _. cbn.
    unfold role_of. cbn [roles]. rewrite role_of_cons, !String.eqb_refl. cbn.
    now destruct Hrole as [->| ->].
  - intros st slug u role slug' u' r Hne.
    rewrite !role_now_of, (role_of_others st org slug u role slug' u' Hne).
    easy.
  - intros st name privacy description slug u r. rewrite !role_now_of.
    assert (E : role_of (snd (gh st (PostTeam org name privacy description)))
                        slug u = role_of st slug u)
      by (unfold gh; now destruct (writable st)).
    now rewrite E.
Qed.

End FakeOrgFacts.

(** * The claims of the specification *)

Import PyStr Json Roster Gh Props Contract InviteSpec.

(** ** Slugs *)








(** C10. Whatever the name, its slug is not empty, holds only
    lowercase ASCII letters, digits and ["-"], neither starts nor ends
    with ["-"] and has no two ["-"] in a row; and every team slug that
    manage_groups.py puts in the path of a [gh] call is such a slug. *)
Theorem C10_slug_is_well_formed :
  (forall name, Slug.slug_wf (Slug.slugify name) = true)
  /\ (forall St (gh : remote St) (a : ManageGroups.args) st,
         each slug_in_path_wf (trace_of (ManageGroups.main gh a) st)).
Proof.
  split; [exact ManageFacts.slugify_wf|].
  intros St gh a. apply ManageFacts.paths_main.
Qed.

(** ** The loaders *)

(** C9. The comma pass is blind to JSON strings: there is a roster
    whose username holds a comma, a blank and a closing bracket, and
    whose group holds a comma and a closing brace; read as it stands
    the fields keep their commas, both loaders lose them. *)
Theorem C9_comma_inside_a_string_is_deleted :
  exists raw rows,
    loads raw = Parsed (JArr [JObj [("username"%string, JStr "a, ]b");
                                    ("group"%string, JStr "g,}")]])
    /\ load_from ManageGroups.visit (loads raw) = Rows rows
    /\ map ManageGroups.username rows = ["a, ]b"%string]
    /\ map ManageGroups.group rows = ["g,}"%string]
    /\ ManageGroups.load_students raw
       = Rows [ {| ManageGroups.name := EmptyString;
                   ManageGroups.username := "a]b";
                   ManageGroups.group := "g}" |} ]
    /\ InviteToOrg.load_students raw
       = Rows [ {| InviteToOrg.name := EmptyString;
                   InviteToOrg.username := "a]b" |} ].
Proof.
  exists Scenario.roster_comma_in_string.
  eexists. repeat split; vm_compute; reflexivity.
Qed.

(** C2, as the code has it.  invite_to_org.py drops the records whose
    username was met before: the usernames left are all different,
    every username of the roster is still there, and a record added at
    the end of a roster is added at the end of the result when its
    username is new and changes nothing otherwise.  manage_groups.py
    drops nothing: the members of a group are the usernames of its
    records in the order of the file, as often as they occur; the
    roster of the scenario gives group A the members alice, bob, alice
    and the slug [a], and gives the invitation workflow alice and
    bob. *)
Theorem C2_invite_dedupes_and_teams_keep_all :
  (forall students,
      NoDup (map InviteToOrg.username (InviteToOrg.dedupe [] students))
      /\ (forall s, In s (InviteToOrg.dedupe [] students) -> In s students)
      /\ (forall s, In s students ->
                    In (InviteToOrg.username s)
                       (map InviteToOrg.username
                            (InviteToOrg.dedupe [] students))))
  /\ (forall pre s,
         InviteToOrg.dedupe [] (pre ++ [s])
         = InviteToOrg.dedupe [] pre
           ++ (if existsb (String.eqb (InviteToOrg.username s))
                          (map InviteToOrg.username pre)
               then [] else [s]))
  /\ (forall g students,
         members_of g (ManageGroups.build_groups students)
         = map ManageGroups.username
               (filter (fun s => String.eqb (ManageGroups.group s) g) students))
  /\ (exists rows,
         ManageGroups.load_students Scenario.roster_two_alices = Rows rows
         /\ ManageGroups.sorted_items (ManageGroups.build_groups rows)
            = [("A"%string, ["alice"%string; "bob"%string; "alice"%string])]
         /\ Slug.slugify "A" = "a"%string)
  /\ (exists rows,
         InviteToOrg.load_students Scenario.roster_two_alices = Rows rows
         /\ map InviteToOrg.username (InviteToOrg.dedupe [] rows)
            = ["alice"%string; "bob"%string]).
Proof.
  split; [|split; [|split; [|split]]].
  - intros students. split; [apply DedupeFacts.dedupe_NoDup|]. split.
    + intros s. apply DedupeFacts.dedupe_incl.
    + intros s H.
      destruct (DedupeFacts.dedupe_covers [] students s H) as [[]|H']; exact H'.
  - intros pre s. apply DedupeFacts.dedupe_snoc.
  - intros g students. apply GroupFacts.members_of_build_groups.
  - eexists. repeat split; vm_compute; reflexivity.
  - eexists. repeat split; vm_compute; reflexivity.
Qed.

Lemma C2_witness :
  In "bob"%string
     (map InviteToOrg.username
          (InviteToOrg.dedupe [] FakeOrg.alice_and_bob)).
Proof.
  apply (proj2 (proj2 (proj1 C2_invite_dedupes_and_teams_keep_all
                         FakeOrg.alice_and_bob))
           {| InviteToOrg.name := EmptyString; InviteToOrg.username := "bob" |}).
  simpl. right. left. reflexivity.
Defined.

(** C2 as stated fails for manage_groups.py: the roster of the
    scenario loads as three members of group A, alice twice. *)
Lemma C2_counterexample :
  exists rows,
    ManageGroups.load_students Scenario.roster_two_alices = Rows rows
    /\ ManageGroups.build_groups rows
       = [("A"%string, ["alice"%string; "bob"%string; "alice"%string])]
    /\ List.length (members_of "A" (ManageGroups.build_groups rows)) = 3
    /\ ~ NoDup (members_of "A" (ManageGroups.build_groups rows)).
Proof.
  eexists. split; [vm_compute; reflexivity|].
  split; [vm_compute; reflexivity|]. split; [vm_compute; reflexivity|].
  vm_compute. intros H. inversion H as [|x l Hx _]; subst.
  apply Hx. right. left. reflexivity.
Qed.

(** ** The invitation workflow *)

Section InviteRuns.
Import InviteToOrg InviteFacts GhFacts.
Context {St : Type}.
Variable gh : remote St.
Variable a : args.

Lemma bind_ret_run {A B} (x : A) (f : A -> @M St B) st :
  bind (ret x) f st = f x st.
Proof. unfold bind, ret. now destruct (f x st) as [[r s] t]. Qed.

Lemma invite_main_runs st st0 tr0 rows :
  gh_prechecks gh (org a) st = (Done tt, st0, tr0) ->
  load_students (file a) = Rows rows ->
  main gh a st
  = (result_of (reconcile gh a (dedupe [] rows)) st0,
     state_of (reconcile gh a (dedupe [] rows)) st0,
     tr0 ++ trace_of (reconcile gh a (dedupe [] rows)) st0).
Proof.
  intros Hp Hl. unfold main. rewrite Hl.
  eapply bind_done_as; [exact Hp| |reflexivity].
  cbn [of_loaded]. rewrite bind_ret_run. apply run_eta.
Qed.

Lemma reconcile_decided students st :
  exists os tr,
    result_of (reconcile gh a students) st = Done (fold_left bump os tally0)
    /\ trace_of (reconcile gh a students) st
       = tr ++ [Print (Summary (ok (fold_left bump os tally0))
                               (sk (fold_left bump os tally0))
                               (fail (fold_left bump os tally0)))]
    /\ decided_all a students tr os.
Proof.
  destruct (loop_decided gh a students tally0 st) as [os [Hr Hd]].
  exists os, (trace_of (for_fold students (turn gh a) tally0) st).
  unfold reconcile, result_of, trace_of, bind in *.
  destruct (for_fold students (turn gh a) tally0 st) as [[r st1] tr1].
  cbn [fst snd] in *. subst r. cbn. now repeat split.
Qed.

Lemma would_invite_count_app t1 t2 :
  would_invite_count (t1 ++ t2)
  = (would_invite_count t1 + would_invite_count t2)%Z.
Proof.
  unfold would_invite_count. rewrite filter_app, length_app. lia.
Qed.

Lemma dry_decided u tr o :
  dry_run a = true -> decided a u tr o ->
  (o = Skipped /\ would_invite_count tr = 0%Z)
  \/ (o = CountedDry /\ would_invite_count tr = 1%Z).
Proof.
  intros Hd H.
  assert (Hpre : forall pre, not_a_member a u pre -> would_invite_count pre = 0%Z)
    by (intros pre Hp; now destruct Hp).
  destruct H as [r ? ?|pre r Hp ?|pre r Hp ? ?|pre r r' Hp ? D
                 |pre r r' id r'' Hp ? D|pre r r' id r'' Hp ? D];
    try congruence.
  - now left.
  - left. split; [reflexivity|].
    now rewrite would_invite_count_app, (Hpre pre Hp).
  - right. split; [reflexivity|].
    now rewrite would_invite_count_app, (Hpre pre Hp).
Qed.

Lemma dry_decided_all students tr os :
  dry_run a = true -> decided_all a students tr os ->
  forall t,
    fail (fold_left bump os t) = fail t
    /\ ok (fold_left bump os t) = (ok t + would_invite_count tr)%Z
    /\ (ok (fold_left bump os t) + sk (fold_left bump os t)
        = ok t + sk t + Z.of_nat (List.length students))%Z.
Proof.
  intros Hd H. induction H as [|s rest tr1 tr2 o os H1 _ IH]; intros t.
  - cbn. unfold would_invite_count. cbn. lia.
  - cbn [fold_left List.length]. rewrite Nat2Z.inj_succ.
    rewrite would_invite_count_app. specialize (IH (bump t o)).
    destruct (dry_decided _ _ _ Hd H1) as [[-> Hc]|[-> Hc]];
      rewrite Hc; cbn [bump count_sk count_ok ok sk fail] in *; lia.
Qed.

End InviteRuns.



(** ** Dry runs *)

Lemma manage_main_runs {St} (gh : remote St) (a : ManageGroups.args) st st0 tr0 rows :
  ManageGroups.gh_ok gh (ManageGroups.org a) st = (Done tt, st0, tr0) ->
  ManageGroups.load_students (ManageGroups.file a) = Rows rows ->
  ManageGroups.main gh a st
  = (result_of (ManageGroups.reconcile gh a rows) st0,
     state_of (ManageGroups.reconcile gh a rows) st0,
     tr0 ++ trace_of (ManageGroups.reconcile gh a rows) st0).
Proof.
  intros Hp Hl. unfold ManageGroups.main. rewrite Hl.
  eapply GhFacts.bind_done_as; [exact Hp| |reflexivity].
  cbn [of_loaded]. rewrite bind_ret_run. apply GhFacts.run_eta.
Qed.

(** ** The team workflow *)

(** C6. In every trace of manage_groups.py a membership write comes
    right after the query of the same membership of the same team, and
    that query did not answer maintainer; and when the query answers
    maintainer, the instructor pass and the student pass make that
    query and no other call. *)
Theorem C6_maintainer_is_never_written :
  forall St (gh : remote St) (a : ManageGroups.args),
    (forall st, writes_guarded (trace_of (ManageGroups.main gh a) st))
    /\ (forall slug u st,
           says_maintainer
             (fst (gh st (GetTeamMembership (ManageGroups.org a) slug u))) = true ->
           calls (trace_of (ManageGroups.ensure_instructor gh a slug u) st)
           = [GetTeamMembership (ManageGroups.org a) slug u])
    /\ (forall slug u st,
           says_maintainer
             (fst (gh st (GetTeamMembership (ManageGroups.org a) slug u))) = true ->
           calls (trace_of (ManageGroups.ensure_student gh a slug u) st)
           = [GetTeamMembership (ManageGroups.org a) slug u]).
Proof.
  intros St gh a. split; [|split].
  - intros st. apply ManageFacts.guarded_writes, ManageFacts.guarded_main.
  - intros slug u st. apply ManageFacts.instructor_left_alone.
  - intros slug u st. apply ManageFacts.student_left_alone.
Qed.

Lemma C6_witness :
  calls (trace_of (ManageGroups.ensure_instructor FakeOrg.gh
                     (FakeOrg.manage_args Scenario.roster_two_alices false)
                     "a" "prof") FakeOrg.staffed)
  = [GetTeamMembership "DS-223" "a" "prof"]
  /\ calls (trace_of (ManageGroups.ensure_student FakeOrg.gh
                        (FakeOrg.manage_args Scenario.roster_two_alices false)
                        "a" "prof") FakeOrg.staffed)
     = [GetTeamMembership "DS-223" "a" "prof"].
Proof.
  split.
  - apply (proj1 (proj2 (C6_maintainer_is_never_written FakeOrg.state FakeOrg.gh
                           (FakeOrg.manage_args Scenario.roster_two_alices false)))).
    vm_compute. reflexivity.
  - apply (proj2 (proj2 (C6_maintainer_is_never_written FakeOrg.state FakeOrg.gh
                           (FakeOrg.manage_args Scenario.roster_two_alices false)))).
    vm_compute. reflexivity.
Defined.

(** ** Running twice *)

(** C1, as the code has it.  Take a remote that keeps what it is told
    and a run that is no dry run.  When the invitation loop has
    completed without a failure, running it again from the state it
    left changes nothing: no call writes, every person is skipped as a
    member or as already invited.  When the team loop has completed and
    all its membership writes were accepted, running it again from the
    state it left changes nothing: no call writes, every team is found
    and every instructor and student is found in place. *)
Theorem C1_second_run_after_a_clean_run_only_skips :
  forall St (gh : remote St),
    (forall (a : InviteToOrg.args) students st t1 st1 tr1,
        invitations_kept gh (InviteToOrg.org a) ->
        InviteToOrg.dry_run a = false ->
        InviteToOrg.reconcile gh a students st = (Done t1, st1, tr1) ->
        InviteToOrg.fail t1 = 0%Z ->
        exists tr2,
          InviteToOrg.reconcile gh a students st1
          = (Done {| InviteToOrg.ok := 0;
                     InviteToOrg.sk := Z.of_nat (List.length students);
                     InviteToOrg.fail := 0 |}, st1, tr2)
          /\ each harmless tr2 /\ each skip_note tr2)
    /\ (forall (a : ManageGroups.args) students st st1 tr1,
           teams_kept gh (ManageGroups.org a) ->
           ManageGroups.dry_run a = false ->
           ManageGroups.reconcile gh a students st = (Done tt, st1, tr1) ->
           each write_accepted tr1 ->
           exists tr2,
             ManageGroups.reconcile gh a students st1 = (Done tt, st1, tr2)
             /\ each harmless tr2 /\ each in_place_note tr2).
Proof.
  intros St gh. split.
  - intros a students st t1 st1 tr1 K Hd E Hf.
    now apply (InviteTwice.invite_reconcile_twice gh a students st t1 st1 tr1).
  - intros a students st st1 tr1 K Hd E Hw.
    now apply (ManageTwice.teams_reconcile_twice gh a K Hd students st st1 tr1).
Qed.

Lemma C1_witness :
  (exists tr2,
      InviteToOrg.reconcile FakeOrg.gh (FakeOrg.invite_args EmptyString false)
        FakeOrg.alice_and_bob
        (state_of (InviteToOrg.reconcile FakeOrg.gh
                     (FakeOrg.invite_args EmptyString false)
                     FakeOrg.alice_and_bob) FakeOrg.course)
      = (Done {| InviteToOrg.ok := 0; InviteToOrg.sk := 2; InviteToOrg.fail := 0 |},
         state_of (InviteToOrg.reconcile FakeOrg.gh
                     (FakeOrg.invite_args EmptyString false)
                     FakeOrg.alice_and_bob) FakeOrg.course, tr2)
      /\ each harmless tr2 /\ each skip_note tr2)
  /\ (exists tr2,
         ManageGroups.reconcile FakeOrg.gh (FakeOrg.manage_args EmptyString false)
           FakeOrg.group_a
           (state_of (ManageGroups.reconcile FakeOrg.gh
                        (FakeOrg.manage_args EmptyString false)
                        FakeOrg.group_a) FakeOrg.course)
         = (Done tt,
            state_of (ManageGroups.reconcile FakeOrg.gh
                        (FakeOrg.manage_args EmptyString false)
                        FakeOrg.group_a) FakeOrg.course, tr2)
         /\ each harmless tr2 /\ each in_place_note tr2).
Proof.
  split.
  - apply (proj1 (C1_second_run_after_a_clean_run_only_skips
                    FakeOrg.state FakeOrg.gh)
             (FakeOrg.invite_args EmptyString false) FakeOrg.alice_and_bob
             FakeOrg.course
             {| InviteToOrg.ok := 2; InviteToOrg.sk := 0; InviteToOrg.fail := 0 |}
             _
             (trace_of (InviteToOrg.reconcile FakeOrg.gh
                          (FakeOrg.invite_args EmptyString false)
                          FakeOrg.alice_and_bob) FakeOrg.course)).
    + apply FakeOrgFacts.invitations_kept_gh.
    + reflexivity.
    + vm_compute. reflexivity.
    + reflexivity.
  - apply (proj2 (C1_second_run_after_a_clean_run_only_skips
                    FakeOrg.state FakeOrg.gh)
             (FakeOrg.manage_args EmptyString false) FakeOrg.group_a
             FakeOrg.course _
             (trace_of (ManageGroups.reconcile FakeOrg.gh
                          (FakeOrg.manage_args EmptyString false)
                          FakeOrg.group_a) FakeOrg.course)).
    + apply FakeOrgFacts.teams_kept_gh.
    + reflexivity.
    + vm_compute. reflexivity.
    + vm_compute. repeat constructor.
Defined.

(** C1 as stated fails.  When the remote refuses the invitations, the
    first run completes with two failures and the second run posts the
    two invitations again and skips nobody.  And a dry run that is run
    again counts the same two persons as successes again: nobody is
    skipped. *)
Lemma C1_counterexample :
  (result_of (InviteToOrg.reconcile FakeOrg.gh (FakeOrg.invite_args EmptyString false)
                FakeOrg.alice_and_bob) FakeOrg.read_only
   = Done {| InviteToOrg.ok := 0; InviteToOrg.sk := 0; InviteToOrg.fail := 2 |}
   /\ filter mutating
        (calls (trace_of (InviteToOrg.reconcile FakeOrg.gh
                            (FakeOrg.invite_args EmptyString false)
                            FakeOrg.alice_and_bob)
                  (state_of (InviteToOrg.reconcile FakeOrg.gh
                               (FakeOrg.invite_args EmptyString false)
                               FakeOrg.alice_and_bob) FakeOrg.read_only)))
      = [PostInvitation "DS-223" 101 "direct_member";
         PostInvitation "DS-223" 102 "direct_member"]
   /\ result_of (InviteToOrg.reconcile FakeOrg.gh (FakeOrg.invite_args EmptyString false)
                   FakeOrg.alice_and_bob)
        (state_of (InviteToOrg.reconcile FakeOrg.gh
                     (FakeOrg.invite_args EmptyString false)
                     FakeOrg.alice_and_bob) FakeOrg.read_only)
      = Done {| InviteToOrg.ok := 0; InviteToOrg.sk := 0; InviteToOrg.fail := 2 |})
  /\ (result_of (InviteToOrg.reconcile FakeOrg.gh (FakeOrg.invite_args EmptyString true)
                   FakeOrg.alice_and_bob) FakeOrg.course
      = Done {| InviteToOrg.ok := 2; InviteToOrg.sk := 0; InviteToOrg.fail := 0 |}
      /\ notes (trace_of (InviteToOrg.reconcile FakeOrg.gh
                            (FakeOrg.invite_args EmptyString true)
                            FakeOrg.alice_and_bob)
                  (state_of (InviteToOrg.reconcile FakeOrg.gh
                               (FakeOrg.invite_args EmptyString true)
                               FakeOrg.alice_and_bob) FakeOrg.course))
         = [WouldInvite "alice"; WouldInvite "bob"; Summary 2 0 0]).
Proof. repeat split; vm_compute; reflexivity. Qed.

(** * Further properties of the two programs *)

Import PyStr Json Roster Gh Props Contract InviteSpec More.

(** ** Counting in traces *)

Module CountFacts.

Lemma calls_app t1 t2 : calls (t1 ++ t2) = calls t1 ++ calls t2.
Proof.
  induction t1 as [|[c r|n] rest IH]; simpl; [reflexivity| |exact IH].
  now rewrite IH.
Qed.

Lemma writes_app t1 t2 : writes (t1 ++ t2) = (writes t1 + writes t2)%Z.
Proof. unfold writes. rewrite calls_app, filter_app, length_app. lia. Qed.

Lemma writes_nonneg tr : (0 <= writes tr)%Z.
Proof. unfold writes. lia. Qed.

Lemma accepted_writes_app t1 t2 :
  accepted_writes (t1 ++ t2) = (accepted_writes t1 + accepted_writes t2)%Z.
Proof. unfold accepted_writes. rewrite filter_app, length_app. lia. Qed.

Lemma membership_queries_app t1 t2 :
  membership_queries (t1 ++ t2) = membership_queries t1 ++ membership_queries t2.
Proof.
  induction t1 as [|[c r|n] rest IH]; simpl; [reflexivity| |exact IH].
  destruct c; simpl; now rewrite IH.
Qed.

Lemma pending_queries_app t1 t2 :
  pending_queries (t1 ++ t2) = pending_queries t1 ++ pending_queries t2.
Proof.
  induction t1 as [|[c r|n] rest IH]; simpl; [reflexivity| |exact IH].
  destruct c; simpl; now rewrite IH.
Qed.

Lemma uid_queries_app t1 t2 :
  uid_queries (t1 ++ t2) = uid_queries t1 ++ uid_queries t2.
Proof.
  induction t1 as [|[c r|n] rest IH]; simpl; [reflexivity| |exact IH].
  destruct c; simpl; now rewrite IH.
Qed.

Lemma preliminary_no_queries tr :
  each preliminary tr ->
  membership_queries tr = [] /\ pending_queries tr = [] /\ uid_queries tr = [].
Proof.
  induction 1 as [|[c r|n] rest H _ IH]; simpl; [now repeat split| |exact IH].
  destruct c; try discriminate; exact IH.
Qed.

(** A list that is empty or holds one given element, before a list
    without that element. *)
Lemma NoDup_at_most_one {A} (x : A) (l rest us : list A) :
  l = [] \/ l = [x] ->
  ~ In x us -> NoDup rest -> incl rest us ->
  NoDup (l ++ rest) /\ incl (l ++ rest) (x :: us).
Proof.
  intros [->| ->] Hx Hn Hi; cbn [app]; split.
  - exact Hn.
  - now apply incl_tl.
  - constructor; [intros H; apply Hx; auto|exact Hn].
  - apply incl_cons; [now left|now apply incl_tl].
Qed.

End CountFacts.

(** ** The invitation workflow, all persons *)

Module InviteMore.
Import InviteToOrg InviteFacts GhFacts CountFacts.

Section Program.
Context {St : Type}.
Variable gh : remote St.
Variable a : args.

Lemma not_a_member_quiet u pre :
  not_a_member a u pre ->
  writes pre = 0%Z /\ accepted_writes pre = 0%Z
  /\ pending_queries pre = [] /\ uid_queries pre = []
  /\ (membership_queries pre = [] \/ membership_queries pre = [u])
  /\ each (only_calls (invite_may_call a)) pre.
Proof. intros H. destruct H; cbn; repeat split; auto; now repeat constructor. Qed.

(** One person: at most one write, and a write only when the person
    is counted as invited or as failed. *)
Lemma decided_writes u tr o :
  decided a u tr o ->
  writes tr = 0%Z \/ (writes tr = 1%Z /\ (o = InvitedNow \/ o = Failed)).
Proof.
  intros H.
  destruct H as [r ? ?|pre r Hp ?|pre r Hp ? ?|pre r r' Hp ? D
                 |pre r r' id r'' Hp ? D|pre r r' id r'' Hp ? D];
    try (destruct (not_a_member_quiet _ _ Hp) as [Hw _];
         rewrite writes_app, Hw);
    cbn; auto.
Qed.

(** One person of a run that is no dry run: counted as invited
    exactly when the invitation was posted and accepted. *)
Lemma decided_accepted u tr o :
  dry_run a = false -> decided a u tr o ->
  (accepted_writes tr = 1%Z /\ o = InvitedNow)
  \/ (accepted_writes tr = 0%Z /\ (o = Skipped \/ o = Failed)).
Proof.
  intros Hd H.
  destruct H as [r ? ?|pre r Hp ?|pre r Hp ? ?|pre r r' Hp ? D
                 |pre r r' id r'' Hp ? D|pre r r' id r'' Hp ? D];
    try congruence;
    try (destruct (not_a_member_quiet _ _ Hp) as [_ [Hw _]];
         rewrite accepted_writes_app, Hw);
    unfold accepted_writes; cbn [filter accepted_write mutating andb];
    try match goal with E : succeeded _ = _ |- _ => rewrite E end;
    cbn; auto.
Qed.

(** One person: asked for at most once. *)
Lemma decided_queries u tr o :
  decided a u tr o ->
  (membership_queries tr = [] \/ membership_queries tr = [u])
  /\ (pending_queries tr = [] \/ pending_queries tr = [u])
  /\ (uid_queries tr = [] \/ uid_queries tr = [u]).
Proof.
  intros H.
  destruct H as [r ? ?|pre r Hp ?|pre r Hp ? ?|pre r r' Hp ? D
                 |pre r r' id r'' Hp ? D|pre r r' id r'' Hp ? D];
    try (destruct (not_a_member_quiet _ _ Hp) as [_ [_ [Hq [Hu [Hm _]]]]];
         rewrite membership_queries_app, pending_queries_app, uid_queries_app,
           Hq, Hu; cbn; rewrite ?app_nil_r);
    cbn; auto.
Qed.

(** One person: only the commands of the program, on its organization. *)
Lemma decided_may_call u tr o :
  decided a u tr o -> each (only_calls (invite_may_call a)) tr.
Proof.
  intros H.
  destruct H as [r ? ?|pre r Hp ?|pre r Hp ? ?|pre r r' Hp ? D
                 |pre r r' id r'' Hp ? D|pre r r' id r'' Hp ? D];
    try (apply each_app;
         [now destruct (not_a_member_quiet _ _ Hp) as [_ [_ [_ [_ [_ Hc]]]]]|]);
    repeat constructor; cbn; auto.
Qed.

Lemma decided_all_counts students tr os :
  decided_all a students tr os ->
  forall t,
    (ok (fold_left bump os t) + sk (fold_left bump os t)
     + fail (fold_left bump os t)
     = ok t + sk t + fail t + Z.of_nat (List.length students))%Z
    /\ (ok t <= ok (fold_left bump os t))%Z
    /\ (sk t <= sk (fold_left bump os t))%Z
    /\ (fail t <= fail (fold_left bump os t))%Z
    /\ (writes tr <= (ok (fold_left bump os t) - ok t)
                     + (fail (fold_left bump os t) - fail t))%Z.
Proof.
  induction 1 as [|s rest tr1 tr2 o os H1 _ IH]; intros t.
  - cbn. unfold writes. cbn. lia.
  - cbn [fold_left List.length]. rewrite Nat2Z.inj_succ, writes_app.
    specialize (IH (bump t o)).
    destruct (decided_writes _ _ _ H1) as [Hw|[Hw [E|E]]]; rewrite Hw;
      [destruct o|subst o|subst o];
      cbn [bump count_sk count_ok count_fail ok sk fail] in *; lia.
Qed.

Lemma decided_all_accepted students tr os :
  dry_run a = false -> decided_all a students tr os ->
  forall t,
    ok (fold_left bump os t) = (ok t + accepted_writes tr)%Z.
Proof.
  intros Hd. induction 1 as [|s rest tr1 tr2 o os H1 _ IH]; intros t.
  - cbn. unfold accepted_writes. cbn. lia.
  - cbn [fold_left]. rewrite accepted_writes_app, (IH (bump t o)).
    destruct (decided_accepted _ _ _ Hd H1) as [[Hw E]|[Hw [E|E]]];
      rewrite Hw; subst o; cbn [bump count_sk count_ok count_fail ok]; lia.
Qed.

Lemma decided_all_queries students tr os :
  decided_all a students tr os ->
  NoDup (map username students) ->
  (NoDup (membership_queries tr)
   /\ incl (membership_queries tr) (map username students))
  /\ (NoDup (pending_queries tr)
      /\ incl (pending_queries tr) (map username students))
  /\ (NoDup (uid_queries tr)
      /\ incl (uid_queries tr) (map username students)).
Proof.
  induction 1 as [|s rest tr1 tr2 o os H1 _ IH]; intros Hn.
  - cbn. repeat split; try constructor; easy.
  - cbn [map] in *. inversion Hn as [|x l Hx Hl]; subst.
    destruct (IH Hl) as [[Nm Im] [[Np Ip] [Nu Iu]]].
    rewrite membership_queries_app, pending_queries_app, uid_queries_app.
    destruct (decided_queries _ _ _ H1) as [Em [Ep Eu]].
    split; [|split]; now apply NoDup_at_most_one.
Qed.

Lemma decided_all_may_call students tr os :
  decided_all a students tr os -> each (only_calls (invite_may_call a)) tr.
Proof.
  induction 1 as [|s rest tr1 tr2 o os H1 _ IH]; [constructor|].
  apply each_app; [now apply (decided_may_call _ _ _ H1)|exact IH].
Qed.

End Program.

End InviteMore.

Module InviteRunFacts.
Import InviteToOrg InviteFacts GhFacts CountFacts InviteMore.

Section Program.
Context {St : Type}.
Variable gh : remote St.
Variable a : args.

(** The trace of [main]: the checks, then nothing, the line about the
    empty roster, or the loop over the persons. *)
Lemma invite_main_trace st :
  exists tr1,
    trace_of (main gh a) st = trace_of (gh_prechecks gh (org a)) st ++ tr1
    /\ (tr1 = [] \/ tr1 = [Print NoStudentsFound]
        \/ exists rows st0,
             load_students (file a) = Rows rows
             /\ tr1 = trace_of (reconcile gh a (dedupe [] rows)) st0).
Proof.
  unfold main, trace_of. unfold bind at 1.
  destruct (gh_prechecks gh (org a) st) as [[r st0] tr0]. cbn [fst snd].
  destruct r as [[]|why].
  2:{ exists []. rewrite app_nil_r. auto. }
  destruct (load_students (file a)) as [rows| |e|] eqn:El;
    cbn [of_loaded].
  - rewrite bind_ret_run.
    destruct (reconcile gh a (dedupe [] rows) st0) as [[r1 st1] tr1] eqn:Er.
    exists tr1. split; [reflexivity|]. right. right.
    exists rows, st0. split; [reflexivity|]. now rewrite Er.
  - exists [Print NoStudentsFound]. split; [reflexivity|auto].
  - exists []. split; [reflexivity|auto].
  - exists []. split; [reflexivity|auto].
Qed.

Lemma prechecks_may_call st :
  each (only_calls (invite_may_call a)) (trace_of (gh_prechecks gh (org a)) st).
Proof.
  unfold gh_prechecks, run, trace_of, bind, call, ret, stop.
  destruct (gh st Version) as [r1 st1].
  destruct (succeeded r1); cbn [fst snd app negb];
    [|now repeat constructor].
  destruct (gh st1 AuthStatus) as [r2 st2].
  destruct (succeeded r2); cbn [fst snd app negb];
    [|now repeat constructor].
  destruct (gh st2 (GetOrg (org a))) as [r3 st3].
  destruct (succeeded r3); cbn [fst snd app negb]; now repeat constructor.
Qed.

End Program.

End InviteRunFacts.

(** ** invite_to_org.py: the tally, the exit status, the queries *)

(** X1. The loop of [main] in invite_to_org.py always reaches its
    summary line, and the three counters of that line account for
    every person once: they are not negative and add up to the number
    of persons.  The run posts at most one invitation for each person
    it counts as a success or as a failure, and when it is no dry run
    the success counter is the number of invitations that were posted
    and accepted. *)
Theorem X1_invite_tally_accounts_for_everyone :
  forall St (gh : remote St) (a : InviteToOrg.args)
         (students : list InviteToOrg.student) st,
  exists t tr,
    result_of (InviteToOrg.reconcile gh a students) st = Done t
    /\ trace_of (InviteToOrg.reconcile gh a students) st
       = tr ++ [Print (Summary (InviteToOrg.ok t) (InviteToOrg.sk t)
                               (InviteToOrg.fail t))]
    /\ (0 <= InviteToOrg.ok t /\ 0 <= InviteToOrg.sk t
        /\ 0 <= InviteToOrg.fail t)%Z
    /\ (InviteToOrg.ok t + InviteToOrg.sk t + InviteToOrg.fail t
        = Z.of_nat (List.length students))%Z
    /\ (writes tr <= InviteToOrg.ok t + InviteToOrg.fail t)%Z
    /\ (InviteToOrg.dry_run a = false ->
        accepted_writes tr = InviteToOrg.ok t).
Proof.
  intros St gh a students st.
  destruct (reconcile_decided gh a students st) as [os [tr [Hr [Ht Hd]]]].
  exists (fold_left bump os InviteToOrg.tally0), tr.
  destruct (InviteMore.decided_all_counts a students tr os Hd InviteToOrg.tally0)
    as [Hsum [Hok [Hsk [Hfail Hw]]]].
  cbn [InviteToOrg.tally0 InviteToOrg.ok InviteToOrg.sk InviteToOrg.fail] in *.
  repeat split; try assumption; try lia.
  intros Hdry.
  rewrite (InviteMore.decided_all_accepted a students tr os Hdry Hd
             InviteToOrg.tally0).
  reflexivity.
Qed.

(** X2. Once the three checks of [gh_prechecks] have passed and the
    roster has given records, invite_to_org.py ends with exit status
    0 whatever happened to the invitations: a person that could not
    be resolved or invited is counted in the summary line and changes
    nothing else.  The counters add up to the number of distinct
    usernames, which is at most the number of records. *)
Theorem X2_invite_failures_do_not_change_the_exit_status :
  forall St (gh : remote St) (a : InviteToOrg.args) st st0 tr0 rows,
    InviteToOrg.gh_prechecks gh (InviteToOrg.org a) st = (Done tt, st0, tr0) ->
    InviteToOrg.load_students (InviteToOrg.file a) = Rows rows ->
    exists t,
      result_of (InviteToOrg.main gh a) st = Done t
      /\ exit_code (result_of (InviteToOrg.main gh a) st) = Some 0%Z
      /\ (InviteToOrg.ok t + InviteToOrg.sk t + InviteToOrg.fail t
          = Z.of_nat (List.length (InviteToOrg.dedupe [] rows)))%Z
      /\ (List.length (InviteToOrg.dedupe [] rows) <= List.length rows)%nat
      /\ last (trace_of (InviteToOrg.main gh a) st) (Print AllDone)
         = Print (Summary (InviteToOrg.ok t) (InviteToOrg.sk t)
                          (InviteToOrg.fail t)).
Proof.
  intros St gh a st st0 tr0 rows Hp Hl.
  pose proof (invite_main_runs gh a st st0 tr0 rows Hp Hl) as Hm.
  destruct (reconcile_decided gh a (InviteToOrg.dedupe [] rows) st0)
    as [os [tr [Hr [Ht Hd]]]].
  exists (fold_left bump os InviteToOrg.tally0).
  destruct (InviteMore.decided_all_counts a _ tr os Hd InviteToOrg.tally0)
    as [Hsum _].
  cbn [InviteToOrg.tally0 InviteToOrg.ok InviteToOrg.sk InviteToOrg.fail] in Hsum.
  unfold result_of at 1 2, trace_of at 1. rewrite Hm. cbn [fst snd].
  rewrite Hr, Ht. repeat split.
  - lia.
  - clear. generalize (@nil string).
    induction rows as [|x rest IH]; intros seen; cbn; [lia|].
    destruct (existsb (String.eqb (InviteToOrg.username x)) seen).
    + specialize (IH seen). lia.
    + specialize (IH (InviteToOrg.username x :: seen)). cbn. lia.
  - rewrite !app_assoc. apply last_last.
Qed.

Lemma X2_witness :
  exists t,
    result_of (InviteToOrg.main FakeOrg.gh
                 (FakeOrg.invite_args Scenario.roster_two_alices false))
              FakeOrg.read_only = Done t
    /\ exit_code
         (result_of (InviteToOrg.main FakeOrg.gh
                       (FakeOrg.invite_args Scenario.roster_two_alices false))
                    FakeOrg.read_only) = Some 0%Z
    /\ (InviteToOrg.ok t + InviteToOrg.sk t + InviteToOrg.fail t
        = Z.of_nat (List.length
            (InviteToOrg.dedupe []
               [ {| InviteToOrg.name := EmptyString;
                    InviteToOrg.username := "alice" |};
                 {| InviteToOrg.name := EmptyString;
                    InviteToOrg.username := "bob" |};
                 {| InviteToOrg.name := EmptyString;
                    InviteToOrg.username := "alice" |} ])))%Z
    /\ (List.length
          (InviteToOrg.dedupe []
             [ {| InviteToOrg.name := EmptyString;
                  InviteToOrg.username := "alice" |};
               {| InviteToOrg.name := EmptyString;
                  InviteToOrg.username := "bob" |};
               {| InviteToOrg.name := EmptyString;
                  InviteToOrg.username := "alice" |} ]) <= 3)%nat
    /\ last (trace_of (InviteToOrg.main FakeOrg.gh
                         (FakeOrg.invite_args Scenario.roster_two_alices false))
                      FakeOrg.read_only) (Print AllDone)
       = Print (Summary (InviteToOrg.ok t) (InviteToOrg.sk t)
                        (InviteToOrg.fail t)).
Proof.
  apply (X2_invite_failures_do_not_change_the_exit_status
           FakeOrg.state FakeOrg.gh
           (FakeOrg.invite_args Scenario.roster_two_alices false)
           FakeOrg.read_only FakeOrg.read_only
           (trace_of (InviteToOrg.gh_prechecks FakeOrg.gh "DS-223")
                     FakeOrg.read_only));
    vm_compute; reflexivity.
Defined.

(** X3. In one run of invite_to_org.py no identifier is asked about
    twice: the membership of the organization, the pending
    invitations and the user id are each queried at most once for a
    username, and only for usernames of the roster. *)
Theorem X3_invite_asks_once_for_each_username :
  forall St (gh : remote St) (a : InviteToOrg.args) st,
    let tr := trace_of (InviteToOrg.main gh a) st in
    NoDup (membership_queries tr)
    /\ NoDup (pending_queries tr)
    /\ NoDup (uid_queries tr)
    /\ (forall rows u,
          InviteToOrg.load_students (InviteToOrg.file a) = Rows rows ->
          In u (membership_queries tr) \/ In u (pending_queries tr)
          \/ In u (uid_queries tr) ->
          In u (map InviteToOrg.username rows)).
Proof.
  intros St gh a st tr. subst tr.
  destruct (InviteRunFacts.invite_main_trace gh a st) as [tr1 [-> Hc]].
  destruct (InviteFacts.gh_prechecks_spec gh (InviteToOrg.org a) st) as [Hpre _].
  destruct (CountFacts.preliminary_no_queries _ Hpre) as [Em [Ep Eu]].
  rewrite CountFacts.membership_queries_app, CountFacts.pending_queries_app,
    CountFacts.uid_queries_app, Em, Ep, Eu. cbn [app].
  destruct Hc as [->|[->|[rows [st0 [Hl ->]]]]].
  - cbn. repeat split; try constructor. intros rows u _ [[]|[[]|[]]].
  - cbn. repeat split; try constructor. intros rows u _ [[]|[[]|[]]].
  - destruct (reconcile_decided gh a (InviteToOrg.dedupe [] rows) st0)
      as [os [tr [_ [Ht Hd]]]].
    rewrite Ht.
    rewrite CountFacts.membership_queries_app, CountFacts.pending_queries_app,
      CountFacts.uid_queries_app. cbn [membership_queries pending_queries
      uid_queries]. rewrite !app_nil_r.
    destruct (InviteMore.decided_all_queries a _ tr os Hd
                (DedupeFacts.dedupe_NoDup [] rows))
      as [[Nm Im] [[Np Ip] [Nu Iu]]].
    repeat split; try assumption.
    intros rows' u Hl' Hin. rewrite Hl in Hl'. injection Hl' as <-.
    assert (Hd' : In u (map InviteToOrg.username (InviteToOrg.dedupe [] rows))).
    { destruct Hin as [H|[H|H]]; [now apply Im|now apply Ip|now apply Iu]. }
    apply in_map_iff in Hd'. destruct Hd' as [s [<- Hs]].
    apply in_map. now apply (DedupeFacts.dedupe_incl [] rows).
Qed.

(** X4. invite_to_org.py only sends the commands of its text: the
    three checks, and for a person the four commands of the invitation
    steps, every one on the organization of [--org]; an invitation is
    posted with the role of [--role] and never in a dry run.  It sends
    no command about teams. *)
Theorem X4_invite_calls_stay_on_the_organization :
  forall St (gh : remote St) (a : InviteToOrg.args) st,
    each (only_calls (invite_may_call a)) (trace_of (InviteToOrg.main gh a) st)
    /\ each (on_org (InviteToOrg.org a)) (trace_of (InviteToOrg.main gh a) st)
    /\ each no_team_call (trace_of (InviteToOrg.main gh a) st).
Proof.
  intros St gh a st.
  assert (H : each (only_calls (invite_may_call a))
                (trace_of (InviteToOrg.main gh a) st)).
  { destruct (InviteRunFacts.invite_main_trace gh a st) as [tr1 [-> Hc]].
    apply GhFacts.each_app; [apply InviteRunFacts.prechecks_may_call|].
    destruct Hc as [->|[->|[rows [st0 [Hl ->]]]]];
      [constructor|now repeat constructor|].
    destruct (reconcile_decided gh a (InviteToOrg.dedupe [] rows) st0)
      as [os [tr [_ [-> Hd]]]].
    apply GhFacts.each_app; [|now repeat constructor].
    exact (InviteMore.decided_all_may_call a _ tr os Hd). }
  split; [exact H|].
  split; (eapply Forall_impl; [|exact H]); intros [c r|n] Hc; cbn; trivial;
    destruct c; cbn in *; intuition.
Qed.

Import PyStr Json Roster Gh Props Contract More.

(** ** manage_groups.py: what holds of every trace *)

Module ManageMore.
Import ManageGroups GhFacts FaithfulFacts ManageFacts CountFacts.

(** *** Writes that are called for *)

Lemma careful_any prev tr : careful None tr -> careful prev tr.
Proof.
  destruct tr as [|e rest]; [easy|]. simpl.
  intros [H1 H2]. split; [|exact H2].
  destruct e as [c r|n]; [|exact I]. now destruct c.
Qed.

Lemma careful_app prev t1 t2 :
  careful prev t1 -> careful None t2 -> careful prev (t1 ++ t2).
Proof.
  revert prev. induction t1 as [|e rest IH]; intros prev H1 H2.
  - now apply careful_any.
  - destruct H1 as [He Hr]. split; [exact He|]. now apply IH.
Qed.

Lemma careful_split prev tr pre org slug u role r post :
  careful prev tr ->
  tr = pre ++ Call (PutTeamMembership org slug u role) r :: post ->
  (pre = [] /\ exists q,
      prev = Some (Call (GetTeamMembership org slug u) q)
      /\ called_for role q)
  \/ (exists pre' q,
        pre = pre' ++ [Call (GetTeamMembership org slug u) q]
        /\ called_for role q).
Proof.
  revert prev tr. induction pre as [|e pre IH]; intros prev tr Hg ->.
  - left. split; [reflexivity|]. destruct Hg as [Hg _].
    destruct prev as [[c q|n]|]; try easy.
    destruct c; try easy. destruct Hg as [-> [-> [-> Hq]]]. now exists q.
  - right. destruct Hg as [_ Hg].
    destruct (IH (Some e) _ Hg eq_refl) as [[-> [q [He Hq]]]|[pre' [q [-> Hq]]]].
    + injection He as ->. now exists [], q.
    + now exists (e :: pre'), q.
Qed.

Lemma careful_writes tr : careful None tr -> writes_called_for tr.
Proof.
  intros Hg pre org slug u role r post E.
  destruct (careful_split None tr pre org slug u role r post Hg E)
    as [[_ [q [H _]]]|H]; [discriminate|exact H].
Qed.

Lemma quiet_prints tr : calls tr = [] -> forall e, In e tr -> exists n, e = Print n.
Proof.
  induction tr as [|[c r|n] rest IH]; cbn; intros H e Hin;
    [easy|discriminate|].
  destruct Hin as [<-|Hin]; [now exists n|now apply IH].
Qed.

Lemma quiet_each (Q : event -> Prop) tr :
  calls tr = [] -> (forall n, Q (Print n)) -> each Q tr.
Proof.
  intros H HQ. apply Forall_forall. intros e Hin.
  destruct (quiet_prints tr H e Hin) as [n ->]. apply HQ.
Qed.

Lemma careful_quiet prev tr : calls tr = [] -> careful prev tr.
Proof.
  revert prev. induction tr as [|[c r|n] rest IH]; cbn; intros prev H;
    [exact I|discriminate|].
  split; [exact I|now apply IH].
Qed.

Lemma careful_one e : outside_passes e -> careful None [e].
Proof. destruct e as [c r|n]; [destruct c|]; cbn; tauto. Qed.

Section Program.
Context {St : Type}.
Variable gh : remote St.
Variable a : args.

(** *** A property of the traces of the two passes is one of [main] *)

Section Passes.
Variable P : list event -> Prop.
Hypothesis P_nil : P [].
Hypothesis P_app : forall t1 t2, P t1 -> P t2 -> P (t1 ++ t2).
Hypothesis P_one : forall e, outside_passes e -> P [e].
Hypothesis P_instructor :
  forall slug u, always P (ensure_instructor gh a slug u).
Hypothesis P_student :
  forall slug u, always P (ensure_student gh a slug u).

Lemma passes_gh_ok : always P (gh_ok gh (org a)).
Proof.
  unfold gh_ok.
  apply always_bind; [exact P_app|apply always_call; intros; now apply P_one|].
  intros cp. apply always_if.
  - apply always_bind; [exact P_app|apply always_print; now apply P_one|].
    intros _. now apply always_stop.
  - apply always_bind;
      [exact P_app|apply always_call; intros; now apply P_one|].
    intros cp'. apply always_if.
    + apply always_bind; [exact P_app|apply always_print; now apply P_one|].
      intros _. now apply always_stop.
    + now apply always_ret.
Qed.

Lemma passes_ensure_team name slug : always P (ensure_team gh a name slug).
Proof.
  unfold ensure_team, team_exists, create_team.
  apply always_bind; [exact P_app| |].
  - apply always_bind;
      [exact P_app|apply always_call; intros; now apply P_one|].
    intros cp. now apply always_ret.
  - intros e. apply always_if; [apply always_print; now apply P_one|].
    apply always_if; [apply always_print; now apply P_one|].
    apply always_bind; [exact P_app| |intros v; apply always_print; now apply P_one].
    apply always_bind;
      [exact P_app|apply always_call; intros; now apply P_one|].
    intros cp. apply always_if.
    + apply always_bind; [exact P_app|apply always_print; now apply P_one|].
      intros _. now apply always_stop.
    + unfold subscript_slug.
      destruct (if nonempty (strip (stdout cp)) then loads (stdout cp)
                else Parsed (JObj [])) as [[| | | | |fields]| |];
        try (now apply always_stop).
      apply always_if; [now apply always_ret|now apply always_stop].
Qed.

Lemma passes_reconcile students : always P (reconcile gh a students).
Proof.
  unfold reconcile.
  apply always_bind; [exact P_app| |intros _; apply always_print; now apply P_one].
  apply always_for_each; [exact P_nil|exact P_app|].
  intros item _. unfold turn.
  apply always_bind; [exact P_app|apply passes_ensure_team|]. intros _.
  apply always_bind; [exact P_app| |intros _].
  - apply always_for_each; [exact P_nil|exact P_app|].
    intros u _. apply P_instructor.
  - apply always_for_each; [exact P_nil|exact P_app|].
    intros u _. apply P_student.
Qed.

Lemma passes_main : always P (main gh a).
Proof.
  unfold main.
  apply always_bind; [exact P_app|apply passes_gh_ok|intros _].
  apply always_bind; [exact P_app| |intros rows; apply passes_reconcile].
  intros st. destruct (load_students (file a)); cbn;
    try exact P_nil. now apply P_one.
Qed.

End Passes.

(** *** The two passes *)

(** What the two passes do with the reply [q] of the query: the
    events after the query. *)
Lemma ensure_instructor_trace slug u st :
  exists q tail,
    trace_of (ensure_instructor gh a slug u) st
    = Call (GetTeamMembership (org a) slug u) q :: tail
    /\ ((calls tail = []
         /\ (role_in q = Some maintainer_role \/ dry_run a = true))
        \/ (exists r n,
              tail = Call (PutTeamMembership (org a) slug u maintainer_role) r
                       :: n
              /\ calls n = []
              /\ role_in q <> Some maintainer_role
              /\ dry_run a = false)).
Proof.
  unfold trace_of, ensure_instructor, team_membership, add_to_team.
  unfold bind at 1. unfold bind at 1. unfold call at 1.
  destruct (gh st (GetTeamMembership (org a) slug u)) as [q st1].
  cbn [ret]. fold (role_in q).
  assert (Hm : is_role maintainer_role (role_in q) = true
               <-> role_in q = Some maintainer_role).
  { destruct (role_in q) as [r|]; cbn; [|split; discriminate].
    rewrite String.eqb_eq. split; congruence. }
  exists q. cbn [fst snd app].
  destruct (is_role maintainer_role (role_in q)) eqn:Em.
  - eexists. split; [reflexivity|]. left. split; [reflexivity|].
    left. now apply Hm.
  - assert (Hn : role_in q <> Some maintainer_role).
    { intros H. apply Hm in H. congruence. }
    destruct (is_role member_role (role_in q));
      (destruct (dry_run a) eqn:Ed;
       [eexists; split; [reflexivity|]; left; split; [reflexivity|now right]|]);
      unfold bind, call, ret, print;
      destruct (gh st1 (PutTeamMembership (org a) slug u maintainer_role))
        as [r st2];
      destruct (succeeded r); cbn [fst snd app];
      (eexists; split; [reflexivity|]; right;
       eexists; eexists; split; [reflexivity|]; now repeat split).
Qed.

Lemma ensure_student_trace slug u st :
  exists q tail,
    trace_of (ensure_student gh a slug u) st
    = Call (GetTeamMembership (org a) slug u) q :: tail
    /\ ((calls tail = []
         /\ (role_in q <> None \/ dry_run a = true))
        \/ (exists r n,
              tail = Call (PutTeamMembership (org a) slug u member_role) r
                       :: n
              /\ calls n = []
              /\ role_in q = None
              /\ dry_run a = false)).
Proof.
  unfold trace_of, ensure_student, team_membership, add_to_team.
  unfold bind at 1. unfold bind at 1. unfold call at 1.
  destruct (gh st (GetTeamMembership (org a) slug u)) as [q st1].
  cbn [ret]. fold (role_in q).
  exists q. cbn [fst snd app].
  assert (Hq : forall r, role_in q = Some r ->
             String.eqb r member_role || String.eqb r maintainer_role = true).
  { intros r. unfold role_in. destruct (succeeded q); [|discriminate].
    cbn [andb]. destruct (_ || _) eqn:E; [|discriminate].
    intros H. now injection H as <-. }
  destruct (role_in q) as [r|] eqn:E.
  - rewrite (Hq r eq_refl).
    eexists. split; [reflexivity|]. left. split; [reflexivity|].
    left. discriminate.
  - destruct (dry_run a) eqn:Ed;
      [eexists; split; [reflexivity|]; left; split; [reflexivity|now right]|].
    unfold bind, call, ret, print.
    destruct (gh st1 (PutTeamMembership (org a) slug u member_role))
      as [r st2].
    destruct (succeeded r); cbn [fst snd app];
      (eexists; split; [reflexivity|]; right;
       eexists; eexists; split; [reflexivity|]; now repeat split).
Qed.

Lemma careful_ensure_instructor slug u :
  always (careful None) (ensure_instructor gh a slug u).
Proof.
  intros st.
  destruct (ensure_instructor_trace slug u st)
    as [q [tail [-> [[Hc _]|[r [n [-> [Hn [Hq Hd]]]]]]]]].
  - split; [exact I|now apply careful_quiet].
  - split; [exact I|]. split; [|now apply careful_quiet].
    repeat split. now left.
Qed.

Lemma careful_ensure_student slug u :
  always (careful None) (ensure_student gh a slug u).
Proof.
  intros st.
  destruct (ensure_student_trace slug u st)
    as [q [tail [-> [[Hc _]|[r [n [-> [Hn [Hq Hd]]]]]]]]].
  - split; [exact I|now apply careful_quiet].
  - split; [exact I|]. split; [|now apply careful_quiet].
    repeat split. now right.
Qed.

Lemma careful_main : always (careful None) (main gh a).
Proof.
  apply passes_main.
  - exact I.
  - apply careful_app.
  - apply careful_one.
  - apply careful_ensure_instructor.
  - apply careful_ensure_student.
Qed.

Lemma may_call_ensure_instructor slug u :
  always (each (only_calls (manage_may_call a))) (ensure_instructor gh a slug u).
Proof.
  intros st.
  destruct (ensure_instructor_trace slug u st)
    as [q [tail [-> [[Hc _]|[r [n [-> [Hn [Hq Hd]]]]]]]]].
  - constructor; [reflexivity|now apply quiet_each].
  - constructor; [reflexivity|].
    constructor; [cbn; auto|now apply quiet_each].
Qed.

Lemma may_call_ensure_student slug u :
  always (each (only_calls (manage_may_call a))) (ensure_student gh a slug u).
Proof.
  intros st.
  destruct (ensure_student_trace slug u st)
    as [q [tail [-> [[Hc _]|[r [n [-> [Hn [Hq Hd]]]]]]]]].
  - constructor; [reflexivity|now apply quiet_each].
  - constructor; [reflexivity|].
    constructor; [cbn; auto|now apply quiet_each].
Qed.

Lemma may_call_gh_ok :
  always (each (only_calls (manage_may_call a))) (gh_ok gh (org a)).
Proof.
  unfold gh_ok.
  apply all_bind; [now apply all_call|]. intros cp. apply all_if.
  - apply all_bind; [now apply all_print|]. intros _. apply all_stop.
  - apply all_bind; [now apply all_call|]. intros cp'. apply all_if.
    + apply all_bind; [now apply all_print|]. intros _. apply all_stop.
    + apply all_ret.
Qed.

Lemma may_call_ensure_team name slug :
  always (each (only_calls (manage_may_call a))) (ensure_team gh a name slug).
Proof.
  unfold ensure_team, team_exists, create_team.
  apply all_bind.
  - apply all_bind; [now apply all_call|]. intros cp. apply all_ret.
  - intros e. apply all_if; [now apply all_print|].
    destruct (dry_run a) eqn:Ed; [now apply all_print|].
    apply all_bind; [|intros v; now apply all_print].
    apply all_bind; [apply all_call; intros r; cbn; now rewrite Ed|].
    intros cp. apply all_if.
    + apply all_bind; [now apply all_print|]. intros _. apply all_stop.
    + unfold subscript_slug.
      destruct (if nonempty (strip (stdout cp)) then loads (stdout cp)
                else Parsed (JObj [])) as [[| | | | |fields]| |];
        try apply all_stop.
      apply all_if; [apply all_ret|apply all_stop].
Qed.

Lemma may_call_main :
  always (each (only_calls (manage_may_call a))) (main gh a).
Proof.
  unfold main.
  apply all_bind; [apply may_call_gh_ok|intros _].
  apply all_bind.
  { intros st. destruct (load_students (file a)); cbn; now repeat constructor. }
  intros rows. unfold reconcile.
  apply all_bind; [|intros _; now apply all_print].
  apply all_for_each. intros item _. unfold turn.
  apply all_bind; [apply may_call_ensure_team|]. intros _.
  apply all_bind; [|intros _].
  - apply all_for_each. intros u _. apply may_call_ensure_instructor.
  - apply all_for_each. intros u _. apply may_call_ensure_student.
Qed.

(** *** Where the run can stop *)

Lemma soc_bind {A B} (m : @M St A) (f : A -> @M St B) :
  stops_only_creating a m -> (forall x, stops_only_creating a (f x)) ->
  stops_only_creating a (bind m f).
Proof.
  intros Hm Hf st. specialize (Hm st).
  unfold result_of, trace_of, bind in *.
  destruct (m st) as [[[x|why] st1] tr1]; cbn [fst snd] in *.
  - specialize (Hf x st1). unfold result_of, trace_of in Hf.
    destruct (f x st1) as [[[y|why] st2] tr2]; cbn [fst snd] in *.
    + now apply each_app.
    + destruct Hf as [pre [name [r [tail [-> H]]]]].
      exists (tr1 ++ pre), name, r, tail.
      split; [now rewrite <- app_assoc|exact H].
  - exact Hm.
Qed.

Lemma soc_completes {A} (m : @M St A) :
  completes m -> always (each creation_accepted) m -> stops_only_creating a m.
Proof.
  intros Hc He st. destruct (Hc st) as [x Hx]. rewrite Hx. apply He.
Qed.

Lemma soc_for_each {A} (xs : list A) (body : A -> @M St unit) :
  (forall x, stops_only_creating a (body x)) ->
  stops_only_creating a (for_each xs body).
Proof.
  intros H. induction xs as [|x rest IH]; cbn [for_each].
  - intros st. constructor.
  - apply soc_bind; [apply H|intros _; exact IH].
Qed.

Lemma completes_add_to_team slug u role :
  completes (add_to_team gh (org a) slug u role).
Proof. unfold add_to_team. auto 6 with completes. Qed.

Lemma completes_ensure_instructor slug u :
  completes (ensure_instructor gh a slug u).
Proof.
  unfold ensure_instructor.
  apply completes_bind; [apply completes_team_membership|]. intros r.
  repeat apply completes_if; auto with completes;
    (apply completes_bind; [apply completes_add_to_team|auto with completes]).
Qed.

Lemma completes_ensure_student slug u :
  completes (ensure_student gh a slug u).
Proof.
  unfold ensure_student.
  apply completes_bind; [apply completes_team_membership|]. intros [r|];
  repeat apply completes_if; auto with completes;
    (apply completes_bind; [apply completes_add_to_team|auto with completes]).
Qed.

Lemma soc_ensure_instructor slug u :
  stops_only_creating a (ensure_instructor gh a slug u).
Proof.
  apply soc_completes; [apply completes_ensure_instructor|]. intros st.
  destruct (ensure_instructor_trace slug u st)
    as [q [tail [-> [[Hc _]|[r [n [-> [Hn _]]]]]]]];
    repeat (constructor; [exact I|]); now apply quiet_each.
Qed.

Lemma soc_ensure_student slug u :
  stops_only_creating a (ensure_student gh a slug u).
Proof.
  apply soc_completes; [apply completes_ensure_student|]. intros st.
  destruct (ensure_student_trace slug u st)
    as [q [tail [-> [[Hc _]|[r [n [-> [Hn _]]]]]]]];
    repeat (constructor; [exact I|]); now apply quiet_each.
Qed.

Lemma soc_ensure_team name slug :
  stops_only_creating a (ensure_team gh a name slug).
Proof.
  intros st.
  unfold result_of, trace_of, ensure_team, team_exists, create_team,
    subscript_slug.
  unfold bind, call, ret, print, stop.
  destruct (gh st (GetTeam (org a) slug)) as [r st1].
  destruct (succeeded r); [cbn; now repeat constructor|].
  destruct (dry_run a); [cbn; now repeat constructor|].
  destruct (gh st1 (PostTeam (org a) name (privacy_name (privacy a)) EmptyString))
    as [r' st2].
  destruct (succeeded r') eqn:Er; cbn [negb].
  2:{ cbn. exists [Call (GetTeam (org a) slug) r], name, r',
        [Print (CreateTeamFailed name)].
      repeat split; try easy; congruence. }
  destruct (if nonempty (strip (stdout r')) then loads (stdout r')
            else Parsed (JObj [])) as [[| | | | |fields]| |];
    try destruct (dict_has slug_key fields);
    cbn;
    try (now repeat constructor);
    (exists [Call (GetTeam (org a) slug) r], name, r', [];
     repeat split; try easy; try congruence; intros _; eauto).
Qed.

Lemma soc_reconcile students :
  stops_only_creating a (reconcile gh a students).
Proof.
  unfold reconcile.
  apply soc_bind.
  - apply soc_for_each. intros item. unfold turn.
    apply soc_bind; [apply soc_ensure_team|]. intros _.
    apply soc_bind; [|intros _].
    + apply soc_for_each. intros u. apply soc_ensure_instructor.
    + apply soc_for_each. intros u. apply soc_ensure_student.
  - intros _ st. now repeat constructor.
Qed.

Lemma reconcile_last students st st' tr :
  reconcile gh a students st = (Done tt, st', tr) ->
  exists tr', tr = tr' ++ [Print AllDone].
Proof.
  unfold reconcile. intros H.
  apply bind_done_inv in H as [x [st1 [tr1 [tr2 [_ [H ->]]]]]].
  unfold print in H. injection H as _ <-. now exists tr1.
Qed.

Lemma preliminary_creation_accepted tr :
  each preliminary tr -> each creation_accepted tr.
Proof.
  apply Forall_impl. intros [c r|n]; [|easy]. now destruct c.
Qed.

(** The run of [main]: stopped before the loop, stopped in it, or
    completed. *)
Lemma main_run st :
  match result_of (main gh a) st with
  | Done _ =>
      each creation_accepted (trace_of (main gh a) st)
      /\ exists tr, trace_of (main gh a) st = tr ++ [Print AllDone]
  | Stop why =>
      stopped_before_teams a why (trace_of (main gh a) st)
      \/ stopped_in_create_team a why (trace_of (main gh a) st)
  end.
Proof.
  destruct (gh_ok_spec gh (org a) st) as [Ht Hr].
  unfold result_of, trace_of in Ht, Hr.
  destruct (gh_ok gh (org a) st) as [[r st1] tr1] eqn:Eg. cbn [fst snd] in *.
  destruct Hr as [->| ->].
  2:{ assert (E : main gh a st = (Stop (SysExit 1), st1, tr1))
        by (unfold main; now apply bind_stop).
      unfold result_of, trace_of. rewrite E. left. now split. }
  destruct (load_students (file a)) as [rows| |e|] eqn:El.
  - pose proof (manage_main_runs gh a st st1 tr1 rows Eg El) as E.
    pose proof (soc_reconcile rows st1) as Hs.
    unfold result_of at 1, trace_of at 1 2 3 4. rewrite E. cbn [fst snd].
    destruct (result_of (reconcile gh a rows) st1) as [[]|why] eqn:Er.
    + split; [apply each_app; [now apply preliminary_creation_accepted|exact Hs]|].
      pose proof (run_eta (reconcile gh a rows) st1) as Hrun.
      rewrite Er in Hrun.
      destruct (reconcile_last rows st1 _ _ Hrun) as [tr' ->].
      exists (tr1 ++ tr'). now rewrite app_assoc.
    + right. destruct Hs as [pre [name [r [tail [-> H]]]]].
      exists (tr1 ++ pre), name, r, tail.
      split; [now rewrite <- app_assoc|exact H].
  - assert (E : main gh a st
                = (Stop (SysExit 1), st1, tr1 ++ [Print NoStudentsFound])).
    { unfold main. rewrite El. unfold bind at 1. rewrite Eg. reflexivity. }
    unfold result_of, trace_of. rewrite E. left. split; [|reflexivity].
    apply each_app; [exact Ht|now repeat constructor].
  - assert (E : main gh a st = (Stop (Uncaught e), st1, tr1 ++ [])).
    { unfold main. rewrite El. unfold bind at 1. rewrite Eg. reflexivity. }
    unfold result_of, trace_of. rewrite E, app_nil_r. left. now split.
  - assert (E : main gh a st = (Stop Unmodelled, st1, tr1 ++ [])).
    { unfold main. rewrite El. unfold bind at 1. rewrite Eg. reflexivity. }
    unfold result_of, trace_of. rewrite E, app_nil_r. left. now split.
Qed.

(** *** The trace is what the remote answered *)

Lemma faithful_teams_main : faithful gh (main gh a).
Proof.
  unfold main, gh_ok.
  apply faithful_bind; [auto 10 with faithful|]. intros _.
  apply faithful_bind; [auto with faithful|]. intros rows.
  unfold reconcile.
  apply faithful_bind; [|auto with faithful].
  apply faithful_for_each. intros item. unfold turn.
  apply faithful_bind; [|intros _; apply faithful_bind; [|intros _]].
  - unfold ensure_team, team_exists, create_team.
    apply faithful_bind; [auto with faithful|]. intros e.
    apply faithful_if; [auto with faithful|].
    apply faithful_if; [auto with faithful|].
    apply faithful_bind; [|auto with faithful].
    apply faithful_bind; [auto with faithful|]. intros cp.
    apply faithful_if; [auto with faithful|].
    unfold subscript_slug.
    destruct (if nonempty (strip (stdout cp)) then loads (stdout cp)
              else Parsed (JObj [])) as [[| | | | |fields]| |];
      auto with faithful.
  - apply faithful_for_each. intros u.
    unfold ensure_instructor, team_membership, add_to_team.
    apply faithful_bind; [auto with faithful|]. intros r.
    repeat apply faithful_if; auto 10 with faithful.
  - apply faithful_for_each. intros u.
    unfold ensure_student, team_membership, add_to_team.
    apply faithful_bind; [auto with faithful|]. intros [r|];
    repeat apply faithful_if; auto 10 with faithful.
Qed.

End Program.

Lemma genuine_harmless_still {St} (gh : remote St) tr st st' :
  reads_keep_state gh -> each harmless tr -> genuine gh st tr st' -> st' = st.
Proof.
  intros Hr. revert st. induction tr as [|[c r|n] rest IH]; intros st He Hg.
  - exact Hg.
  - inversion He as [|e l Hc Hrest]; subst. cbn in Hc.
    destruct Hg as [_ Hg]. rewrite (Hr st c Hc) in Hg. now apply IH.
  - inversion He as [|e l Hc Hrest]; subst. now apply IH.
Qed.

End ManageMore.

(** ** manage_groups.py: the commands and the membership writes *)

(** X5. manage_groups.py only sends the commands of its text: the two
    checks of [gh_ok], the query and the creation of a team, the query
    and the write of a team membership, every one on the organization
    of [--org].  A team is created with the privacy of [--privacy] and
    an empty description; a membership is written with the role member
    or maintainer; neither is sent in a dry run.  The program sends no
    command about invitations or about membership of the organization. *)
Theorem X5_teams_calls_stay_on_the_organization :
  forall St (gh : remote St) (a : ManageGroups.args) st,
    each (only_calls (manage_may_call a)) (trace_of (ManageGroups.main gh a) st)
    /\ each (on_org (ManageGroups.org a)) (trace_of (ManageGroups.main gh a) st)
    /\ each no_invitation_call (trace_of (ManageGroups.main gh a) st).
Proof.
  intros St gh a st.
  pose proof (ManageMore.may_call_main gh a st) as H.
  split; [exact H|].
  split; (eapply Forall_impl; [|exact H]); intros [c r|n] Hc; cbn; trivial;
    destruct c; cbn in *; intuition.
Qed.

(** X6. In every trace of manage_groups.py a team membership is
    written right after the query of the same membership, and only as
    that query calls for: the role maintainer for somebody the query
    did not find a maintainer, the role member for somebody the query
    found with no role in the team.  So nobody who is in a team is
    written as a member again, and no maintainer is made a member. *)
Theorem X6_membership_writes_are_called_for :
  forall St (gh : remote St) (a : ManageGroups.args) st,
    writes_called_for (trace_of (ManageGroups.main gh a) st).
Proof.
  intros St gh a st.
  apply ManageMore.careful_writes, ManageMore.careful_main.
Qed.

(** X7. A run of manage_groups.py ends in one of three ways.  It
    stops before the loop over the groups, after a failed check or an
    empty roster with exit status 1 or with the exception of the
    loader, and has then made no call but the checks.  It stops in the
    creation of a team: the last call is the post of a team, a refused
    post is exit status 1 and an accepted one an exception met in its
    reply.  Or it completes, every creation it posted was accepted and
    its last line is the closing one.  Nothing else stops a run: a
    refused membership write prints a line and the loop goes on. *)
Theorem X7_teams_run_stops_only_before_the_loop_or_creating_a_team :
  forall St (gh : remote St) (a : ManageGroups.args) st,
    match result_of (ManageGroups.main gh a) st with
    | Done _ =>
        each creation_accepted (trace_of (ManageGroups.main gh a) st)
        /\ exists tr,
             trace_of (ManageGroups.main gh a) st = tr ++ [Print AllDone]
    | Stop why =>
        stopped_before_teams a why (trace_of (ManageGroups.main gh a) st)
        \/ stopped_in_create_team a why (trace_of (ManageGroups.main gh a) st)
    end.
Proof. intros St gh a st. apply ManageMore.main_run. Qed.

(** X8. The exit status of the two programs.  Either program ends
    with status 0 only when it has run to its last line, the summary
    of invite_to_org.py or the closing line of manage_groups.py: no
    [sys.exit] of the two files passes 0.  The status of
    manage_groups.py is 0 or 1, unless the run ends in JSON outside
    the modelled subset. *)
Theorem X8_exit_status_zero_means_the_last_line_was_printed :
  forall St (gh : remote St),
    (forall (a : InviteToOrg.args) st,
        exit_code (result_of (InviteToOrg.main gh a) st) = Some 0%Z ->
        exists t tr,
          result_of (InviteToOrg.main gh a) st = Done t
          /\ trace_of (InviteToOrg.main gh a) st
             = tr ++ [Print (Summary (InviteToOrg.ok t) (InviteToOrg.sk t)
                                     (InviteToOrg.fail t))])
    /\ (forall (a : ManageGroups.args) st,
           exit_code (result_of (ManageGroups.main gh a) st) = Some 0%Z ->
           exists tr,
             result_of (ManageGroups.main gh a) st = Done tt
             /\ trace_of (ManageGroups.main gh a) st = tr ++ [Print AllDone])
    /\ (forall (a : ManageGroups.args) st,
           exit_code (result_of (ManageGroups.main gh a) st) = Some 0%Z
           \/ exit_code (result_of (ManageGroups.main gh a) st) = Some 1%Z
           \/ result_of (ManageGroups.main gh a) st = Stop Unmodelled).
Proof.
  intros St gh. split; [|split].
  - intros a st H.
    destruct (InviteFacts.gh_prechecks_spec gh (InviteToOrg.org a) st)
      as [_ Hr].
    unfold result_of at 1 2 in Hr.
    destruct (InviteToOrg.gh_prechecks gh (InviteToOrg.org a) st)
      as [[r st1] tr1] eqn:Eg. cbn [fst snd] in Hr.
    destruct Hr as [->|[code [-> Hc]]].
    2:{ assert (E : InviteToOrg.main gh a st = (Stop (SysExit code), st1, tr1))
          by (unfold InviteToOrg.main; now apply GhFacts.bind_stop).
        unfold result_of in H. rewrite E in H. cbn in H. congruence. }
    destruct (InviteToOrg.load_students (InviteToOrg.file a))
      as [rows| |e|] eqn:El.
    + pose proof (invite_main_runs gh a st st1 tr1 rows Eg El) as E.
      destruct (reconcile_decided gh a (InviteToOrg.dedupe [] rows) st1)
        as [os [tr [Hres [Ht _]]]].
      unfold result_of at 1, trace_of at 1. rewrite E. cbn [fst snd].
      rewrite Hres, Ht. eexists. exists (tr1 ++ tr).
      split; [reflexivity|]. now rewrite app_assoc.
    + exfalso. unfold result_of, InviteToOrg.main in H. rewrite El in H.
      unfold bind at 1 in H. rewrite Eg in H. discriminate.
    + exfalso. unfold result_of, InviteToOrg.main in H. rewrite El in H.
      unfold bind at 1 in H. rewrite Eg in H. discriminate.
    + exfalso. unfold result_of, InviteToOrg.main in H. rewrite El in H.
      unfold bind at 1 in H. rewrite Eg in H. discriminate.
  - intros a st H. pose proof (ManageMore.main_run gh a st) as Hm.
    destruct (result_of (ManageGroups.main gh a) st) as [[]|why].
    + destruct Hm as [_ [tr Ht]]. now exists tr.
    + destruct Hm as [[_ Hw]|[pre [name [r [tail [_ [_ [Hf Hs]]]]]]]].
      * destruct why; cbn in *; congruence.
      * destruct (succeeded r).
        -- destruct (Hs eq_refl) as [->|[e ->]]; discriminate.
        -- rewrite (Hf eq_refl) in H. discriminate.
  - intros a st. pose proof (ManageMore.main_run gh a st) as Hm.
    destruct (result_of (ManageGroups.main gh a) st) as [[]|why].
    + now left.
    + right. destruct Hm as [[_ Hw]|[pre [name [r [tail [_ [_ [Hf Hs]]]]]]]].
      * destruct why; cbn in *; subst; auto.
      * destruct (succeeded r).
        -- destruct (Hs eq_refl) as [->|[e ->]]; cbn; auto.
        -- rewrite (Hf eq_refl). now left.
Qed.

Lemma X8_witness :
  (exists t tr,
      result_of (InviteToOrg.main FakeOrg.gh
                   (FakeOrg.invite_args Scenario.roster_two_alices true))
                FakeOrg.course = Done t
      /\ trace_of (InviteToOrg.main FakeOrg.gh
                     (FakeOrg.invite_args Scenario.roster_two_alices true))
                  FakeOrg.course
         = tr ++ [Print (Summary (InviteToOrg.ok t) (InviteToOrg.sk t)
                                 (InviteToOrg.fail t))])
  /\ (exists tr,
        result_of (ManageGroups.main FakeOrg.gh
                     (FakeOrg.manage_args Scenario.roster_two_alices false))
                  FakeOrg.course = Done tt
        /\ trace_of (ManageGroups.main FakeOrg.gh
                       (FakeOrg.manage_args Scenario.roster_two_alices false))
                    FakeOrg.course = tr ++ [Print AllDone]).
Proof.
  split.
  - apply (proj1 (X8_exit_status_zero_means_the_last_line_was_printed
                    FakeOrg.state FakeOrg.gh)).
    vm_compute. reflexivity.
  - apply (proj1 (proj2 (X8_exit_status_zero_means_the_last_line_was_printed
                           FakeOrg.state FakeOrg.gh))).
    vm_compute. reflexivity.
Defined.

(** ** What a run leaves behind *)

(** X9. Over a remote whose queries change nothing, a run of either
    program that made no write leaves the remote as it found it; so
    does every dry run.  The remote is changed by the invitations,
    team creations and membership writes of a run and by nothing
    else. *)
Theorem X9_only_the_writes_change_the_remote :
  forall St (gh : remote St),
    reads_keep_state gh ->
    (forall (a : InviteToOrg.args) st,
        each harmless (trace_of (InviteToOrg.main gh a) st) ->
        state_of (InviteToOrg.main gh a) st = st)
    /\ (forall (a : ManageGroups.args) st,
           each harmless (trace_of (ManageGroups.main gh a) st) ->
           state_of (ManageGroups.main gh a) st = st)
    /\ (forall (a : InviteToOrg.args) st,
           InviteToOrg.dry_run a = true ->
           state_of (InviteToOrg.main gh a) st = st)
    /\ (forall (a : ManageGroups.args) st,
           ManageGroups.dry_run a = true ->
           state_of (ManageGroups.main gh a) st = st).
Proof.
  intros St gh Hr.
  assert (Hi : forall (a : InviteToOrg.args) st,
             each harmless (trace_of (InviteToOrg.main gh a) st) ->
             state_of (InviteToOrg.main gh a) st = st).
  { intros a st He.
    exact (ManageMore.genuine_harmless_still gh _ st _ Hr He
             (InviteFacts.faithful_main gh a st)). }
  assert (Hm : forall (a : ManageGroups.args) st,
             each harmless (trace_of (ManageGroups.main gh a) st) ->
             state_of (ManageGroups.main gh a) st = st).
  { intros a st He.
    exact (ManageMore.genuine_harmless_still gh _ st _ Hr He
             (ManageMore.faithful_teams_main gh a st)). }
  repeat split; try assumption.
  - intros a st Hd. apply Hi. now apply InviteFacts.invite_harmless_main.
  - intros a st Hd. apply Hm. now apply ManageFacts.teams_harmless_main.
Qed.

Lemma X9_witness :
  state_of (InviteToOrg.main FakeOrg.gh
              (FakeOrg.invite_args Scenario.roster_two_alices true))
           FakeOrg.course = FakeOrg.course
  /\ state_of (ManageGroups.main FakeOrg.gh
                 (FakeOrg.manage_args Scenario.roster_two_alices true))
              FakeOrg.course = FakeOrg.course.
Proof.
  split.
  - apply (proj1 (proj2 (proj2 (X9_only_the_writes_change_the_remote
             FakeOrg.state FakeOrg.gh FakeOrgFacts.reads_keep_state_gh)))).
    reflexivity.
  - apply (proj2 (proj2 (proj2 (X9_only_the_writes_change_the_remote
             FakeOrg.state FakeOrg.gh FakeOrgFacts.reads_keep_state_gh)))).
    reflexivity.
Defined.

Import PyStr Json Roster Gh Props More.

(** ** manage_groups.py: the groups and their order *)

Module GroupMore.
Import ManageGroups GroupFacts.

Lemma keys_setdefault g u acc :
  map fst (setdefault_append g u acc)
  = if existsb (String.eqb g) (map fst acc) then map fst acc
    else map fst acc ++ [g].
Proof.
  induction acc as [|[k us] rest IH]; cbn [setdefault_append map fst existsb app].
  - reflexivity.
  - rewrite (String.eqb_sym g k).
    destruct (String.eqb k g); cbn [orb map fst]; [reflexivity|].
    rewrite IH. now destruct (existsb (String.eqb g) (map fst rest)).
Qed.

Lemma keys_setdefault_NoDup g u acc :
  NoDup (map fst acc) -> NoDup (map fst (setdefault_append g u acc)).
Proof.
  intros H. rewrite keys_setdefault.
  destruct (existsb (String.eqb g) (map fst acc)) eqn:E; [exact H|].
  apply NoDup_app; [exact H|repeat constructor; easy|].
  intros x Hx [Ex|[]]. subst x.
  assert (existsb (String.eqb g) (map fst acc) = true); [|congruence].
  apply existsb_exists. exists g. split; [exact Hx|apply String.eqb_refl].
Qed.

Lemma keys_setdefault_In g u acc k :
  In k (map fst (setdefault_append g u acc)) <-> In k (map fst acc) \/ k = g.
Proof.
  rewrite keys_setdefault.
  destruct (existsb (String.eqb g) (map fst acc)) eqn:E.
  - split; [now left|]. intros [H| ->]; [exact H|].
    apply existsb_exists in E. destruct E as [x [Hx Ex]].
    apply String.eqb_eq in Ex. now subst.
  - rewrite in_app_iff. cbn. intuition.
Qed.

Lemma keys_fold l acc :
  NoDup (map fst acc) ->
  NoDup (map fst (fold_left (fun groups s =>
                    setdefault_append (group s) (username s) groups) l acc))
  /\ forall k,
       In k (map fst (fold_left (fun groups s =>
                        setdefault_append (group s) (username s) groups) l acc))
       <-> In k (map fst acc) \/ In k (map group l).
Proof.
  revert acc. induction l as [|s rest IH]; intros acc Hn; cbn [fold_left map].
  - split; [exact Hn|]. intros k. cbn. intuition.
  - destruct (IH _ (keys_setdefault_NoDup (group s) (username s) acc Hn))
      as [H1 H2].
    split; [exact H1|]. intros k. rewrite H2, keys_setdefault_In. cbn.
    intuition.
Qed.

Lemma insert_item_perm x l : Permutation (insert_item x l) (x :: l).
Proof.
  induction l as [|y rest IH]; cbn [insert_item]; [reflexivity|].
  destruct (String.leb (fst x) (fst y)); [reflexivity|].
  rewrite IH. apply perm_swap.
Qed.

Lemma sorted_items_perm l : Permutation (sorted_items l) l.
Proof.
  induction l as [|x rest IH]; cbn [sorted_items fold_right]; [reflexivity|].
  rewrite insert_item_perm. now constructor.
Qed.

Lemma leb_false_flip x y : String.leb x y = false -> String.leb y x = true.
Proof.
  intros H. destruct (String.leb_total x y) as [E|E]; congruence.
Qed.

Lemma insert_item_sorted x l :
  Sorted (fun p q => String.leb (fst p) (fst q) = true) l ->
  Sorted (fun p q => String.leb (fst p) (fst q) = true) (insert_item x l).
Proof.
  induction 1 as [|y rest Hs IH Hh]; cbn [insert_item].
  - repeat constructor.
  - destruct (String.leb (fst x) (fst y)) eqn:E.
    + constructor; [now constructor|now constructor].
    + constructor; [exact IH|].
      destruct rest as [|z rest']; cbn [insert_item].
      * constructor. now apply leb_false_flip.
      * destruct (String.leb (fst x) (fst z)).
        -- constructor. now apply leb_false_flip.
        -- constructor. now inversion Hh.
Qed.

Lemma sorted_items_sorted l :
  Sorted (fun p q => String.leb (fst p) (fst q) = true) (sorted_items l).
Proof.
  induction l as [|x rest IH]; cbn [sorted_items fold_right]; [constructor|].
  now apply insert_item_sorted.
Qed.

Lemma leb_ltb x y : String.leb x y = true -> x <> y -> String.ltb x y = true.
Proof.
  unfold String.leb, String.ltb. intros H Hn.
  destruct (String.compare x y) eqn:E; try easy.
  apply String.compare_eq_iff in E. contradiction.
Qed.

Lemma sorted_strict (l : list (string * list string)) :
  NoDup (map fst l) ->
  Sorted (fun p q => String.leb (fst p) (fst q) = true) l ->
  Sorted name_before l.
Proof.
  induction l as [|x rest IH]; intros Hn Hs; [constructor|].
  inversion Hn as [|k ks Hx Hrest]; subst.
  inversion Hs as [|y ys Hs' Hh]; subst.
  constructor; [now apply IH|].
  destruct rest as [|z rest']; constructor.
  inversion Hh; subst. apply leb_ltb; [assumption|].
  intros E. apply Hx. left. now symmetry.
Qed.

Lemma members_of_unique g us l :
  NoDup (map fst l) -> In (g, us) l -> members_of g l = us.
Proof.
  unfold members_of.
  induction l as [|[k vs] rest IH]; intros Hn Hin; [easy|].
  inversion Hn as [|x xs Hx Hrest]; subst. cbn [find fst].
  destruct Hin as [E|Hin].
  - injection E as -> ->. now rewrite String.eqb_refl.
  - destruct (String.eqb_spec k g) as [->|ne].
    + exfalso. apply Hx. now apply (in_map fst _ (g, us)).
    + now apply IH.
Qed.

End GroupMore.

(** X10. The loop of manage_groups.py visits the groups of the roster
    once each and in the order of their names: the items it walks
    have strictly ascending names, the names are the group names that
    occur in the records and no other, and the members of an item are
    the usernames of the records of that group in the order of the
    file, so no team is visited without a member. *)
Theorem X10_groups_are_visited_once_in_name_order :
  forall students : list ManageGroups.student,
    let items := ManageGroups.sorted_items (ManageGroups.build_groups students) in
    Sorted name_before items
    /\ NoDup (map fst items)
    /\ (forall g, In g (map fst items)
                  <-> In g (map ManageGroups.group students))
    /\ (forall g us,
          In (g, us) items ->
          us = map ManageGroups.username
                 (filter (fun s => String.eqb (ManageGroups.group s) g) students)
          /\ us <> []).
Proof.
  intros students items.
  destruct (GroupMore.keys_fold students [] (NoDup_nil _)) as [Hn Hk].
  fold (ManageGroups.build_groups students) in Hn, Hk.
  pose proof (GroupMore.sorted_items_perm (ManageGroups.build_groups students))
    as Hp. fold items in Hp.
  assert (Hpk : Permutation (map fst items)
                  (map fst (ManageGroups.build_groups students)))
    by now apply Permutation_map.
  assert (Hni : NoDup (map fst items)).
  { eapply Permutation_NoDup; [symmetry; exact Hpk|exact Hn]. }
  assert (Hki : forall g, In g (map fst items)
                          <-> In g (map ManageGroups.group students)).
  { intros g. split.
    - intros H. apply (Permutation_in _ Hpk) in H.
      apply Hk in H. destruct H as [[]|H]. exact H.
    - intros H. apply (Permutation_in _ (Permutation_sym Hpk)).
      apply Hk. now right. }
  split; [|split; [exact Hni|split; [exact Hki|]]].
  - apply GroupMore.sorted_strict; [exact Hni|].
    apply GroupMore.sorted_items_sorted.
  - intros g us Hin.
    assert (Hb : In (g, us) (ManageGroups.build_groups students))
      by (eapply Permutation_in; [exact Hp|exact Hin]).
    pose proof (GroupMore.members_of_unique g us _ Hn Hb) as Hm.
    rewrite GroupFacts.members_of_build_groups in Hm.
    split; [now symmetry|].
    assert (Hg : In g (map ManageGroups.group students)).
    { apply Hki. now apply (in_map fst _ (g, us)). }
    apply in_map_iff in Hg. destruct Hg as [s [Hs Hin']].
    rewrite <- Hm. intros E.
    assert (Hf : In s (filter (fun s => String.eqb (ManageGroups.group s) g)
                         students)).
    { apply filter_In. split; [exact Hin'|]. now apply String.eqb_eq. }
    apply (in_map ManageGroups.username) in Hf. now rewrite E in Hf.
Qed.

Import PyStr Json Roster Gh Props More.

(** ** The loaders: what they skip and what they raise *)

Module LoaderMore.

Lemma or_empty_strip_raises v e : or_empty_strip v = inl e -> e = AttributeError.
Proof.
  unfold or_empty_strip. destruct (truthy v); [|discriminate].
  destruct v; congruence.
Qed.

Lemma or_empty_strip_non_string v :
  truthy_non_string v = true -> or_empty_strip v = inl AttributeError.
Proof.
  unfold truthy_non_string, or_empty_strip. intros H.
  apply andb_true_iff in H as [-> H]. now destruct v.
Qed.

Lemma invite_visit_raises it e :
  InviteToOrg.visit it = inl e -> e = AttributeError.
Proof.
  unfold InviteToOrg.visit. destruct it as [| | | | |fields]; try discriminate.
  destruct (truthy (dict_get username_key fields)); [|discriminate].
  destruct (or_empty_strip (dict_get name_key fields)) as [e'|n] eqn:En.
  - intros H. injection H as <-. now apply (or_empty_strip_raises _ _ En).
  - destruct (dict_get username_key fields); congruence.
Qed.

Lemma manage_visit_raises it e :
  ManageGroups.visit it = inl e -> e = AttributeError.
Proof.
  unfold ManageGroups.visit. destruct it as [| | | | |fields]; try discriminate.
  destruct (or_empty_strip (dict_get username_key fields)) as [e1|u] eqn:E1.
  { intros H. injection H as <-. now apply (or_empty_strip_raises _ _ E1). }
  destruct (or_empty_strip (dict_get group_key fields)) as [e2|g] eqn:E2.
  { intros H. injection H as <-. now apply (or_empty_strip_raises _ _ E2). }
  destruct (or_empty_strip (dict_get name_key fields)) as [e3|n] eqn:E3.
  { intros H. injection H as <-. now apply (or_empty_strip_raises _ _ E3). }
  now destruct (nonempty (lstrip at_sign u) && nonempty g).
Qed.

Lemma invite_visit_non_string fields :
  truthy (dict_get username_key fields) = true ->
  truthy_non_string (dict_get username_key fields)
  || truthy_non_string (dict_get name_key fields) = true ->
  InviteToOrg.visit (JObj fields) = inl AttributeError.
Proof.
  intros Ht H. unfold InviteToOrg.visit. rewrite Ht.
  destruct (or_empty_strip (dict_get name_key fields)) as [e|n] eqn:En.
  - now rewrite (or_empty_strip_raises _ _ En).
  - apply orb_true_iff in H as [H|H].
    + unfold truthy_non_string in H. apply andb_true_iff in H as [_ H].
      now destruct (dict_get username_key fields).
    + rewrite (or_empty_strip_non_string _ H) in En. discriminate.
Qed.

Lemma manage_visit_non_string fields :
  truthy_non_string (dict_get username_key fields)
  || truthy_non_string (dict_get group_key fields)
  || truthy_non_string (dict_get name_key fields) = true ->
  ManageGroups.visit (JObj fields) = inl AttributeError.
Proof.
  intros H. destruct (ManageGroups.visit (JObj fields)) as [e|o] eqn:E.
  - now rewrite (manage_visit_raises _ _ E).
  - exfalso. unfold ManageGroups.visit in E.
    destruct (or_empty_strip (dict_get username_key fields)) as [e1|u] eqn:E1;
      [discriminate|].
    destruct (or_empty_strip (dict_get group_key fields)) as [e2|g] eqn:E2;
      [discriminate|].
    destruct (or_empty_strip (dict_get name_key fields)) as [e3|n] eqn:E3;
      [discriminate|].
    apply orb_true_iff in H as [H|H]; [apply orb_true_iff in H as [H|H]|];
      apply or_empty_strip_non_string in H; congruence.
Qed.

Section Collect.
Context {row : Type}.
Variable visit : value -> exn + option row.
Hypothesis visit_raises : forall it e, visit it = inl e -> e = AttributeError.
Hypothesis visit_object : forall it, is_object it = false -> visit it = inr None.

Lemma collect_raises items e :
  collect visit items = inl e -> e = AttributeError.
Proof.
  induction items as [|it rest IH]; cbn [collect]; [discriminate|].
  destruct (visit it) as [e'|o] eqn:E.
  - intros H. injection H as <-. now apply (visit_raises it).
  - destruct (collect visit rest) as [e'|rows]; [|discriminate].
    intros H. injection H as <-. now apply IH.
Qed.

Lemma collect_one_raises items it :
  In it items -> visit it = inl AttributeError ->
  collect visit items = inl AttributeError.
Proof.
  induction items as [|x rest IH]; intros Hin Hv; [easy|]. cbn [collect].
  destruct (visit x) as [e|o] eqn:E.
  - now rewrite (visit_raises x e E).
  - destruct Hin as [->|Hin]; [congruence|]. now rewrite (IH Hin Hv).
Qed.

Lemma collect_objects items :
  collect visit items = collect visit (filter is_object items).
Proof.
  induction items as [|it rest IH]; [reflexivity|]. cbn [collect filter].
  destruct (is_object it) eqn:Eo; cbn [collect].
  - now rewrite IH.
  - rewrite (visit_object it Eo), IH.
    now destruct (collect visit (filter is_object rest)).
Qed.

Lemma collect_no_object items :
  forallb (fun it => negb (is_object it)) items = true ->
  collect visit items = inr [].
Proof.
  induction items as [|it rest IH]; [reflexivity|]. cbn [forallb collect].
  intros H. apply andb_true_iff in H as [Ho H].
  rewrite (visit_object it), (IH H); [reflexivity|].
  now destruct (is_object it).
Qed.

Lemma load_from_shapes :
  (forall fields, load_from visit (Parsed (JObj fields)) = NoStudents)
  /\ (forall s, load_from visit (Parsed (JStr s)) = NoStudents)
  /\ load_from visit (Parsed JNull) = Raised TypeError
  /\ (forall b, load_from visit (Parsed (JBool b)) = Raised TypeError)
  /\ (forall n, load_from visit (Parsed (JInt n)) = Raised TypeError)
  /\ load_from visit DecodeError = Raised JSONDecodeError
  /\ (forall items,
         load_from visit (Parsed (JArr items))
         = load_from visit (Parsed (JArr (filter is_object items))))
  /\ (forall d e, load_from visit d = Raised e -> e <> KeyError)
  /\ (forall d, load_from visit d <> Rows []).
Proof.
  repeat split; try reflexivity.
  - intros fields. unfold load_from, rows_of, py_iter.
    rewrite collect_no_object; [reflexivity|].
    now induction (dict_keys [] fields).
  - intros s. unfold load_from, rows_of, py_iter.
    rewrite collect_no_object; [reflexivity|].
    now induction (list_ascii_of_string s).
  - intros items. unfold load_from, rows_of, py_iter.
    now rewrite collect_objects.
  - intros d e H. unfold load_from, rows_of in H.
    destruct d as [data| |]; [|congruence|discriminate].
    destruct (py_iter data) as [e'|items] eqn:Ei.
    + destruct data; cbn in Ei; congruence.
    + destruct (collect visit items) as [e'|rows] eqn:Ec.
      * rewrite (collect_raises _ _ Ec) in H. congruence.
      * now destruct rows.
  - intros d. unfold load_from. destruct d as [data| |]; try discriminate.
    destruct (rows_of visit data) as [e|[|r rows]]; discriminate.
Qed.

Lemma load_from_one_raises items it :
  In it items -> visit it = inl AttributeError ->
  load_from visit (Parsed (JArr items)) = Raised AttributeError.
Proof.
  intros Hin Hv. unfold load_from, rows_of, py_iter.
  now rewrite (collect_one_raises items it Hin Hv).
Qed.

End Collect.

Lemma invite_visit_object it : is_object it = false -> InviteToOrg.visit it = inr None.
Proof. now destruct it. Qed.

Lemma manage_visit_object it : is_object it = false -> ManageGroups.visit it = inr None.
Proof. now destruct it. Qed.

End LoaderMore.

(** X11. What the two loaders do with a roster that is no list of
    records.  A roster that is one JSON object, or one JSON string,
    is read without complaint and found empty: the loader ends in its
    no-students exit.  A roster that is null, a boolean or a number
    raises [TypeError]; a text that does not decode raises
    [JSONDecodeError].  Items of the list that are no objects are
    passed over as if they were not there.  No loader raises
    [KeyError], and no loader returns an empty list. *)
Theorem X11_loaders_on_rosters_of_other_shapes :
  (forall fields,
      load_from InviteToOrg.visit (Parsed (JObj fields)) = NoStudents
      /\ load_from ManageGroups.visit (Parsed (JObj fields)) = NoStudents)
  /\ (forall s,
         load_from InviteToOrg.visit (Parsed (JStr s)) = NoStudents
         /\ load_from ManageGroups.visit (Parsed (JStr s)) = NoStudents)
  /\ (forall v,
         v = JNull \/ (exists b, v = JBool b) \/ (exists n, v = JInt n) ->
         load_from InviteToOrg.visit (Parsed v) = Raised TypeError
         /\ load_from ManageGroups.visit (Parsed v) = Raised TypeError)
  /\ (forall raw,
         loads (cleaned raw) = DecodeError ->
         InviteToOrg.load_students raw = Raised JSONDecodeError
         /\ ManageGroups.load_students raw = Raised JSONDecodeError)
  /\ (forall items,
         load_from InviteToOrg.visit (Parsed (JArr items))
         = load_from InviteToOrg.visit (Parsed (JArr (filter is_object items)))
         /\ load_from ManageGroups.visit (Parsed (JArr items))
            = load_from ManageGroups.visit
                (Parsed (JArr (filter is_object items))))
  /\ (forall raw e,
         InviteToOrg.load_students raw = Raised e
         \/ ManageGroups.load_students raw = Raised e ->
         e <> KeyError)
  /\ (forall raw,
         InviteToOrg.load_students raw <> Rows []
         /\ ManageGroups.load_students raw <> Rows []).
Proof.
  pose proof (LoaderMore.load_from_shapes InviteToOrg.visit
                LoaderMore.invite_visit_raises LoaderMore.invite_visit_object)
    as [I1 [I2 [I3 [I4 [I5 [I6 [I7 [I8 I9]]]]]]]].
  pose proof (LoaderMore.load_from_shapes ManageGroups.visit
                LoaderMore.manage_visit_raises LoaderMore.manage_visit_object)
    as [M1 [M2 [M3 [M4 [M5 [M6 [M7 [M8 M9]]]]]]]].
  split; [intros fields; split; [apply I1|apply M1]|].
  split; [intros s; split; [apply I2|apply M2]|].
  split.
  { intros v [->|[[b ->]|[n ->]]]; split; auto. }
  split.
  { intros raw H.
    unfold InviteToOrg.load_students, ManageGroups.load_students.
    rewrite H. now split. }
  split; [intros items; split; [apply I7|apply M7]|].
  split.
  { intros raw e [H|H]; [now apply I8 in H|now apply M8 in H]. }
  intros raw. split; [apply I9|apply M9].
Qed.

Lemma X11_witness :
  (load_from InviteToOrg.visit (Parsed (JInt 5)) = Raised TypeError
   /\ load_from ManageGroups.visit (Parsed (JInt 5)) = Raised TypeError)
  /\ (InviteToOrg.load_students "[" = Raised JSONDecodeError
      /\ ManageGroups.load_students "[" = Raised JSONDecodeError)
  /\ AttributeError <> KeyError.
Proof.
  split; [|split].
  - apply (proj1 (proj2 (proj2 X11_loaders_on_rosters_of_other_shapes))).
    right. right. now exists 5%Z.
  - apply (proj1 (proj2 (proj2 (proj2 X11_loaders_on_rosters_of_other_shapes)))).
    vm_compute. reflexivity.
  - apply (proj1 (proj2 (proj2 (proj2 (proj2 (proj2
             X11_loaders_on_rosters_of_other_shapes)))))
             (Scenario.quoted "[{'username': 5}]")).
    left. vm_compute. reflexivity.
Defined.

(** X12. One record with a field of the wrong type is fatal to the
    whole roster.  When the roster is a list and one of its records
    has a username that is true for Python and no string (a number
    that is not zero, [true], a list or an object that is not empty),
    both loaders raise [AttributeError] and return no rows, whatever
    the other records are; the group-aware loader does the same for
    such a group or name, the invitation loader for such a name in a
    record that has a username. *)
Theorem X12_a_field_that_is_no_string_raises :
  forall raw items fields,
    loads (cleaned raw) = Parsed (JArr items) ->
    In (JObj fields) items ->
    (truthy_non_string (dict_get username_key fields) = true ->
     InviteToOrg.load_students raw = Raised AttributeError
     /\ ManageGroups.load_students raw = Raised AttributeError)
    /\ (truthy_non_string (dict_get group_key fields) = true
        \/ truthy_non_string (dict_get name_key fields) = true ->
        ManageGroups.load_students raw = Raised AttributeError)
    /\ (truthy (dict_get username_key fields) = true ->
        truthy_non_string (dict_get name_key fields) = true ->
        InviteToOrg.load_students raw = Raised AttributeError).
Proof.
  intros raw items fields Hl Hin.
  unfold InviteToOrg.load_students, ManageGroups.load_students. rewrite Hl.
  split; [|split].
  - intros H. split.
    + apply (LoaderMore.load_from_one_raises _ LoaderMore.invite_visit_raises
               items (JObj fields) Hin).
      apply LoaderMore.invite_visit_non_string; [|now rewrite H].
      unfold truthy_non_string in H. now apply andb_true_iff in H as [H _].
    + apply (LoaderMore.load_from_one_raises _ LoaderMore.manage_visit_raises
               items (JObj fields) Hin).
      apply LoaderMore.manage_visit_non_string. now rewrite H.
  - intros H.
    apply (LoaderMore.load_from_one_raises _ LoaderMore.manage_visit_raises
             items (JObj fields) Hin).
    apply LoaderMore.manage_visit_non_string.
    destruct H as [H|H]; rewrite H; now rewrite ?orb_true_r.
  - intros Ht H.
    apply (LoaderMore.load_from_one_raises _ LoaderMore.invite_visit_raises
             items (JObj fields) Hin).
    apply LoaderMore.invite_visit_non_string; [exact Ht|].
    rewrite H. now rewrite orb_true_r.
Qed.

Lemma X12_witness :
  InviteToOrg.load_students
    (Scenario.quoted "[{'username':'alice','group':'A'},{'username':5,'group':'A'}]")
  = Raised AttributeError
  /\ ManageGroups.load_students
       (Scenario.quoted "[{'username':'alice','group':'A'},{'username':5,'group':'A'}]")
     = Raised AttributeError.
Proof.
  apply (proj1 (X12_a_field_that_is_no_string_raises
           (Scenario.quoted "[{'username':'alice','group':'A'},{'username':5,'group':'A'}]")
           [JObj [("username"%string, JStr "alice"); ("group"%string, JStr "A")];
            JObj [("username"%string, JInt 5); ("group"%string, JStr "A")]]
           [("username"%string, JInt 5); ("group"%string, JStr "A")]
           eq_refl (or_intror (or_introl eq_refl)))).
  reflexivity.
Defined.

Import PyStr Json Roster Gh Props More.

(** ** The comma pass and the list of instructors *)

Module TextMore.
Import ManageGroups.

Lemma strip_commas_significant b s :
  filter significant (strip_commas b s) = filter significant s.
Proof.
  revert b. induction s as [|c t IH]; intros b; [reflexivity|].
  cbn [strip_commas filter]. unfold significant at 2.
  destruct (isspace c) eqn:Es.
  - rewrite orb_true_r. cbn [negb].
    destruct b; cbn [andb]; [apply IH|].
    destruct (is_comma c && closes t); [apply IH|].
    cbn [filter]. unfold significant at 1. rewrite Es, orb_true_r.
    cbn [negb]. apply IH.
  - rewrite andb_false_r, orb_false_r.
    destruct (is_comma c) eqn:Ec; cbn [andb negb].
    + destruct (closes t); [apply IH|].
      cbn [filter]. unfold significant at 1. rewrite Ec. cbn. apply IH.
    + cbn [filter]. unfold significant at 1. rewrite Ec, Es. cbn.
      now rewrite IH.
Qed.

Lemma strip_commas_length b s :
  (List.length (strip_commas b s) <= List.length s)%nat.
Proof.
  revert b. induction s as [|c t IH]; intros b; [apply le_n|].
  cbn [strip_commas List.length].
  destruct (b && isspace c); [specialize (IH true); lia|].
  destruct (is_comma c && closes t); [specialize (IH true); lia|].
  cbn [List.length]. specialize (IH false). lia.
Qed.

Lemma strip_commas_no_comma s :
  existsb is_comma s = false -> strip_commas false s = s.
Proof.
  induction s as [|c t IH]; [reflexivity|]. cbn [existsb strip_commas andb].
  intros H. apply orb_false_iff in H as [Hc Ht].
  rewrite Hc. cbn [andb]. now rewrite (IH Ht).
Qed.

Lemma closes_no_closer s : existsb is_closer s = false -> closes s = false.
Proof.
  induction s as [|c t IH]; [reflexivity|]. cbn [existsb closes].
  intros H. apply orb_false_iff in H as [Hc Ht].
  destruct (isspace c); [now apply IH|exact Hc].
Qed.

Lemma strip_commas_no_closer s :
  existsb is_closer s = false -> strip_commas false s = s.
Proof.
  induction s as [|c t IH]; [reflexivity|]. cbn [existsb strip_commas andb].
  intros H. apply orb_false_iff in H as [Hc Ht].
  rewrite (closes_no_closer t Ht), andb_false_r. now rewrite (IH Ht).
Qed.

Lemma split_on_not_nil d s : split_on d s <> [].
Proof.
  destruct s as [|c t]; cbn [split_on]; [discriminate|].
  destruct (is_char d c); [discriminate|].
  now destruct (split_on d t).
Qed.

Lemma split_on_app d s1 s2 :
  split_on d (s1 ++ d :: s2) = split_on d s1 ++ split_on d s2.
Proof.
  induction s1 as [|c t IH]; cbn [app split_on].
  - unfold is_char. now rewrite Ascii.eqb_refl.
  - destruct (is_char d c); [now rewrite IH|].
    rewrite IH. destruct (split_on d t) as [|w ws] eqn:E; [|reflexivity].
    now destruct (split_on_not_nil d t).
Qed.

Lemma split_on_none d s : existsb (is_char d) s = false -> split_on d s = [s].
Proof.
  induction s as [|c t IH]; [reflexivity|]. cbn [existsb split_on].
  intros H. apply orb_false_iff in H as [Hc Ht].
  now rewrite Hc, (IH Ht).
Qed.

Lemma split_on_pieces d s w :
  In w (split_on d s) -> existsb (is_char d) w = false.
Proof.
  revert w. induction s as [|c t IH]; intros w; cbn [split_on].
  - intros [<-|[]]. reflexivity.
  - destruct (is_char d c) eqn:Ec.
    + intros [<-|H]; [reflexivity|now apply IH].
    + destruct (split_on d t) as [|w' ws] eqn:E.
      * now destruct (split_on_not_nil d t).
      * intros [<-|H].
        -- cbn [existsb]. rewrite Ec. apply IH. now left.
        -- apply IH. now right.
Qed.

Lemma list_ascii_of_string_app s1 s2 :
  list_ascii_of_string (s1 ++ s2)
  = list_ascii_of_string s1 ++ list_ascii_of_string s2.
Proof. induction s1 as [|c t IH]; cbn; [reflexivity|now rewrite IH]. Qed.

Lemma split_app d s1 s2 :
  split d (s1 ++ String d s2) = split d s1 ++ split d s2.
Proof.
  unfold split. rewrite list_ascii_of_string_app. cbn [list_ascii_of_string].
  now rewrite split_on_app, map_app.
Qed.

Lemma split_none d s : contains_char d s = false -> split d s = [s].
Proof.
  unfold contains_char, split. intros H. rewrite (split_on_none d _ H).
  cbn. now rewrite string_of_list_ascii_of_string.
Qed.

(** Trimming and stripping the sigils only takes characters away. *)
Lemma lstrip_with_incl cls s c : In c (lstrip_with cls s) -> In c s.
Proof.
  induction s as [|x t IH]; cbn [lstrip_with]; [easy|].
  destruct (cls x); [intros H; right; now apply IH|easy].
Qed.

Lemma rstrip_with_incl cls s c : In c (rstrip_with cls s) -> In c s.
Proof.
  induction s as [|x t IH]; cbn [rstrip_with]; [easy|].
  destruct (rstrip_with cls t) as [|y t'] eqn:E.
  - destruct (cls x); [easy|]. intros [<-|[]]. now left.
  - intros [<-|H]; [now left|right; now apply IH].
Qed.

End TextMore.

(** X13. The pass that tolerates trailing commas takes nothing from
    the text of a roster but commas and white space: the other
    characters come out as they went in, in their order, so the
    cleaned text is never longer than the raw one.  A text without a
    comma, and a text without a closing brace or bracket, comes out
    as it went in. *)
Theorem X13_comma_pass_only_deletes_commas_and_white_space :
  forall raw : string,
    filter significant (list_ascii_of_string (cleaned raw))
    = filter significant (list_ascii_of_string raw)
    /\ (List.length (list_ascii_of_string (cleaned raw))
        <= List.length (list_ascii_of_string raw))%nat
    /\ (has_comma raw = false -> cleaned raw = raw)
    /\ (existsb is_closer (list_ascii_of_string raw) = false ->
        cleaned raw = raw).
Proof.
  intros raw. unfold cleaned, lift.
  rewrite list_ascii_of_string_of_list_ascii.
  split; [apply TextMore.strip_commas_significant|].
  split; [apply TextMore.strip_commas_length|].
  split; intros H.
  - rewrite TextMore.strip_commas_no_comma; [|exact H].
    apply string_of_list_ascii_of_string.
  - rewrite TextMore.strip_commas_no_closer; [|exact H].
    apply string_of_list_ascii_of_string.
Qed.

Lemma X13_witness :
  cleaned (Scenario.quoted "{'username': 'alice'}")
  = Scenario.quoted "{'username': 'alice'}"
  /\ cleaned "[1, 2 , 3" = "[1, 2 , 3"%string.
Proof.
  split.
  - apply (proj1 (proj2 (proj2
             (X13_comma_pass_only_deletes_commas_and_white_space
                (Scenario.quoted "{'username': 'alice'}"))))).
    reflexivity.
  - apply (proj2 (proj2 (proj2
             (X13_comma_pass_only_deletes_commas_and_white_space
                "[1, 2 , 3")))).
    reflexivity.
Defined.

(** X14. The value of [--instructors] is read entry by entry: the
    instructors of two lists joined by a comma are the instructors of
    the first followed by those of the second; a value without a comma
    gives no instructor when it is blank and else the one entry,
    trimmed and without its leading at-signs.  So blank entries and a
    trailing comma are passed over, and no instructor starts with an
    at-sign or holds a comma. *)
Theorem X14_instructors_are_read_entry_by_entry :
  (forall s1 s2,
      ManageGroups.parse_instructors (s1 ++ String ","%char s2)
      = ManageGroups.parse_instructors s1 ++ ManageGroups.parse_instructors s2)
  /\ (forall s,
         has_comma s = false ->
         ManageGroups.parse_instructors s
         = if blank s then [] else [normalize s])
  /\ (forall s u,
         In u (ManageGroups.parse_instructors s) ->
         starts_with_at u = false /\ has_comma u = false).
Proof.
  split; [|split].
  - intros s1 s2. unfold ManageGroups.parse_instructors.
    now rewrite TextMore.split_app, filter_app, map_app.
  - intros s H. unfold ManageGroups.parse_instructors, blank.
    rewrite (TextMore.split_none _ s H). cbn [filter].
    now destruct (nonempty (strip s)).
  - intros s u H. unfold ManageGroups.parse_instructors in H.
    apply in_map_iff in H as [w [<- Hw]].
    split; [apply RosterFacts.starts_with_at_normalize|].
    apply filter_In in Hw as [Hw _]. unfold ManageGroups.split in Hw.
    apply in_map_iff in Hw as [t [<- Ht]].
    apply TextMore.split_on_pieces in Ht.
    unfold has_comma, contains_char, normalize, lstrip, strip, lift.
    rewrite !list_ascii_of_string_of_list_ascii.
    match goal with |- ?x = false => destruct x eqn:E end; [|reflexivity].
    apply existsb_exists in E as [c [Hc Ec]].
    apply TextMore.lstrip_with_incl in Hc. unfold strip_text, strip_with in Hc.
    apply TextMore.rstrip_with_incl, TextMore.lstrip_with_incl in Hc.
    assert (existsb (is_char ","%char) t = true); [|congruence].
    apply existsb_exists. now exists c.
Qed.

Lemma X14_witness :
  ManageGroups.parse_instructors " @prof " = ["prof"%string]
  /\ ManageGroups.parse_instructors "   " = []
  /\ starts_with_at "ta" = false /\ has_comma "ta" = false.
Proof.
  split; [|split].
  - exact (proj1 (proj2 X14_instructors_are_read_entry_by_entry)
             " @prof "%string eq_refl).
  - exact (proj1 (proj2 X14_instructors_are_read_entry_by_entry)
             "   "%string eq_refl).
  - apply (proj2 (proj2 X14_instructors_are_read_entry_by_entry)
             "prof, @ta,"%string).
    right. now left.
Defined.

Import PyStr Json Roster Gh Props More.

(** ** The checks before the roster is read *)


Import PyStr Json Roster Gh Props More.

(** ** manage_groups.py: the queries of a run *)

Module QueryFacts.
Import Slug ManageGroups GhFacts ManageFacts CountFacts ManageMore.

Lemma queries_of_app t1 t2 : queries_of (t1 ++ t2) = queries_of t1 ++ queries_of t2.
Proof. unfold queries_of. now rewrite calls_app, filter_app. Qed.

Lemma queries_of_quiet tr : calls tr = [] -> queries_of tr = [].
Proof. unfold queries_of. now intros ->. Qed.

Lemma queries_of_harmless tr : each harmless tr -> queries_of tr = calls tr.
Proof.
  unfold queries_of.
  induction 1 as [|[c r|n] rest Hc _ IH]; cbn [calls filter].
  - reflexivity.
  - cbn in Hc. rewrite Hc. cbn [negb]. now f_equal.
  - exact IH.
Qed.

Section Program.
Context {St : Type}.
Variable gh : remote St.
Variable a : args.

Lemma queries_for_each {A} (f : A -> list cmd) (body : A -> @M St unit) xs :
  (forall x s s' t, body x s = (Done tt, s', t) -> queries_of t = f x) ->
  forall st st' tr,
    for_each xs body st = (Done tt, st', tr) ->
    queries_of tr = flat_map f xs.
Proof.
  intros Hb. induction xs as [|x rest IH]; intros st st' tr H;
    cbn [for_each flat_map] in *.
  - unfold ret in H. now injection H as _ <-.
  - apply bind_done_inv in H as [[] [s1 [t1 [t2 [H1 [H2 ->]]]]]].
    rewrite queries_of_app, (Hb _ _ _ _ H1). f_equal. now apply (IH s1 st').
Qed.

Lemma queries_ensure_instructor slug u st :
  queries_of (trace_of (ensure_instructor gh a slug u) st)
  = [GetTeamMembership (org a) slug u].
Proof.
  destruct (ensure_instructor_trace gh a slug u st)
    as [q [tail [-> [[Hc _]|[r [n [-> [Hn _]]]]]]]].
  - change (Call (GetTeamMembership (org a) slug u) q :: tail)
      with ([Call (GetTeamMembership (org a) slug u) q] ++ tail).
    now rewrite queries_of_app, (queries_of_quiet tail Hc).
  - change (Call (GetTeamMembership (org a) slug u) q
              :: Call (PutTeamMembership (org a) slug u maintainer_role) r :: n)
      with ([Call (GetTeamMembership (org a) slug u) q;
             Call (PutTeamMembership (org a) slug u maintainer_role) r] ++ n).
    now rewrite queries_of_app, (queries_of_quiet n Hn).
Qed.

Lemma queries_ensure_student slug u st :
  queries_of (trace_of (ensure_student gh a slug u) st)
  = [GetTeamMembership (org a) slug u].
Proof.
  destruct (ensure_student_trace gh a slug u st)
    as [q [tail [-> [[Hc _]|[r [n [-> [Hn _]]]]]]]].
  - change (Call (GetTeamMembership (org a) slug u) q :: tail)
      with ([Call (GetTeamMembership (org a) slug u) q] ++ tail).
    now rewrite queries_of_app, (queries_of_quiet tail Hc).
  - change (Call (GetTeamMembership (org a) slug u) q
              :: Call (PutTeamMembership (org a) slug u member_role) r :: n)
      with ([Call (GetTeamMembership (org a) slug u) q;
             Call (PutTeamMembership (org a) slug u member_role) r] ++ n).
    now rewrite queries_of_app, (queries_of_quiet n Hn).
Qed.

Lemma queries_ensure_team name slug st :
  queries_of (trace_of (ensure_team gh a name slug) st) = [GetTeam (org a) slug].
Proof.
  unfold trace_of, ensure_team, team_exists, create_team, subscript_slug.
  unfold bind, call, ret, print, stop.
  destruct (gh st (GetTeam (org a) slug)) as [r st1].
  destruct (succeeded r); [reflexivity|].
  destruct (dry_run a); [reflexivity|].
  destruct (gh st1 (PostTeam (org a) name (privacy_name (privacy a)) EmptyString))
    as [r' st2].
  destruct (succeeded r'); cbn [negb]; [|reflexivity].
  destruct (if nonempty (strip (stdout r')) then loads (stdout r')
            else Parsed (JObj [])) as [[| | | | |fields]| |];
    try reflexivity.
  now destruct (dict_has slug_key fields).
Qed.

Lemma map_as_flat_map {A B} (f : A -> B) xs :
  flat_map (fun x => [f x]) xs = map f xs.
Proof. induction xs as [|x rest IH]; cbn; [reflexivity|now rewrite IH]. Qed.

Lemma queries_turn instr item st st' tr :
  turn gh a instr item st = (Done tt, st', tr) ->
  queries_of tr = team_queries a instr item.
Proof.
  unfold turn. intros H.
  apply bind_done_inv in H as [[] [s1 [t1 [t2 [H1 [H ->]]]]]].
  apply bind_done_inv in H as [[] [s2 [t3 [t4 [H2 [H3 ->]]]]]].
  rewrite !queries_of_app. unfold team_queries.
  pose proof (queries_ensure_team (fst item) (slugify (fst item)) st) as Q1.
  unfold trace_of in Q1. rewrite H1 in Q1. cbn [snd] in Q1. rewrite Q1.
  assert (Q2 : queries_of t3
               = flat_map (fun u => [GetTeamMembership (org a)
                                       (slugify (fst item)) u]) instr).
  { apply (queries_for_each _ (ensure_instructor gh a (slugify (fst item)))
             instr) with (st := s1) (st' := s2); [|exact H2].
    intros x s s' t Hx.
    pose proof (queries_ensure_instructor (slugify (fst item)) x s) as Q.
    unfold trace_of in Q. now rewrite Hx in Q. }
  assert (Q3 : queries_of t4
               = flat_map (fun u => [GetTeamMembership (org a)
                                       (slugify (fst item)) u]) (snd item)).
  { apply (queries_for_each _ (ensure_student gh a (slugify (fst item)))
             (snd item)) with (st := s2) (st' := st'); [|exact H3].
    intros x s s' t Hx.
    pose proof (queries_ensure_student (slugify (fst item)) x s) as Q.
    unfold trace_of in Q. now rewrite Hx in Q. }
  rewrite Q2, Q3.
  rewrite !map_as_flat_map, map_app. reflexivity.
Qed.

Lemma queries_reconcile students st st' tr :
  reconcile gh a students st = (Done tt, st', tr) ->
  queries_of tr = roster_queries a students.
Proof.
  unfold reconcile. intros H.
  apply bind_done_inv in H as [[] [s1 [t1 [t2 [H1 [H2 ->]]]]]].
  unfold print in H2. injection H2 as _ <-.
  rewrite queries_of_app. cbn [queries_of calls filter]. rewrite app_nil_r.
  unfold roster_queries.
  apply (queries_for_each _ _ _ (fun x s s' t => queries_turn _ x s s' t)
           st s1 t1 H1).
Qed.

End Program.

End QueryFacts.

(** X16. Every run of the loop of manage_groups.py that reaches its
    end has asked the same queries in the same order, whatever the
    remote answered and whether or not it is a dry run: group after
    group in the order of the names, the team under its slug, then
    the membership of every instructor, then of every member of the
    group in the order of the file.  A dry run always reaches the end
    and makes these calls and no other; it also asks for the
    memberships of a team that does not exist. *)
Theorem X16_a_complete_team_run_asks_the_same_queries :
  forall St (gh : remote St) (a : ManageGroups.args)
         (students : list ManageGroups.student) st,
    (forall st' tr,
        ManageGroups.reconcile gh a students st = (Done tt, st', tr) ->
        queries_of tr = roster_queries a students)
    /\ (ManageGroups.dry_run a = true ->
        result_of (ManageGroups.reconcile gh a students) st = Done tt
        /\ calls (trace_of (ManageGroups.reconcile gh a students) st)
           = roster_queries a students).
Proof.
  intros St gh a students st.
  split; [intros st' tr; apply QueryFacts.queries_reconcile|].
  intros Hd.
  destruct (ManageFacts.teams_completes_reconcile gh a students Hd st)
    as [[] Hr].
  split; [exact Hr|].
  pose proof (GhFacts.run_eta (ManageGroups.reconcile gh a students) st) as E.
  rewrite Hr in E.
  rewrite <- (QueryFacts.queries_reconcile gh a students st _ _ E).
  symmetry. apply QueryFacts.queries_of_harmless.
  now apply ManageFacts.harmless_reconcile.
Qed.

Lemma X16_witness :
  (queries_of
     (trace_of (ManageGroups.reconcile FakeOrg.gh
                  (FakeOrg.manage_args EmptyString false) FakeOrg.group_a)
               FakeOrg.course)
   = roster_queries (FakeOrg.manage_args EmptyString false) FakeOrg.group_a)
  /\ (result_of (ManageGroups.reconcile FakeOrg.gh
                   (FakeOrg.manage_args EmptyString true) FakeOrg.group_a)
                FakeOrg.course = Done tt
      /\ calls (trace_of (ManageGroups.reconcile FakeOrg.gh
                            (FakeOrg.manage_args EmptyString true)
                            FakeOrg.group_a) FakeOrg.course)
         = roster_queries (FakeOrg.manage_args EmptyString true)
             FakeOrg.group_a).
Proof.
  split.
  - apply (proj1 (X16_a_complete_team_run_asks_the_same_queries
                    FakeOrg.state FakeOrg.gh
                    (FakeOrg.manage_args EmptyString false) FakeOrg.group_a
                    FakeOrg.course)
             (state_of (ManageGroups.reconcile FakeOrg.gh
                          (FakeOrg.manage_args EmptyString false)
                          FakeOrg.group_a) FakeOrg.course)).
    vm_compute. reflexivity.
  - apply (proj2 (X16_a_complete_team_run_asks_the_same_queries
                    FakeOrg.state FakeOrg.gh
                    (FakeOrg.manage_args EmptyString true) FakeOrg.group_a
                    FakeOrg.course)).
    reflexivity.
Defined.

(** ** manage_groups.py: no write without a query *)

Module BoundFacts.
Import Slug ManageGroups GhFacts ManageFacts CountFacts ManageMore QueryFacts.




Section Program.
Context {St : Type}.
Variable gh : remote St.
Variable a : args.

Section Parts.
Variable P : list event -> Prop.
Hypothesis P_nil : P [].
Hypothesis P_app : forall t1 t2, P t1 -> P t2 -> P (t1 ++ t2).
Hypothesis P_print : forall n, P [Print n].
Hypothesis P_check : forall c r, is_precheck c = true -> P [Call c r].
Hypothesis P_team : forall name slug, always P (ensure_team gh a name slug).
Hypothesis P_instructor :
  forall slug u, always P (ensure_instructor gh a slug u).
Hypothesis P_student :
  forall slug u, always P (ensure_student gh a slug u).



End Parts.







End Program.





End BoundFacts.


Import PyStr Json Roster Gh Props Contract InviteSpec More.

(** * The loaders against the spec *)

Module LoaderSpecFacts.
Import LoaderSpec.

Lemma or_empty_strip_plain v :
  truthy_non_string v = false -> or_empty_strip v = inr (strip (field_text v)).
Proof.
  unfold truthy_non_string, or_empty_strip. intros H.
  destruct v as [|b|n|s|items|fields]; cbn in *;
    try (rewrite andb_true_r in H; rewrite H; reflexivity);
    try reflexivity.
  destruct s; reflexivity.
Qed.

Lemma normalize_empty : normalize EmptyString = EmptyString.
Proof. reflexivity. Qed.

Lemma plain_field keys fields k :
  plain keys (JObj fields) = true -> In k keys ->
  truthy_non_string (dict_get k fields) = false.
Proof.
  cbn [plain]. rewrite forallb_forall. intros H Hin.
  apply negb_true_iff. now apply H.
Qed.

(** The group-aware loader does to a plain item what the spec says. *)
Lemma manage_visit_plain it :
  plain group_keys it = true -> ManageGroups.visit it = inr (spec_group_row it).
Proof.
  destruct it as [| | | | |fields]; try reflexivity. intros H.
  unfold ManageGroups.visit, spec_group_row.
  rewrite (or_empty_strip_plain _ (plain_field _ _ username_key H
                                     (or_introl eq_refl))).
  rewrite (or_empty_strip_plain _ (plain_field _ _ group_key H
                                     (or_intror (or_introl eq_refl)))).
  rewrite (or_empty_strip_plain _ (plain_field _ _ name_key H
                                     (or_intror (or_intror (or_introl eq_refl))))).
  cbn zeta. fold (normalize (field_text (dict_get username_key fields))).
  now destruct (nonempty (normalize _) && nonempty _).
Qed.

(** The invitation loader tests the username as it is written. *)
Lemma invite_visit_plain it :
  plain invite_keys it = true ->
  InviteToOrg.visit it = inr (tested_as_written it).
Proof.
  destruct it as [| | | | |fields]; try reflexivity. intros H.
  unfold InviteToOrg.visit, tested_as_written.
  pose proof (plain_field _ _ username_key H (or_introl eq_refl)) as Hu.
  rewrite (or_empty_strip_plain _ (plain_field _ _ name_key H
                                     (or_intror (or_introl eq_refl)))).
  unfold truthy_non_string in Hu.
  destruct (dict_get username_key fields) as [|b|n|s|items|flds]; cbn in *;
    try (rewrite andb_true_r in Hu; rewrite Hu; reflexivity);
    try reflexivity.
  now destruct s.
Qed.

Lemma nonempty_normalize w : nonempty (normalize w) = true -> nonempty w = true.
Proof. destruct w; [discriminate|reflexivity]. Qed.

(** Where no username is white space and at-signs only, testing it
    as written and testing it normalized come to the same. *)
Lemma tested_as_written_spec it :
  bare_sigil it = false -> tested_as_written it = spec_invite_row it.
Proof.
  destruct it as [| | | | |fields]; try reflexivity.
  unfold bare_sigil, tested_as_written, spec_invite_row. cbn zeta.
  destruct (nonempty (field_text (dict_get username_key fields))) eqn:Ew;
    cbn [andb].
  - intros H. apply negb_false_iff in H. now rewrite H.
  - intros _.
    destruct (nonempty (normalize (field_text (dict_get username_key fields))))
      eqn:En; [|reflexivity].
    apply nonempty_normalize in En. congruence.
Qed.

(** The rows with a username among the rows tested as written are the
    rows of the spec. *)
Lemma kept_with_username items :
  filter has_username (kept tested_as_written items)
  = kept spec_invite_row items.
Proof.
  unfold kept. induction items as [|it rest IH]; [reflexivity|].
  cbn [flat_map]. rewrite filter_app, IH. f_equal.
  destruct it as [| | | | |fields]; try reflexivity.
  unfold tested_as_written, spec_invite_row. cbn zeta.
  destruct (nonempty (field_text (dict_get username_key fields))) eqn:Ew.
  - cbn [filter]. unfold has_username. cbn [InviteToOrg.username].
    now destruct (nonempty (normalize (field_text (dict_get username_key fields)))).
  - destruct (nonempty (normalize (field_text (dict_get username_key fields))))
      eqn:En; [|reflexivity].
    apply nonempty_normalize in En. congruence.
Qed.

Lemma kept_ext {row} (f g : value -> option row) items :
  (forall it, In it items -> f it = g it) -> kept f items = kept g items.
Proof.
  unfold kept. induction items as [|it rest IH]; intros H; [reflexivity|].
  cbn [flat_map]. rewrite (H it (or_introl eq_refl)), IH; [reflexivity|].
  intros x Hx. apply H. now right.
Qed.

Section Collect.
Context {row : Type}.
Variable visit : value -> exn + option row.
Variable f : value -> option row.

Lemma collect_kept items :
  (forall it, In it items -> visit it = inr (f it)) ->
  collect visit items = inr (kept f items).
Proof.
  unfold kept. induction items as [|it rest IH]; intros H; [reflexivity|].
  cbn [collect flat_map]. rewrite (H it (or_introl eq_refl)), IH.
  - now destruct (f it).
  - intros x Hx. apply H. now right.
Qed.

Lemma load_from_kept items :
  (forall it, In it items -> visit it = inr (f it)) ->
  load_from visit (Parsed (JArr items)) = rows_or_exit (kept f items).
Proof.
  intros H. unfold load_from, rows_of, py_iter.
  rewrite (collect_kept items H). now destruct (kept f items).
Qed.

End Collect.

End LoaderSpecFacts.

(** C4, as the code has it.  Both loaders trim the username and then
    strip every leading ["@"], not one; a field that is missing, null
    or otherwise false for Python counts as the empty string.  The
    group-aware loader turns each record into the row of its
    normalized fields and drops it exactly when the username or the
    group is empty by then: on a roster that is a list it returns the
    rows of the spec in the order of the file, or exits when there is
    none, so each of its rows has a username that is not empty and
    does not start with ["@"], and a group that is not empty.  The
    invitation loader turns each record whose username is not empty
    once normalized into the same row as the spec and drops each
    record whose username is empty as written, in the order of the
    file: among its rows, those with a username are the rows of the
    spec, and on a roster without a username of white space and
    at-signs only it returns the rows of the spec or exits when there
    is none. *)
Theorem C4_loaders_normalize_usernames :
  (forall s, normalize s = lift (fun t => lstrip_with is_at (strip_text t)) s)
  /\ (forall s, starts_with_at (normalize s) = false)
  /\ (forall it,
         LoaderSpec.plain LoaderSpec.group_keys it = true ->
         ManageGroups.visit it = inr (LoaderSpec.spec_group_row it))
  /\ (forall raw items,
         loads (cleaned raw) = Parsed (JArr items) ->
         forallb (LoaderSpec.plain LoaderSpec.group_keys) items = true ->
         ManageGroups.load_students raw
         = LoaderSpec.rows_or_exit
             (LoaderSpec.kept LoaderSpec.spec_group_row items))
  /\ (forall raw rows,
         ManageGroups.load_students raw = Rows rows ->
         Forall (fun r => nonempty (ManageGroups.username r) = true
                          /\ nonempty (ManageGroups.group r) = true
                          /\ starts_with_at (ManageGroups.username r) = false)
                rows)
  /\ (forall it,
         LoaderSpec.plain LoaderSpec.invite_keys it = true ->
         LoaderSpec.bare_sigil it = false ->
         InviteToOrg.visit it = inr (LoaderSpec.spec_invite_row it))
  /\ (forall raw items,
         loads (cleaned raw) = Parsed (JArr items) ->
         forallb (LoaderSpec.plain LoaderSpec.invite_keys) items = true ->
         exists rows,
           InviteToOrg.load_students raw = LoaderSpec.rows_or_exit rows
           /\ filter LoaderSpec.has_username rows
              = LoaderSpec.kept LoaderSpec.spec_invite_row items
           /\ (existsb LoaderSpec.bare_sigil items = false ->
               rows = LoaderSpec.kept LoaderSpec.spec_invite_row items)).
Proof.
  split; [exact RosterFacts.normalize_lift|].
  split; [exact RosterFacts.starts_with_at_normalize|].
  split; [exact LoaderSpecFacts.manage_visit_plain|].
  split.
  { intros raw items Hl Hp. unfold ManageGroups.load_students. rewrite Hl.
    apply LoaderSpecFacts.load_from_kept. intros it Hin.
    apply LoaderSpecFacts.manage_visit_plain.
    rewrite forallb_forall in Hp. now apply Hp. }
  split.
  { intros raw rows H.
    eapply RosterFacts.load_from_each; [|exact H].
    exact RosterFacts.manage_visit_row. }
  split.
  { intros it Hp Hb. rewrite LoaderSpecFacts.invite_visit_plain by exact Hp.
    now rewrite LoaderSpecFacts.tested_as_written_spec. }
  intros raw items Hl Hp.
  exists (LoaderSpec.kept LoaderSpec.tested_as_written items).
  split; [|split].
  - unfold InviteToOrg.load_students. rewrite Hl.
    apply LoaderSpecFacts.load_from_kept. intros it Hin.
    apply LoaderSpecFacts.invite_visit_plain.
    rewrite forallb_forall in Hp. now apply Hp.
  - apply LoaderSpecFacts.kept_with_username.
  - intros Hb. apply LoaderSpecFacts.kept_ext. intros it Hin.
    apply LoaderSpecFacts.tested_as_written_spec.
    destruct (LoaderSpec.bare_sigil it) eqn:E; [|reflexivity].
    assert (existsb LoaderSpec.bare_sigil items = true); [|congruence].
    apply existsb_exists. now exists it.
Qed.

Lemma C4_witness :
  ManageGroups.load_students
    (Scenario.quoted
       "[{'username':' @@bob ','group':' A '},{'username':'@','group':'A'},{'username':'alice'},{'name':' C ','username':'carol','group':'B'},7]")
  = Rows [ {| ManageGroups.name := EmptyString; ManageGroups.username := "bob";
              ManageGroups.group := "A" |};
           {| ManageGroups.name := "C"; ManageGroups.username := "carol";
              ManageGroups.group := "B" |} ]
  /\ Forall (fun r => nonempty (ManageGroups.username r) = true
                      /\ nonempty (ManageGroups.group r) = true
                      /\ starts_with_at (ManageGroups.username r) = false)
       [ {| ManageGroups.name := EmptyString; ManageGroups.username := "alice";
            ManageGroups.group := "A" |};
         {| ManageGroups.name := EmptyString; ManageGroups.username := "bob";
            ManageGroups.group := "A" |};
         {| ManageGroups.name := EmptyString; ManageGroups.username := "alice";
            ManageGroups.group := "A" |} ]
  /\ InviteToOrg.load_students Scenario.roster_two_alices
     = Rows [ {| InviteToOrg.name := EmptyString;
                 InviteToOrg.username := "alice" |};
              {| InviteToOrg.name := EmptyString;
                 InviteToOrg.username := "bob" |};
              {| InviteToOrg.name := EmptyString;
                 InviteToOrg.username := "alice" |} ]
  /\ (exists rows,
         InviteToOrg.load_students Scenario.roster_sigils
         = LoaderSpec.rows_or_exit rows
         /\ filter LoaderSpec.has_username rows
            = [ {| InviteToOrg.name := EmptyString;
                   InviteToOrg.username := "bob" |} ]).
Proof.
  split; [|split; [|split]].
  - exact (proj1 (proj2 (proj2 (proj2 C4_loaders_normalize_usernames)))
             (Scenario.quoted
                "[{'username':' @@bob ','group':' A '},{'username':'@','group':'A'},{'username':'alice'},{'name':' C ','username':'carol','group':'B'},7]")
             [ JObj [("username"%string, JStr " @@bob ");
                     ("group"%string, JStr " A ")];
               JObj [("username"%string, JStr "@"); ("group"%string, JStr "A")];
               JObj [("username"%string, JStr "alice")];
               JObj [("name"%string, JStr " C ");
                     ("username"%string, JStr "carol");
                     ("group"%string, JStr "B")];
               JInt 7 ]
             eq_refl eq_refl).
  - apply (proj1 (proj2 (proj2 (proj2 (proj2 C4_loaders_normalize_usernames))))
             Scenario.roster_two_alices).
    vm_compute. reflexivity.
  - destruct (proj2 (proj2 (proj2 (proj2 (proj2 (proj2
                C4_loaders_normalize_usernames)))))
                Scenario.roster_two_alices
                [ JObj [("username"%string, JStr "alice");
                        ("group"%string, JStr "A")];
                  JObj [("username"%string, JStr "bob");
                        ("group"%string, JStr "A")];
                  JObj [("username"%string, JStr "alice");
                        ("group"%string, JStr "A")] ]
                eq_refl eq_refl) as [rows [H1 [_ H3]]].
    rewrite (H3 eq_refl) in H1. exact H1.
  - destruct (proj2 (proj2 (proj2 (proj2 (proj2 (proj2
                C4_loaders_normalize_usernames)))))
                Scenario.roster_sigils
                [ JObj [("username"%string, JStr "@")];
                  JObj [("username"%string, JStr " @@bob ")] ]
                eq_refl eq_refl) as [rows [H1 [H2 _]]].
    exists rows. split; [exact H1|exact H2].
Defined.

(** C4 as stated fails: the invitation loader tests the username
    before it normalizes it, so a username of one ["@"] comes out
    empty; and of two leading ["@"] both go. *)
Lemma C4_counterexample :
  InviteToOrg.load_students Scenario.roster_sigils
  = Rows [ {| InviteToOrg.name := EmptyString;
              InviteToOrg.username := EmptyString |};
           {| InviteToOrg.name := EmptyString;
              InviteToOrg.username := "bob" |} ].
Proof. vm_compute. reflexivity. Qed.

(** * The empty roster *)

Module EmptyRosterFacts.
Import LoaderSpec.

(** A roster of plain records that keeps no record of the spec ends
    the group-aware loader in its exit. *)
Lemma manage_no_valid_record raw items :
  loads (cleaned raw) = Parsed (JArr items) ->
  forallb (plain group_keys) items = true ->
  kept spec_group_row items = [] ->
  ManageGroups.load_students raw = NoStudents.
Proof.
  intros Hl Hp Hk. unfold ManageGroups.load_students. rewrite Hl.
  rewrite (LoaderSpecFacts.load_from_kept ManageGroups.visit spec_group_row).
  - now rewrite Hk.
  - intros it Hin. apply LoaderSpecFacts.manage_visit_plain.
    rewrite forallb_forall in Hp. now apply Hp.
Qed.

(** The invitation loader does the same where no username is white
    space and at-signs only. *)
Lemma invite_no_valid_record raw items :
  loads (cleaned raw) = Parsed (JArr items) ->
  forallb (plain invite_keys) items = true ->
  existsb bare_sigil items = false ->
  kept spec_invite_row items = [] ->
  InviteToOrg.load_students raw = NoStudents.
Proof.
  intros Hl Hp Hb Hk. unfold InviteToOrg.load_students. rewrite Hl.
  rewrite (LoaderSpecFacts.load_from_kept InviteToOrg.visit spec_invite_row).
  - now rewrite Hk.
  - intros it Hin.
    rewrite LoaderSpecFacts.invite_visit_plain
      by (rewrite forallb_forall in Hp; now apply Hp).
    rewrite LoaderSpecFacts.tested_as_written_spec; [reflexivity|].
    destruct (bare_sigil it) eqn:E; [|reflexivity].
    assert (existsb bare_sigil items = true); [|congruence].
    apply existsb_exists. now exists it.
Qed.

(** The trace of a computation starts with the trace of its first
    part. *)
Lemma bind_trace_head {St A B} (m : @M St A) (f : A -> @M St B) st :
  exists rest, trace_of (bind m f) st = trace_of m st ++ rest.
Proof.
  unfold trace_of, bind. destruct (m st) as [[[x|why] s1] t1]; cbn [snd].
  - destruct (f x s1) as [[r s2] t2]. now exists t2.
  - exists []. now rewrite app_nil_r.
Qed.

(** On the roster of the two blank usernames invite_to_org.py goes
    into its loop, whatever the remote: the first call after the
    checks asks whether the user with the empty name is a member,
    and the run ends with status 0. *)
Lemma blank_usernames_run {St} (gh : remote St) (a : InviteToOrg.args)
  st st0 tr0 :
  InviteToOrg.file a = roster_blank_usernames ->
  InviteToOrg.gh_prechecks gh (InviteToOrg.org a) st = (Done tt, st0, tr0) ->
  exit_code (result_of (InviteToOrg.main gh a) st) = Some 0%Z
  /\ exists r rest,
       trace_of (InviteToOrg.main gh a) st
       = tr0 ++ Call (GetOrgMembership (InviteToOrg.org a) EmptyString) r
              :: rest.
Proof.
  intros Hf Hp.
  assert (Hl : InviteToOrg.load_students (InviteToOrg.file a)
               = Rows [ {| InviteToOrg.name := EmptyString;
                           InviteToOrg.username := EmptyString |};
                        {| InviteToOrg.name := EmptyString;
                           InviteToOrg.username := EmptyString |} ])
    by (rewrite Hf; vm_compute; reflexivity).
  pose proof (invite_main_runs gh a st st0 tr0 _ Hp Hl) as E.
  cbn [InviteToOrg.dedupe InviteToOrg.username existsb String.eqb orb] in E.
  split.
  - unfold result_of at 1. rewrite E. cbn [fst].
    destruct (InviteFacts.invite_completes_reconcile gh a
                [ {| InviteToOrg.name := EmptyString;
                     InviteToOrg.username := EmptyString |} ] st0) as [t Ht].
    now rewrite Ht.
  - unfold trace_of at 1. rewrite E. cbn [snd].
    unfold InviteToOrg.reconcile.
    destruct (bind_trace_head
                (for_fold [ {| InviteToOrg.name := EmptyString;
                               InviteToOrg.username := EmptyString |} ]
                          (InviteToOrg.turn gh a) InviteToOrg.tally0)
                (fun t => print (Summary (InviteToOrg.ok t) (InviteToOrg.sk t)
                                         (InviteToOrg.fail t)) ;;; ret t)
                st0) as [rest1 ->].
    cbn [for_fold].
    match goal with
    | |- context [trace_of (bind ?m ?f) st0] =>
        destruct (bind_trace_head m f st0) as [rest2 ->]
    end.
    unfold InviteToOrg.turn.
    cbn [InviteToOrg.username contains_char list_ascii_of_string existsb negb].
    match goal with
    | |- context [trace_of (bind ?m ?f) st0] =>
        destruct (bind_trace_head m f st0) as [rest3 ->]
    end.
    unfold InviteToOrg.is_member.
    match goal with
    | |- context [trace_of (bind ?m ?f) st0] =>
        destruct (bind_trace_head m f st0) as [rest4 ->]
    end.
    unfold trace_of, call.
    destruct (gh st0 (GetOrgMembership (InviteToOrg.org a) EmptyString))
      as [r s1]. cbn [snd].
    exists r, (rest4 ++ rest3 ++ rest2 ++ rest1).
    now rewrite <- !app_assoc.
Qed.

End EmptyRosterFacts.

(** C8.  The claim fails on invite_to_org.py.  The roster of two
    records whose usernames are an at-sign and two blanks holds no
    valid record as the spec words it.  The group-aware loader exits
    on it and manage_groups.py ends with status 1 after its checks.
    The invitation loader tests the username before it normalizes
    it: it returns two rows with an empty username, and
    invite_to_org.py goes through its loop, asks the remote about
    the user with the empty name and ends with status 0; so it does
    over every remote that passes the checks.  Apart from
    such usernames the claim holds: a roster of records that keeps no
    record of the spec is fatal to manage_groups.py, and to
    invite_to_org.py when no username is white space and at-signs
    only; and a roster of which the code's own test keeps nothing is
    fatal to both.  Then [main] stops with [sys.exit] on a code that
    is not zero and has made no call but the checks. *)
Theorem C8_empty_usernames_reach_the_invitation_loop :
  (exists items,
      loads (cleaned LoaderSpec.roster_blank_usernames)
      = Parsed (JArr items)
      /\ forallb (LoaderSpec.plain LoaderSpec.group_keys) items = true
      /\ LoaderSpec.kept LoaderSpec.spec_invite_row items = []
      /\ LoaderSpec.kept LoaderSpec.spec_group_row items = [])
  /\ ManageGroups.load_students
       LoaderSpec.roster_blank_usernames
     = NoStudents
  /\ ManageGroups.main FakeOrg.gh
       (FakeOrg.manage_args
          LoaderSpec.roster_blank_usernames
          false) FakeOrg.course
     = (Stop (SysExit 1), FakeOrg.course,
        [Call AuthStatus (FakeOrg.accepted EmptyString);
         Call (GetOrg "DS-223") (FakeOrg.accepted EmptyString);
         Print NoStudentsFound])
  /\ InviteToOrg.load_students
       LoaderSpec.roster_blank_usernames
     = Rows [ {| InviteToOrg.name := EmptyString;
                 InviteToOrg.username := EmptyString |};
              {| InviteToOrg.name := EmptyString;
                 InviteToOrg.username := EmptyString |} ]
  /\ InviteToOrg.main FakeOrg.gh
       (FakeOrg.invite_args
          LoaderSpec.roster_blank_usernames
          false) FakeOrg.course
     = (Done {| InviteToOrg.ok := 0; InviteToOrg.sk := 0;
                InviteToOrg.fail := 1 |},
        FakeOrg.course,
        [Call Version (FakeOrg.accepted EmptyString);
         Call AuthStatus (FakeOrg.accepted EmptyString);
         Call (GetOrg "DS-223") (FakeOrg.accepted EmptyString);
         Call (GetOrgMembership "DS-223" EmptyString) FakeOrg.refused;
         Call (ListInvitations "DS-223" EmptyString)
           (FakeOrg.accepted EmptyString);
         Call (GetUserId EmptyString) FakeOrg.refused;
         Print (CannotResolve EmptyString);
         Print (Summary 0 0 1)])
  /\ exit_code
       (result_of (InviteToOrg.main FakeOrg.gh
                     (FakeOrg.invite_args
                        LoaderSpec.roster_blank_usernames
                        false)) FakeOrg.course) = Some 0%Z
  /\ (forall St (gh : remote St) (a : InviteToOrg.args) st st0 tr0,
         InviteToOrg.file a = LoaderSpec.roster_blank_usernames ->
         InviteToOrg.gh_prechecks gh (InviteToOrg.org a) st
         = (Done tt, st0, tr0) ->
         exit_code (result_of (InviteToOrg.main gh a) st) = Some 0%Z
         /\ exists r rest,
              trace_of (InviteToOrg.main gh a) st
              = tr0 ++ Call (GetOrgMembership (InviteToOrg.org a) EmptyString) r
                     :: rest)
  /\ (forall St (gh : remote St) (a : ManageGroups.args) items st,
         loads (cleaned (ManageGroups.file a)) = Parsed (JArr items) ->
         forallb (LoaderSpec.plain LoaderSpec.group_keys) items = true ->
         LoaderSpec.kept LoaderSpec.spec_group_row items = [] ->
         (exists code,
             result_of (ManageGroups.main gh a) st = Stop (SysExit code)
             /\ code <> 0%Z)
         /\ each preliminary (trace_of (ManageGroups.main gh a) st))
  /\ (forall St (gh : remote St) (a : InviteToOrg.args) items st,
         loads (cleaned (InviteToOrg.file a)) = Parsed (JArr items) ->
         forallb (LoaderSpec.plain LoaderSpec.invite_keys) items = true ->
         existsb LoaderSpec.bare_sigil items = false ->
         LoaderSpec.kept LoaderSpec.spec_invite_row items = [] ->
         (exists code,
             result_of (InviteToOrg.main gh a) st = Stop (SysExit code)
             /\ code <> 0%Z)
         /\ each preliminary (trace_of (InviteToOrg.main gh a) st))
  /\ (forall St (gh : remote St) (a : InviteToOrg.args) data st,
         loads (cleaned (InviteToOrg.file a)) = Parsed data ->
         rows_of InviteToOrg.visit data = inr [] ->
         (exists code,
             result_of (InviteToOrg.main gh a) st = Stop (SysExit code)
             /\ code <> 0%Z)
         /\ each preliminary (trace_of (InviteToOrg.main gh a) st))
  /\ (forall St (gh : remote St) (a : ManageGroups.args) data st,
         loads (cleaned (ManageGroups.file a)) = Parsed data ->
         rows_of ManageGroups.visit data = inr [] ->
         (exists code,
             result_of (ManageGroups.main gh a) st = Stop (SysExit code)
             /\ code <> 0%Z)
         /\ each preliminary (trace_of (ManageGroups.main gh a) st)).
Proof.
  split.
  { eexists. split; [vm_compute; reflexivity|].
    split; [|split]; vm_compute; reflexivity. }
  split; [vm_compute; reflexivity|].
  split; [vm_compute; reflexivity|].
  split; [vm_compute; reflexivity|].
  split; [vm_compute; reflexivity|].
  split; [vm_compute; reflexivity|].
  split.
  { intros St gh a st st0 tr0. apply EmptyRosterFacts.blank_usernames_run. }
  split.
  { intros St gh a items st Hl Hp Hk.
    apply ManageFacts.teams_main_no_students.
    now apply (EmptyRosterFacts.manage_no_valid_record _ items). }
  split.
  { intros St gh a items st Hl Hp Hb Hk.
    apply InviteFacts.invite_main_no_students.
    now apply (EmptyRosterFacts.invite_no_valid_record _ items). }
  split.
  { intros St gh a data st Hd Hr.
    apply InviteFacts.invite_main_no_students.
    now apply (RosterFacts.load_from_empty _ _ data). }
  intros St gh a data st Hd Hr.
  apply ManageFacts.teams_main_no_students.
  now apply (RosterFacts.load_from_empty _ _ data).
Qed.

Lemma C8_witness :
  (exit_code
     (result_of (InviteToOrg.main FakeOrg.gh
                   (FakeOrg.invite_args LoaderSpec.roster_blank_usernames true))
                FakeOrg.read_only) = Some 0%Z
   /\ exists r rest,
        trace_of (InviteToOrg.main FakeOrg.gh
                    (FakeOrg.invite_args LoaderSpec.roster_blank_usernames true))
                 FakeOrg.read_only
        = trace_of (InviteToOrg.gh_prechecks FakeOrg.gh "DS-223")
                   FakeOrg.read_only
            ++ Call (GetOrgMembership "DS-223" EmptyString) r :: rest)
  /\ ((exists code,
       result_of (ManageGroups.main FakeOrg.gh
                    (FakeOrg.manage_args
                       (Scenario.quoted "[{'username':'@','group':'A'},{'group':'B'},7]")
                       false))
                 FakeOrg.course = Stop (SysExit code)
       /\ code <> 0%Z)
   /\ each preliminary
        (trace_of (ManageGroups.main FakeOrg.gh
                     (FakeOrg.manage_args
                        (Scenario.quoted "[{'username':'@','group':'A'},{'group':'B'},7]")
                        false))
                  FakeOrg.course))
  /\ ((exists code,
          result_of (InviteToOrg.main FakeOrg.gh
                       (FakeOrg.invite_args
                          (Scenario.quoted "[{'name':'Ann'},{'username':''},7]")
                          false))
                    FakeOrg.course = Stop (SysExit code)
          /\ code <> 0%Z)
      /\ each preliminary
           (trace_of (InviteToOrg.main FakeOrg.gh
                        (FakeOrg.invite_args
                           (Scenario.quoted "[{'name':'Ann'},{'username':''},7]")
                           false))
                     FakeOrg.course))
  /\ ((exists code,
          result_of (InviteToOrg.main FakeOrg.gh
                       (FakeOrg.invite_args Scenario.roster_empty false))
                    FakeOrg.course = Stop (SysExit code)
          /\ code <> 0%Z)
      /\ each preliminary
           (trace_of (InviteToOrg.main FakeOrg.gh
                        (FakeOrg.invite_args Scenario.roster_empty false))
                     FakeOrg.course))
  /\ ((exists code,
          result_of (ManageGroups.main FakeOrg.gh
                       (FakeOrg.manage_args Scenario.roster_empty false))
                    FakeOrg.course = Stop (SysExit code)
          /\ code <> 0%Z)
      /\ each preliminary
           (trace_of (ManageGroups.main FakeOrg.gh
                        (FakeOrg.manage_args Scenario.roster_empty false))
                     FakeOrg.course)).
Proof.
  pose proof C8_empty_usernames_reach_the_invitation_loop
    as [_ [_ [_ [_ [_ [_ [G0 [G1 [G2 [G3 G4]]]]]]]]]].
  split; [|split; [|split; [|split]]].
  - apply (G0 FakeOrg.state FakeOrg.gh
             (FakeOrg.invite_args LoaderSpec.roster_blank_usernames true)
             FakeOrg.read_only FakeOrg.read_only);
      vm_compute; reflexivity.
  - apply (G1 FakeOrg.state FakeOrg.gh
             (FakeOrg.manage_args
                (Scenario.quoted "[{'username':'@','group':'A'},{'group':'B'},7]")
                false)
             [ JObj [("username"%string, JStr "@"); ("group"%string, JStr "A")];
               JObj [("group"%string, JStr "B")]; JInt 7 ]);
      vm_compute; reflexivity.
  - apply (G2 FakeOrg.state FakeOrg.gh
             (FakeOrg.invite_args
                (Scenario.quoted "[{'name':'Ann'},{'username':''},7]") false)
             [ JObj [("name"%string, JStr "Ann")];
               JObj [("username"%string, JStr EmptyString)]; JInt 7 ]);
      vm_compute; reflexivity.
  - apply (G3 FakeOrg.state FakeOrg.gh
             (FakeOrg.invite_args Scenario.roster_empty false) (JArr []));
      vm_compute; reflexivity.
  - apply (G4 FakeOrg.state FakeOrg.gh
             (FakeOrg.manage_args Scenario.roster_empty false) (JArr []));
      vm_compute; reflexivity.
Defined.

Import PyStr Json Roster Gh Props Contract InviteSpec More.

(** * Dry runs: every intent is logged *)

Module DryFacts.
Import DrySpec GhFacts CountFacts.

Lemma role_in_some q r :
  role_in q = Some r ->
  String.eqb r ManageGroups.member_role
  || String.eqb r ManageGroups.maintainer_role = true.
Proof.
  unfold role_in. destruct (succeeded q); [|discriminate]. cbn [andb].
  destruct (_ || _) eqn:E; [|discriminate]. intros H. now injection H as <-.
Qed.

Section Program.
Context {St : Type}.
Variable gh : remote St.

Lemma chain_for_each {A} (P : A -> list event -> Prop)
  (body : A -> @M St unit) xs :
  (forall x st, exists st' tr, body x st = (Done tt, st', tr) /\ P x tr) ->
  forall st, exists st' tr,
    for_each xs body st = (Done tt, st', tr) /\ chain P xs tr.
Proof.
  intros Hb. induction xs as [|x rest IH]; intros st; cbn [for_each].
  - exists st, []. split; [reflexivity|constructor].
  - destruct (Hb x st) as [st1 [t1 [E1 P1]]].
    destruct (IH st1) as [st2 [t2 [E2 P2]]].
    exists st2, (t1 ++ t2). split; [|now constructor].
    now apply (bind_done _ _ st tt st1).
Qed.

(** *** The team workflow, step by step *)

Section Teams.
Import ManageGroups.
Variable a : args.
Hypothesis dry : dry_run a = true.

(** The step of a dry run, and what the same step writes from the
    same state without [--dry-run]. *)
Lemma dry_ensure_team name slug st :
  exists st' r,
    ensure_team gh a name slug st
    = (Done tt, st', [Call (GetTeam (org a) slug) r; Print (team_line slug r)])
    /\ written (trace_of (ensure_team gh (live_teams a) name slug) st)
       = intended a name slug (team_line slug r).
Proof.
  unfold trace_of, ensure_team, team_exists, create_team, subscript_slug,
    team_line.
  rewrite dry. cbn [live_teams dry_run org privacy].
  unfold bind, call, ret, print, stop.
  destruct (gh st (GetTeam (org a) slug)) as [r st1].
  exists st1, r. destruct (succeeded r); [now split|].
  split; [reflexivity|].
  destruct (gh st1 (PostTeam (org a) name (privacy_name (privacy a)) EmptyString))
    as [r' st2].
  destruct (succeeded r'); cbn [negb]; [|reflexivity].
  destruct (if nonempty (strip (stdout r')) then loads (stdout r')
            else Parsed (JObj [])) as [[| | | | |fields]| |];
    try reflexivity.
  now destruct (dict_has slug_key fields).
Qed.

Lemma dry_ensure_instructor name slug u st :
  exists st' q,
    ensure_instructor gh a slug u st
    = (Done tt, st', [Call (GetTeamMembership (org a) slug u) q;
                      Print (instructor_line u q)])
    /\ written (trace_of (ensure_instructor gh (live_teams a) slug u) st)
       = intended a name slug (instructor_line u q).
Proof.
  unfold trace_of, ensure_instructor, team_membership, add_to_team,
    instructor_line.
  rewrite dry. cbn [live_teams dry_run org].
  unfold bind at 1 2 3 4. unfold call at 1 2.
  destruct (gh st (GetTeamMembership (org a) slug u)) as [q st1].
  cbn [ret]. fold (role_in q). exists st1, q.
  destruct (role_in q) as [r|] eqn:E; cbn [is_role].
  - pose proof (role_in_some q r E) as Hr.
    destruct (String.eqb r maintainer_role) eqn:Em; [now split|].
    rewrite orb_false_r in Hr. rewrite Hr.
    split; [reflexivity|].
    unfold bind, call, ret, print.
    destruct (gh st1 (PutTeamMembership (org a) slug u maintainer_role))
      as [r' st2].
    now destruct (succeeded r').
  - split; [reflexivity|].
    unfold bind, call, ret, print.
    destruct (gh st1 (PutTeamMembership (org a) slug u maintainer_role))
      as [r' st2].
    now destruct (succeeded r').
Qed.

Lemma dry_ensure_student name slug u st :
  exists st' q,
    ensure_student gh a slug u st
    = (Done tt, st', [Call (GetTeamMembership (org a) slug u) q;
                      Print (student_line u q)])
    /\ written (trace_of (ensure_student gh (live_teams a) slug u) st)
       = intended a name slug (student_line u q).
Proof.
  unfold trace_of, ensure_student, team_membership, add_to_team, student_line.
  rewrite dry. cbn [live_teams dry_run org].
  unfold bind at 1 2 3 4. unfold call at 1 2.
  destruct (gh st (GetTeamMembership (org a) slug u)) as [q st1].
  cbn [ret]. fold (role_in q). exists st1, q.
  destruct (role_in q) as [r|] eqn:E.
  - rewrite (role_in_some q r E). now split.
  - split; [reflexivity|].
    unfold bind, call, ret, print.
    destruct (gh st1 (PutTeamMembership (org a) slug u member_role))
      as [r' st2].
    now destruct (succeeded r').
Qed.

Lemma dry_turn instr item st :
  exists st' tr,
    turn gh a instr item st = (Done tt, st', tr) /\ dry_team a instr item tr.
Proof.
  unfold turn.
  destruct (dry_ensure_team (fst item) (Slug.slugify (fst item)) st)
    as [s1 [r [E1 _]]].
  destruct (chain_for_each
              (fun u =>
                 asked_and_logged
                   (GetTeamMembership (org a) (Slug.slugify (fst item)) u)
                   (instructor_line u))
              (ensure_instructor gh a (Slug.slugify (fst item))) instr)
    with (st := s1) as [s2 [t1 [E2 C2]]].
  { intros u s.
    destruct (dry_ensure_instructor (fst item) (Slug.slugify (fst item)) u s)
      as [s' [q [E _]]].
    exists s'. eexists. split; [exact E|now exists q]. }
  destruct (chain_for_each
              (fun u =>
                 asked_and_logged
                   (GetTeamMembership (org a) (Slug.slugify (fst item)) u)
                   (student_line u))
              (ensure_student gh a (Slug.slugify (fst item))) (snd item))
    with (st := s2) as [s3 [t2 [E3 C3]]].
  { intros u s.
    destruct (dry_ensure_student (fst item) (Slug.slugify (fst item)) u s)
      as [s' [q [E _]]].
    exists s'. eexists. split; [exact E|now exists q]. }
  exists s3. eexists. split.
  - eapply bind_done; [exact E1|].
    eapply bind_done; [exact E2|exact E3].
  - eexists. exists t1, t2. split; [reflexivity|].
    split; [now exists r|]. now split.
Qed.

Lemma dry_reconcile students st :
  exists st' tr,
    reconcile gh a students st = (Done tt, st', tr) /\ dry_teams a students tr.
Proof.
  unfold reconcile.
  destruct (chain_for_each (dry_team a (parse_instructors (instructors a)))
              (turn gh a (parse_instructors (instructors a)))
              (sorted_items (build_groups students)))
    with (st := st) as [s1 [t [E C]]].
  { intros item s. apply dry_turn. }
  exists s1, (t ++ [Print AllDone]). split.
  - eapply bind_done; [exact E|reflexivity].
  - now exists t.
Qed.

End Teams.

(** *** The invitation workflow: one person *)

(** A dry run and a run without [--dry-run], from the same state:
    where the dry run skips, the other run does the same; where the
    dry run prints its would-invite line, the other run goes on to
    resolve the user id. *)
Lemma dry_invite_turn (a : InviteToOrg.args) t s st :
  InviteToOrg.dry_run a = true ->
  (would_invite_count (trace_of (InviteToOrg.turn gh a t s) st) = 0%Z
   /\ trace_of (InviteToOrg.turn gh (live_invite a) t s) st
      = trace_of (InviteToOrg.turn gh a t s) st)
  \/ (exists pre r rest,
         trace_of (InviteToOrg.turn gh a t s) st
         = pre ++ [Print (WouldInvite (InviteToOrg.username s))]
         /\ would_invite_count pre = 0%Z
         /\ trace_of (InviteToOrg.turn gh (live_invite a) t s) st
            = pre ++ Call (GetUserId (InviteToOrg.username s)) r :: rest).
Proof.
  intros Hd.
  unfold trace_of, InviteToOrg.turn, InviteToOrg.is_member,
    InviteToOrg.has_pending, InviteToOrg.resolve_uid, InviteToOrg.invite.
  rewrite Hd. cbn [live_invite InviteToOrg.dry_run InviteToOrg.org
                   InviteToOrg.role].
  set (u := InviteToOrg.username s).
  unfold bind, call, ret, print.
  destruct (contains_char at_sign u); cbn [negb].
  - destruct (gh st (ListInvitations (InviteToOrg.org a) u)) as [r1 st1].
    destruct (nonempty (strip (stdout r1))); [left; now split|].
    right. exists [Call (ListInvitations (InviteToOrg.org a) u) r1].
    destruct (gh st1 (GetUserId u)) as [r2 st2]. exists r2.
    destruct (if succeeded r2 then InviteToOrg.py_int (strip (stdout r2))
              else None) as [id|].
    + destruct (gh st2 (PostInvitation (InviteToOrg.org a) id
                          (InviteToOrg.role_name (InviteToOrg.role a))))
        as [r3 st3].
      destruct (succeeded r3); eexists; repeat split; reflexivity.
    + eexists; repeat split; reflexivity.
  - destruct (gh st (GetOrgMembership (InviteToOrg.org a) u)) as [r0 st0].
    destruct (succeeded r0); [left; now split|].
    destruct (gh st0 (ListInvitations (InviteToOrg.org a) u)) as [r1 st1].
    destruct (nonempty (strip (stdout r1))); [left; now split|].
    right. exists [Call (GetOrgMembership (InviteToOrg.org a) u) r0;
                   Call (ListInvitations (InviteToOrg.org a) u) r1].
    destruct (gh st1 (GetUserId u)) as [r2 st2]. exists r2.
    destruct (if succeeded r2 then InviteToOrg.py_int (strip (stdout r2))
              else None) as [id|].
    + destruct (gh st2 (PostInvitation (InviteToOrg.org a) id
                          (InviteToOrg.role_name (InviteToOrg.role a))))
        as [r3 st3].
      destruct (succeeded r3); eexists; repeat split; reflexivity.
    + eexists; repeat split; reflexivity.
Qed.

End Program.

End DryFacts.

(** C5, as the code has it.  In a dry run neither program makes a
    call that writes, whatever the input and the remote, and all
    intended actions are only logged.  The invitation loop of a dry
    run completes without a failure, counts every person as skipped
    or as a success, and counts as successes the persons it printed a
    would-invite line for; where it prints that line, the run without
    the flag goes on from the same state to resolve the user id, and
    where it skips, the run without the flag does the same.  The team
    loop of a dry run is, group after group in the order of the
    names, the query of the team and the line that it exists or would
    be created, then for every instructor and every member the query
    of the membership and the line that says what would be done; and
    what a step of the run without the flag writes from the same
    state is what the line of the dry run announces, and nothing when
    the line announces nothing.  Once the checks have passed and the
    roster has given rows, the exit code of a dry run is 0. *)
Theorem C5_dry_run_writes_nothing :
  forall St (gh : remote St),
    (forall (a : InviteToOrg.args) st,
        InviteToOrg.dry_run a = true ->
        each harmless (trace_of (InviteToOrg.main gh a) st))
    /\ (forall (a : ManageGroups.args) st,
           ManageGroups.dry_run a = true ->
           each harmless (trace_of (ManageGroups.main gh a) st))
    /\ (forall (a : InviteToOrg.args) students st,
           InviteToOrg.dry_run a = true ->
           exists t,
             result_of (InviteToOrg.reconcile gh a students) st = Done t
             /\ InviteToOrg.fail t = 0%Z
             /\ InviteToOrg.ok t
                = would_invite_count
                    (trace_of (InviteToOrg.reconcile gh a students) st)
             /\ (InviteToOrg.ok t + InviteToOrg.sk t
                 = Z.of_nat (List.length students))%Z)
    /\ (forall (a : InviteToOrg.args) st st0 tr0 rows,
           InviteToOrg.dry_run a = true ->
           InviteToOrg.gh_prechecks gh (InviteToOrg.org a) st = (Done tt, st0, tr0) ->
           InviteToOrg.load_students (InviteToOrg.file a) = Rows rows ->
           exit_code (result_of (InviteToOrg.main gh a) st) = Some 0%Z)
    /\ (forall (a : ManageGroups.args) st st0 tr0 rows,
           ManageGroups.dry_run a = true ->
           ManageGroups.gh_ok gh (ManageGroups.org a) st = (Done tt, st0, tr0) ->
           ManageGroups.load_students (ManageGroups.file a) = Rows rows ->
           exit_code (result_of (ManageGroups.main gh a) st) = Some 0%Z)
    /\ (forall (a : ManageGroups.args) st st0 tr0 rows,
           ManageGroups.dry_run a = true ->
           ManageGroups.gh_ok gh (ManageGroups.org a) st = (Done tt, st0, tr0) ->
           ManageGroups.load_students (ManageGroups.file a) = Rows rows ->
           exists tr,
             trace_of (ManageGroups.main gh a) st = tr0 ++ tr
             /\ DrySpec.dry_teams a rows tr)
    /\ (forall (a : ManageGroups.args) name slug u st,
           ManageGroups.dry_run a = true ->
           (exists r,
               trace_of (ManageGroups.ensure_team gh a name slug) st
               = [Call (GetTeam (ManageGroups.org a) slug) r;
                  Print (DrySpec.team_line slug r)]
               /\ DrySpec.written
                    (trace_of (ManageGroups.ensure_team gh
                                 (DrySpec.live_teams a) name slug) st)
                  = DrySpec.intended a name slug (DrySpec.team_line slug r))
           /\ (exists q,
                  trace_of (ManageGroups.ensure_instructor gh a slug u) st
                  = [Call (GetTeamMembership (ManageGroups.org a) slug u) q;
                     Print (DrySpec.instructor_line u q)]
                  /\ DrySpec.written
                       (trace_of (ManageGroups.ensure_instructor gh
                                    (DrySpec.live_teams a) slug u) st)
                     = DrySpec.intended a name slug
                         (DrySpec.instructor_line u q))
           /\ (exists q,
                  trace_of (ManageGroups.ensure_student gh a slug u) st
                  = [Call (GetTeamMembership (ManageGroups.org a) slug u) q;
                     Print (DrySpec.student_line u q)]
                  /\ DrySpec.written
                       (trace_of (ManageGroups.ensure_student gh
                                    (DrySpec.live_teams a) slug u) st)
                     = DrySpec.intended a name slug
                         (DrySpec.student_line u q)))
    /\ (forall (a : InviteToOrg.args) t s st,
           InviteToOrg.dry_run a = true ->
           (would_invite_count (trace_of (InviteToOrg.turn gh a t s) st) = 0%Z
            /\ trace_of (InviteToOrg.turn gh (DrySpec.live_invite a) t s) st
               = trace_of (InviteToOrg.turn gh a t s) st)
           \/ (exists pre r rest,
                  trace_of (InviteToOrg.turn gh a t s) st
                  = pre ++ [Print (WouldInvite (InviteToOrg.username s))]
                  /\ would_invite_count pre = 0%Z
                  /\ trace_of (InviteToOrg.turn gh (DrySpec.live_invite a) t s) st
                     = pre ++ Call (GetUserId (InviteToOrg.username s)) r
                              :: rest)).
Proof.
  intros St gh. split; [|split; [|split; [|split; [|split; [|split; [|split]]]]]].
  - intros a st Hd. now apply InviteFacts.invite_harmless_main.
  - intros a st Hd. now apply ManageFacts.teams_harmless_main.
  - intros a students st Hd.
    destruct (reconcile_decided gh a students st) as [os [tr [Hr [Ht Hall]]]].
    destruct (dry_decided_all a students tr os Hd Hall InviteToOrg.tally0)
      as [Hf [Ho Hs]].
    exists (fold_left bump os InviteToOrg.tally0).
    split; [exact Hr|]. split; [exact Hf|]. split; [|exact Hs].
    rewrite Ht, would_invite_count_app, Ho. cbn. lia.
  - intros a st st0 tr0 rows Hd Hp Hl.
    assert (E : result_of (InviteToOrg.main gh a) st
                = result_of (InviteToOrg.reconcile gh a
                               (InviteToOrg.dedupe [] rows)) st0)
      by (unfold result_of at 1;
          now rewrite (invite_main_runs gh a st st0 tr0 rows Hp Hl)).
    destruct (InviteFacts.invite_completes_reconcile gh a (InviteToOrg.dedupe [] rows) st0)
      as [t Ht].
    now rewrite E, Ht.
  - intros a st st0 tr0 rows Hd Hp Hl.
    assert (E : result_of (ManageGroups.main gh a) st
                = result_of (ManageGroups.reconcile gh a rows) st0)
      by (unfold result_of at 1;
          now rewrite (manage_main_runs gh a st st0 tr0 rows Hp Hl)).
    destruct (ManageFacts.teams_completes_reconcile gh a rows Hd st0) as [t Ht].
    now rewrite E, Ht.
  - intros a st st0 tr0 rows Hd Hp Hl.
    destruct (DryFacts.dry_reconcile gh a Hd rows st0) as [st1 [tr [E D]]].
    exists tr. split; [|exact D].
    unfold trace_of at 1.
    rewrite (manage_main_runs gh a st st0 tr0 rows Hp Hl). cbn [snd].
    unfold trace_of. now rewrite E.
  - intros a name slug u st Hd. split; [|split].
    + destruct (DryFacts.dry_ensure_team gh a Hd name slug st)
        as [st1 [r [E W]]].
      exists r. split; [|exact W]. unfold trace_of. now rewrite E.
    + destruct (DryFacts.dry_ensure_instructor gh a Hd name slug u st)
        as [st1 [q [E W]]].
      exists q. split; [|exact W]. unfold trace_of. now rewrite E.
    + destruct (DryFacts.dry_ensure_student gh a Hd name slug u st)
        as [st1 [q [E W]]].
      exists q. split; [|exact W]. unfold trace_of. now rewrite E.
  - intros a t s st Hd. now apply DryFacts.dry_invite_turn.
Qed.

Lemma C5_witness :
  each harmless
    (trace_of (ManageGroups.main FakeOrg.gh
                 (FakeOrg.manage_args Scenario.roster_two_alices true))
              FakeOrg.course)
  /\ exit_code
       (result_of (ManageGroups.main FakeOrg.gh
                     (FakeOrg.manage_args Scenario.roster_two_alices true))
                  FakeOrg.course) = Some 0%Z
  /\ exit_code
       (result_of (InviteToOrg.main FakeOrg.gh
                     (FakeOrg.invite_args Scenario.roster_two_alices true))
                  FakeOrg.course) = Some 0%Z
  /\ (exists tr,
         trace_of (ManageGroups.main FakeOrg.gh
                     (FakeOrg.manage_args Scenario.roster_two_alices true))
                  FakeOrg.course
         = trace_of (ManageGroups.gh_ok FakeOrg.gh "DS-223") FakeOrg.course
             ++ tr
         /\ DrySpec.dry_teams
              (FakeOrg.manage_args Scenario.roster_two_alices true)
              [ {| ManageGroups.name := EmptyString;
                   ManageGroups.username := "alice"; ManageGroups.group := "A" |};
                {| ManageGroups.name := EmptyString;
                   ManageGroups.username := "bob"; ManageGroups.group := "A" |};
                {| ManageGroups.name := EmptyString;
                   ManageGroups.username := "alice"; ManageGroups.group := "A" |} ]
              tr)
  /\ (exists r,
         trace_of (ManageGroups.ensure_team FakeOrg.gh
                     (FakeOrg.manage_args Scenario.roster_two_alices true)
                     "A" "a") FakeOrg.course
         = [Call (GetTeam "DS-223" "a") r; Print (DrySpec.team_line "a" r)]
         /\ DrySpec.written
              (trace_of (ManageGroups.ensure_team FakeOrg.gh
                           (DrySpec.live_teams
                              (FakeOrg.manage_args Scenario.roster_two_alices true))
                           "A" "a") FakeOrg.course)
            = DrySpec.intended
                (FakeOrg.manage_args Scenario.roster_two_alices true)
                "A" "a" (DrySpec.team_line "a" r)).
Proof.
  split; [|split; [|split; [|split]]].
  - apply (proj1 (proj2 (C5_dry_run_writes_nothing FakeOrg.state FakeOrg.gh))).
    reflexivity.
  - apply (proj1 (proj2 (proj2 (proj2 (proj2
             (C5_dry_run_writes_nothing FakeOrg.state FakeOrg.gh)))))
             (FakeOrg.manage_args Scenario.roster_two_alices true)
             FakeOrg.course FakeOrg.course
             (trace_of (ManageGroups.gh_ok FakeOrg.gh "DS-223") FakeOrg.course)
             [ {| ManageGroups.name := EmptyString;
                  ManageGroups.username := "alice"; ManageGroups.group := "A" |};
               {| ManageGroups.name := EmptyString;
                  ManageGroups.username := "bob"; ManageGroups.group := "A" |};
               {| ManageGroups.name := EmptyString;
                  ManageGroups.username := "alice"; ManageGroups.group := "A" |} ]);
      vm_compute; reflexivity.
  - apply (proj1 (proj2 (proj2 (proj2
             (C5_dry_run_writes_nothing FakeOrg.state FakeOrg.gh))))
             (FakeOrg.invite_args Scenario.roster_two_alices true)
             FakeOrg.course FakeOrg.course
             (trace_of (InviteToOrg.gh_prechecks FakeOrg.gh "DS-223") FakeOrg.course)
             [ {| InviteToOrg.name := EmptyString; InviteToOrg.username := "alice" |};
               {| InviteToOrg.name := EmptyString; InviteToOrg.username := "bob" |};
               {| InviteToOrg.name := EmptyString; InviteToOrg.username := "alice" |} ]);
      vm_compute; reflexivity.
  - apply (proj1 (proj2 (proj2 (proj2 (proj2 (proj2
             (C5_dry_run_writes_nothing FakeOrg.state FakeOrg.gh))))))
             (FakeOrg.manage_args Scenario.roster_two_alices true)
             FakeOrg.course FakeOrg.course);
      vm_compute; reflexivity.
  - apply (proj1 (proj1 (proj2 (proj2 (proj2 (proj2 (proj2 (proj2
             (C5_dry_run_writes_nothing FakeOrg.state FakeOrg.gh)))))))
             (FakeOrg.manage_args Scenario.roster_two_alices true)
             "A"%string "a"%string "alice"%string FakeOrg.course eq_refl)).
Defined.

(** C5 as stated fails on the exit code: a dry run on the empty
    roster exits with code 1. *)
Lemma C5_counterexample :
  InviteToOrg.dry_run (FakeOrg.invite_args Scenario.roster_empty true) = true
  /\ exit_code
       (result_of (InviteToOrg.main FakeOrg.gh
                     (FakeOrg.invite_args Scenario.roster_empty true))
                  FakeOrg.course) = Some 1%Z.
Proof. split; vm_compute; reflexivity. Qed.
